(** * The two storage sinks of the audit log server (logsrvd)

    A shallow embedding of [logsrvd/logsrvd_journal.c] (the journal sink)
    and [logsrvd/logsrvd_local.c] (the local sink) of sudo 1.9.7p1, with
    the properties of the session log relay that the specification states
    about them.

    The C functions return [bool] and mutate the connection closure and
    the file system.  Here each of them is a function from the closure and
    the file system to a triple (result, closure, file system).  The
    answers of the operating system and of the libraries that are not part
    of these two files (whether a write, a lock, a rename ... succeeds)
    are read from an explicit record [os_answers], one per handler call. *)

From Stdlib Require Import ZArith QArith String Ascii List Lia.
From Stdlib Require Import Strings.Byte.
From stdpp Require Import base option list gmap strings.

Local Open Scope string_scope.

Set Default Proof Using "Type".

(** ** Bytes and network byte order *)

Definition byte_of_Z (z : Z) : byte :=
  default x00 (Byte.of_N (Z.to_N (z mod 256))).

Definition Z_of_byte (b : byte) : Z := Z.of_N (Byte.to_N b).

(** The cast [(uint32_t)len]. *)
Definition uint32_t (z : Z) : Z := (z mod 2 ^ 32)%Z.

(** [htonl x] followed by [fwrite(&msg_len, 1, 4, ...)]: the four bytes of
    the 32-bit value as they lie in memory after [htonl], most significant
    byte first. *)
Definition htonl (x : Z) : list byte :=
  [ byte_of_Z (x / 2 ^ 24); byte_of_Z (x / 2 ^ 16);
    byte_of_Z (x / 2 ^ 8); byte_of_Z x ].

(** [fread(&msg_len, 4, 1, ...)] followed by [ntohl(msg_len)]: the value of
    four bytes read in network byte order. *)
Definition ntohl (bs : list byte) : Z :=
  match bs with
  | [b0; b1; b2; b3] =>
      (Z_of_byte b0 * 2 ^ 24 + Z_of_byte b1 * 2 ^ 16
       + Z_of_byte b2 * 2 ^ 8 + Z_of_byte b3)%Z
  | _ => 0%Z
  end.

Definition bytes_of_string (s : string) : list byte := list_byte_of_string s.

(** ** Time *)

(** [struct timespec]. *)
Record timespec := { tv_sec : Z; tv_nsec : Z }.

Definition timespec_zero : timespec := {| tv_sec := 0; tv_nsec := 0 |}.

(** The three uses of the macro [sudo_timespeccmp(a, b, op)] of
    sudo_util.h: seconds decide unless they are equal, then nanoseconds. *)
Definition sudo_timespeccmp_ge (a b : timespec) : bool :=
  if (tv_sec a =? tv_sec b)%Z then (tv_nsec b <=? tv_nsec a)%Z
  else (tv_sec b <=? tv_sec a)%Z.

Definition sudo_timespeccmp_eq (a b : timespec) : bool :=
  if (tv_sec a =? tv_sec b)%Z then (tv_nsec a =? tv_nsec b)%Z
  else (tv_sec a =? tv_sec b)%Z.

Definition sudo_timespeccmp_gt (a b : timespec) : bool :=
  if (tv_sec a =? tv_sec b)%Z then (tv_nsec b <? tv_nsec a)%Z
  else (tv_sec b <? tv_sec a)%Z.

Definition sudo_timespeccmp_lt (a b : timespec) : bool :=
  if (tv_sec a =? tv_sec b)%Z then (tv_nsec a <? tv_nsec b)%Z
  else (tv_sec a <? tv_sec b)%Z.

(** ** Wire messages (log_server.pb-c.h) *)

Module PB.

(** [TimeSpec]: [int64 tv_sec], [int32 tv_nsec]. *)
Record TimeSpec := { tv_sec : Z; tv_nsec : Z }.

Inductive InfoValue :=
| Numval (n : Z)
| Strval (s : string)
| Strlistval (l : list string).

Record InfoMessage := { key : string; value : InfoValue }.

Record AcceptMessage := {
  accept_submit_time : TimeSpec;
  accept_info_msgs : list InfoMessage;
  expect_iobufs : bool }.

Record RejectMessage := {
  reject_submit_time : TimeSpec;
  reject_info_msgs : list InfoMessage;
  reject_reason : string }.

Record ExitMessage := {
  exit_signal : option string;
  dumped_core : bool;
  exit_value : Z }.

Record RestartMessage := {
  log_id : string;
  resume_point : TimeSpec }.

Record AlertMessage := {
  alert_info_msgs : list InfoMessage;
  alert_time : TimeSpec;
  alert_reason : string }.

Record IoBuffer := {
  iobuf_delay : TimeSpec;
  data : list byte }.

Record CommandSuspend := {
  suspend_delay : TimeSpec;
  suspend_signal : string }.

Record ChangeWindowSize := {
  winsize_delay : TimeSpec;
  rows : Z;
  cols : Z }.

(** [ClientMessage] with its [type_case]; [TYPE_OTHER] stands for every
    value of [type_case] that the switch of [journal_seek] sends to its
    [default] arm. *)
Inductive ClientMessage :=
| TYPE_HELLO_MSG
| TYPE_ACCEPT_MSG (m : AcceptMessage)
| TYPE_REJECT_MSG (m : RejectMessage)
| TYPE_EXIT_MSG (m : ExitMessage)
| TYPE_RESTART_MSG (m : RestartMessage)
| TYPE_ALERT_MSG (m : AlertMessage)
| TYPE_TTYIN_BUF (b : IoBuffer)
| TYPE_TTYOUT_BUF (b : IoBuffer)
| TYPE_STDIN_BUF (b : IoBuffer)
| TYPE_STDOUT_BUF (b : IoBuffer)
| TYPE_STDERR_BUF (b : IoBuffer)
| TYPE_WINSIZE_EVENT (e : ChangeWindowSize)
| TYPE_SUSPEND_EVENT (e : CommandSuspend)
| TYPE_OTHER.

End PB.

(** Modelled from the spec: [update_elapsed_time] of logsrvd.c, which is
    not among the sources.  "Accumulation is saturating addition of
    (sec, nsec) normalized modulo 1e9": the nanoseconds are added and
    reduced modulo 1e9, the carry goes to the seconds, and the seconds
    saturate at the bounds of a 64-bit [time_t]. *)
Definition TIME_T_MAX : Z := (2 ^ 63 - 1)%Z.
Definition TIME_T_MIN : Z := (- 2 ^ 63)%Z.

Definition saturate (z : Z) : Z := Z.max TIME_T_MIN (Z.min TIME_T_MAX z).

Definition update_elapsed_time (delta : PB.TimeSpec) (elapsed : timespec)
  : timespec :=
  let nsec := (tv_nsec elapsed + PB.tv_nsec delta)%Z in
  {| tv_sec := saturate (tv_sec elapsed + PB.tv_sec delta
                         + nsec / 1000000000);
     tv_nsec := (nsec mod 1000000000)%Z |}.

(** ** The file system and the C library *)

(** An open file descriptor: the inode it refers to and whether the
    descriptor holds the advisory lock taken by [sudo_lock_file]. *)
Record file_desc := { fd_ino : nat; fd_locked : bool }.

(** A stdio stream on a descriptor ([FILE *]): the file position and the
    bytes written with [fwrite] that [fflush] has not yet handed to the
    file.  The buffered bytes end at [f_pos]. *)
Record FILE := { f_fd : file_desc; f_pos : nat; f_wbuf : list byte }.

(** Path names, the contents of the inodes they name, and the permission
    bits of the [timing] file of each I/O log directory. *)
Record filesys := {
  names : gmap string nat;
  inodes : gmap nat (list byte);
  timing_mode : gmap string Z }.

Definition set_names (n : gmap string nat) (fs : filesys) : filesys :=
  {| names := n; inodes := inodes fs; timing_mode := timing_mode fs |}.

Definition set_inodes (i : gmap nat (list byte)) (fs : filesys) : filesys :=
  {| names := names fs; inodes := i; timing_mode := timing_mode fs |}.

Definition set_timing_mode (t : gmap string Z) (fs : filesys) : filesys :=
  {| names := names fs; inodes := inodes fs; timing_mode := t |}.

(** The contents of the file a path names. *)
Definition read_file (fs : filesys) (path : string) : option (list byte) :=
  match names fs !! path with
  | Some ino => Some (default [] (inodes fs !! ino))
  | None => None
  end.

(** What the environment answers to one handler call: the results of the
    system calls and of the library functions that are not part of the two
    source files.  Each handler reads the fields of the calls it makes. *)
Record os_answers := {
  mkdir_parents_ok : bool;         (* sudo_mkdir_parents *)
  mkstemp_name : option string;    (* the unique name mkstemp creates *)
  lock_ok : bool;                  (* sudo_lock_file *)
  strdup_ok : bool;
  calloc_ok : bool;
  fdopen_ok : bool;
  open_ok : bool;
  fwrite_len_ok : bool;            (* fwrite of the length *)
  fwrite_buf_ok : bool;            (* fwrite of the payload *)
  fflush_ok : bool;
  fread_eof : bool;                (* feof after a short fread *)
  malloc_ok : bool;
  rename_ok : bool;
  fmt_log_id_ok : bool;            (* fmt_log_id_message *)
  ev_add_ok : bool;                (* sudo_ev_add *)
  evlog_new_ok : bool;
  iolog_init_path : option string; (* iolog_init: the new log directory *)
  eventlog_ok : bool;              (* eventlog_accept/reject/alert *)
  fchmodat_ok : bool;
  iolog_openat_ok : bool;
  fstatat_ok : bool;
  iolog_open_all_ok : bool;
  any_compressed : bool;           (* some iolog_files[iofd].compressed *)
  iolog_rewrite_ok : bool;
  iolog_seekto_res : option timespec;
  iolog_seek_ok : bool;
  iolog_create_ok : bool;
  iolog_write_data_ok : bool;      (* iolog_write to the stream file *)
  iolog_write_timing_ok : bool;    (* iolog_write to the timing file *)
  randval : Q                      (* arc4random() / (double)UINT32_MAX *)
}.

(** [mkstemp(pathbuf)]: overwrites the template in place with a name that
    does not exist yet and creates that file, empty. *)
Definition sys_mkstemp (os : os_answers) (template : string) (fs : filesys)
  : option (file_desc * string * filesys) :=
  match mkstemp_name os with
  | Some p =>
      if bool_decide (String.length p = String.length template)
         && bool_decide (names fs !! p = None)
      then
        let ino := fresh (dom (inodes fs)) in
        Some ({| fd_ino := ino; fd_locked := false |}, p,
              set_inodes (<[ino := []]> (inodes fs))
                (set_names (<[p := ino]> (names fs)) fs))
      else None
  | None => None
  end.

(** [open(path, O_RDWR)].  A path is looked up as it is written: how the
    file system resolves "..", repeated slashes and links is not
    modelled, so a path names at most the file it was created under. *)
Definition sys_open (os : os_answers) (path : string) (fs : filesys)
  : option file_desc :=
  if open_ok os then
    match names fs !! path with
    | Some ino => Some {| fd_ino := ino; fd_locked := false |}
    | None => None
    end
  else None.

Definition sys_unlink (path : string) (fs : filesys) : filesys :=
  set_names (delete path (names fs)) fs.

(** [rename(old, new)]: the new name replaces whatever it named before. *)
Definition sys_rename (os : os_answers) (old new : string) (fs : filesys)
  : option filesys :=
  if rename_ok os then
    match names fs !! old with
    | Some ino => Some (set_names (<[new := ino]> (delete old (names fs))) fs)
    | None => None
    end
  else None.

(** Modelled from the spec: [sudo_lock_file(fd, SUDO_TLOCK)] of the
    utility library, which is not among the sources.  "acquire advisory
    exclusive lock (test-lock variant: non-blocking)": the descriptor
    holds the lock afterwards, or the call fails. *)
Definition sudo_lock_file (os : os_answers) (d : file_desc)
  : option file_desc :=
  if lock_ok os then Some {| fd_ino := fd_ino d; fd_locked := true |}
  else None.

(** Bytes [bs] written over [old] from offset [off] on. *)
Definition write_at (off : nat) (bs old : list byte) : list byte :=
  take off old ++ bs ++ drop (off + length bs) old.

(** [fwrite(buf, 1, n, f)]: the bytes go to the buffer of the stream. *)
Definition sys_fwrite (ok : bool) (bs : list byte) (f : FILE) : option FILE :=
  if ok then
    Some {| f_fd := f_fd f; f_pos := f_pos f + length bs;
            f_wbuf := f_wbuf f ++ bs |}
  else None.

(** [fflush(f)]: the buffered bytes reach the file. *)
Definition sys_fflush (os : os_answers) (f : FILE) (fs : filesys)
  : option (FILE * filesys) :=
  if fflush_ok os then
    let ino := fd_ino (f_fd f) in
    let old := default [] (inodes fs !! ino) in
    Some ({| f_fd := f_fd f; f_pos := f_pos f; f_wbuf := [] |},
          set_inodes
            (<[ino := write_at (f_pos f - length (f_wbuf f)) (f_wbuf f) old]>
               (inodes fs)) fs)
  else None.

Definition sys_rewind (f : FILE) : FILE :=
  {| f_fd := f_fd f; f_pos := 0; f_wbuf := f_wbuf f |}.

(** [fread(buf, n, 1, f)] on the bytes that remain after the position:
    [n] bytes and the rest, or nothing at the end of the file. *)
Definition sys_fread (n : nat) (rest : list byte)
  : option (list byte * list byte) :=
  if decide (n <= length rest)%nat then Some (take n rest, drop n rest)
  else None.

(** Modelled from the spec: [sudo_pow2_roundup] of the utility library,
    which is not among the sources.  "capacity grown to the next power of
    two when needed". *)
Definition sudo_pow2_roundup (len : Z) : Z := (2 ^ Z.log2_up len)%Z.

(** ** The connection closure (logsrvd.h) *)

Record iolog_file := {
  enabled : bool;
  compressed : bool;
  contents : list byte }.

Record eventlog := { iolog_path : option string }.

Record connection_closure := {
  errstr : option string;
  elapsed_time : timespec;
  journal : option FILE;
  journal_path : option string;
  evlog : option eventlog;
  log_io : bool;
  iolog_dir_fd : option string;     (* the directory the descriptor is on *)
  iolog_files : list iolog_file;    (* indexed by iofd *)
  write_queue : list string         (* log ids queued for the client *)
}.

Definition set_errstr (e : string) (c : connection_closure) :=
  {| errstr := Some e; elapsed_time := elapsed_time c; journal := journal c;
     journal_path := journal_path c; evlog := evlog c; log_io := log_io c;
     iolog_dir_fd := iolog_dir_fd c; iolog_files := iolog_files c;
     write_queue := write_queue c |}.

Definition set_elapsed_time (t : timespec) (c : connection_closure) :=
  {| errstr := errstr c; elapsed_time := t; journal := journal c;
     journal_path := journal_path c; evlog := evlog c; log_io := log_io c;
     iolog_dir_fd := iolog_dir_fd c; iolog_files := iolog_files c;
     write_queue := write_queue c |}.

Definition set_journal (j : option FILE) (c : connection_closure) :=
  {| errstr := errstr c; elapsed_time := elapsed_time c; journal := j;
     journal_path := journal_path c; evlog := evlog c; log_io := log_io c;
     iolog_dir_fd := iolog_dir_fd c; iolog_files := iolog_files c;
     write_queue := write_queue c |}.

Definition set_journal_path (p : option string) (c : connection_closure) :=
  {| errstr := errstr c; elapsed_time := elapsed_time c; journal := journal c;
     journal_path := p; evlog := evlog c; log_io := log_io c;
     iolog_dir_fd := iolog_dir_fd c; iolog_files := iolog_files c;
     write_queue := write_queue c |}.

Definition set_evlog (e : option eventlog) (c : connection_closure) :=
  {| errstr := errstr c; elapsed_time := elapsed_time c; journal := journal c;
     journal_path := journal_path c; evlog := e; log_io := log_io c;
     iolog_dir_fd := iolog_dir_fd c; iolog_files := iolog_files c;
     write_queue := write_queue c |}.

Definition set_log_io (b : bool) (c : connection_closure) :=
  {| errstr := errstr c; elapsed_time := elapsed_time c; journal := journal c;
     journal_path := journal_path c; evlog := evlog c; log_io := b;
     iolog_dir_fd := iolog_dir_fd c; iolog_files := iolog_files c;
     write_queue := write_queue c |}.

Definition set_iolog_dir_fd (d : option string) (c : connection_closure) :=
  {| errstr := errstr c; elapsed_time := elapsed_time c; journal := journal c;
     journal_path := journal_path c; evlog := evlog c; log_io := log_io c;
     iolog_dir_fd := d; iolog_files := iolog_files c;
     write_queue := write_queue c |}.

Definition set_iolog_files (l : list iolog_file) (c : connection_closure) :=
  {| errstr := errstr c; elapsed_time := elapsed_time c; journal := journal c;
     journal_path := journal_path c; evlog := evlog c; log_io := log_io c;
     iolog_dir_fd := iolog_dir_fd c; iolog_files := l;
     write_queue := write_queue c |}.

Definition set_write_queue (q : list string) (c : connection_closure) :=
  {| errstr := errstr c; elapsed_time := elapsed_time c; journal := journal c;
     journal_path := journal_path c; evlog := evlog c; log_io := log_io c;
     iolog_dir_fd := iolog_dir_fd c; iolog_files := iolog_files c;
     write_queue := q |}.

(** The closure of a fresh connection: everything zeroed, the six I/O log
    slots closed. *)
Definition iolog_file_closed : iolog_file :=
  {| enabled := false; compressed := false; contents := [] |}.

Definition closure_init : connection_closure :=
  {| errstr := None; elapsed_time := timespec_zero; journal := None;
     journal_path := None; evlog := None; log_io := false;
     iolog_dir_fd := None; iolog_files := replicate 6 iolog_file_closed;
     write_queue := [] |}.

(** What a handler returns: its [bool], the closure and the file system
    as it leaves them. *)
Definition result : Type := bool * connection_closure * filesys.

(** ** The conversions of [snprintf] *)

Definition digit_char (d : Z) : ascii := ascii_of_nat (48 + Z.to_nat d).

(** The decimal digits of [n >= 0], most significant first; [fuel] bounds
    their number. *)
Fixpoint dec_digits (fuel : nat) (n : Z) : string :=
  match fuel with
  | O => ""
  | S fuel =>
      if (n <? 10)%Z then String (digit_char n) ""
      else dec_digits fuel (n / 10) ++ String (digit_char (n mod 10)) ""
  end.

(** [%u], [%zu] and the digits of the signed conversions. *)
Definition fmt_u (n : Z) : string :=
  dec_digits (S (Z.to_nat (Z.log2 n))) n.

Fixpoint zeros (n : nat) : string :=
  match n with
  | O => ""
  | S n => String "0" (zeros n)
  end.

(** [%d] and [%lld]. *)
Definition fmt_d (z : Z) : string :=
  if (z <? 0)%Z then "-" ++ fmt_u (- z) else fmt_u z.

(** [%0wd]: the sign, then zeros up to the minimum field width [w], then
    the digits. *)
Definition fmt_0d (w : nat) (z : Z) : string :=
  let sign := if (z <? 0)%Z then "-" else "" in
  let digits := fmt_u (Z.abs z) in
  sign ++ zeros (w - String.length sign - String.length digits) ++ digits.

(** ** Permission bits (sys/stat.h) and the macros of sudo_compat.h *)

Definition S_IWUSR : Z := 128.   (* 0200 *)
Definition S_IWGRP : Z := 16.    (* 0020 *)
Definition S_IWOTH : Z := 2.     (* 0002 *)

Definition CLR (t f : Z) : Z := Z.land t (Z.lnot f).
Definition ISSET (t f : Z) : bool := negb (Z.land t f =? 0)%Z.

(** ** The driver of the fuzz targets (lib/fuzzstub/fuzzstub.c) *)

(** What the system answers for one input file named on the command
    line: whether [open] succeeds, the size [fstat] reports in
    [st_size] (or that it fails; the size of a file is not negative and
    fits [size_t]), whether [realloc] succeeds, and the bytes [read]
    finds in the file (or that it fails). *)
Record input_file := {
  in_open_ok : bool;
  in_st_size : option nat;
  in_realloc_ok : bool;
  in_read_ok : bool;
  in_data : list byte }.

(** The variables of [main] that live across the loop, and the calls of
    [LLVMFuzzerTestOneInput] made so far, each with its bytes.  [errors]
    is an [int] in the source; it counts files, of which there are fewer
    than [argc], so it does not overflow. *)
Record fuzz_state := {
  fz_bufsize : nat;
  fz_errors : nat;
  fz_runs : list (list byte) }.

(** [errors++; continue;] *)
Definition fuzz_error (st : fuzz_state) : fuzz_state :=
  {| fz_bufsize := fz_bufsize st; fz_errors := S (fz_errors st);
     fz_runs := fz_runs st |}.

(** One turn of the loop over the input files, on a platform where
    [size_t] is as wide as [off_t] (the check under [#ifndef __LP64__] is
    compiled out). *)
Definition fuzz_one (st : fuzz_state) (f : input_file) : fuzz_state :=
  match (if in_open_ok f then in_st_size f else None) with
  | None => fuzz_error st
  | Some filesize =>
      if (fz_bufsize st <? filesize)%nat && negb (in_realloc_ok f) then
        fuzz_error st
      else
        let bufsize :=
          if (fz_bufsize st <? filesize)%nat then filesize
          else fz_bufsize st in
        let st := {| fz_bufsize := bufsize; fz_errors := fz_errors st;
                     fz_runs := fz_runs st |} in
        (* nread = read(fd, buf, filesize); -1 is no size of a file *)
        if negb (in_read_ok f) then fuzz_error st
        else
          let buf := take filesize (in_data f) in
          if negb (length buf =? filesize)%nat then fuzz_error st
          else
            {| fz_bufsize := fz_bufsize st; fz_errors := fz_errors st;
               fz_runs := (fz_runs st ++ [buf])%list |}
  end.

(** [main]: test provided input files.  [fz_errors] of the result is the
    value that [main] returns.  (What the process reports as its exit
    status is made of that value outside [main], and is not modelled: a
    system that keeps the low eight bits reports 0 for 256 errors.) *)
Definition fuzz_main (files : list input_file) : fuzz_state :=
  foldl fuzz_one {| fz_bufsize := 0; fz_errors := 0; fz_runs := [] |} files.

(** The files the driver hands to the fuzz target: those that can be
    opened and read in full, and for which the buffer need not grow or can
    be grown.  [bufsize] is the size of the buffer before the file. *)
Definition fuzz_accepts (bufsize : nat) (f : input_file) : bool :=
  match (if in_open_ok f then in_st_size f else None) with
  | None => false
  | Some filesize =>
      ((filesize <=? bufsize)%nat || in_realloc_ok f)
      && in_read_ok f && (filesize <=? length (in_data f))%nat
  end.

(** ** Creating an I/O log directory (lib/iolog/iolog_mkdtemp.c) *)

(** The calls [iolog_mkdtemp] makes, in the order it makes them, each
    with what it returned. *)
Inductive mkdtemp_call :=
| call_mkdir_parents (set_owner : bool) (ok : bool)
| call_swapids (restore : bool) (ok : bool)
| call_mkdtemp (ok : bool)
| call_chmod (ok : bool).

(** What the environment answers to them. *)
Record mkdtemp_answers := {
  md_mkdir_ok : bool;          (* sudo_mkdir_parents with the owner *)
  md_eacces : bool;            (* errno == EACCES when it failed *)
  md_swap_ok : bool;           (* iolog_swapids(false) before the retry *)
  md_mkdir_retry_ok : bool;    (* sudo_mkdir_parents as the owner *)
  md_swap_again_ok : bool;     (* iolog_swapids(false) before mkdtemp *)
  md_mkdtemp_ok : bool;
  md_chmod_ok : bool;
  md_restore_ok : bool         (* iolog_swapids(true) *)
}.

(** Create temporary directory and any parent directories as needed. *)
Definition iolog_mkdtemp (env : mkdtemp_answers)
  : bool * list mkdtemp_call :=
  let uid_changed := false in
  let ok := md_mkdir_ok env in
  let trace := [call_mkdir_parents true ok] in
  let '(ok, uid_changed, trace) :=
    if negb ok && md_eacces env then
      (* Try again as the I/O log owner (for NFS). *)
      let uid_changed := md_swap_ok env in
      let trace := (trace ++ [call_swapids false uid_changed])%list in
      if uid_changed then
        let ok := md_mkdir_retry_ok env in
        (ok, uid_changed, (trace ++ [call_mkdir_parents false ok])%list)
      else (ok, uid_changed, trace)
    else (ok, uid_changed, trace) in
  let '(ok, uid_changed, trace) :=
    if ok then
      (* Create final path component. *)
      (* We cannot retry mkdtemp() so always open as iolog user *)
      let '(uid_changed, trace) :=
        if negb uid_changed then
          (md_swap_again_ok env,
           (trace ++ [call_swapids false (md_swap_again_ok env)])%list)
        else (uid_changed, trace) in
      if negb (md_mkdtemp_ok env) then
        (false, uid_changed, (trace ++ [call_mkdtemp false])%list)
      else
        (ok, uid_changed,
         (trace ++ [call_mkdtemp true; call_chmod (md_chmod_ok env)])%list)
    else (ok, uid_changed, trace) in
  if uid_changed then
    if negb (md_restore_ok env) then
      (false, (trace ++ [call_swapids true false])%list)
    else (ok, (trace ++ [call_swapids true true])%list)
  else (ok, trace).

(** Whether the process runs with the ids of the I/O log owner after a
    sequence of calls: a successful [iolog_swapids(false)] takes them, a
    successful [iolog_swapids(true)] gives them back. *)
Definition ids_swapped (trace : list mkdtemp_call) : bool :=
  foldl (fun swapped call =>
           match call with
           | call_swapids false true => true
           | call_swapids true true => false
           | _ => swapped
           end) false trace.

Section Logsrvd.

(** Configuration read through [logsrvd_conf_relay_dir()] and
    [logsrvd_conf_iolog_mode()], the constants of logsrvd.h, limits.h
    and sudo_iolog.h that the two files use, and the protocol buffer
    decoder, a black box. *)
Variable relay_dir : string.
Variable iolog_mode : Z.
Variable RELAY_TEMPLATE : string.
Variable PATH_MAX : Z.
Variable MESSAGE_SIZE_MAX : Z.
Variable IOFD_TIMING : nat.
Variable IO_EVENT_WINSIZE : Z.
Variable IO_EVENT_SUSPEND : Z.
Variable client_message__unpack : list byte -> option PB.ClientMessage.

(** ** The journal sink (logsrvd_journal.c) *)

(** Helper function to set closure->journal and closure->journal_path. *)
Definition journal_fdopen (os : os_answers) (fd : file_desc)
    (path : string) (closure : connection_closure)
  : bool * connection_closure :=
  if negb (strdup_ok os) then (false, set_journal_path None closure)
  else
    let closure := set_journal_path (Some path) closure in
    if negb (fdopen_ok os) then (false, set_journal None closure)
    else
      (true,
       set_journal (Some {| f_fd := fd; f_pos := 0; f_wbuf := [] |})
         closure).

Definition journal_mkstemp (os : os_answers) (parent_dir : string)
    (pathlen : Z) (fs : filesys) : option (file_desc * string * filesys) :=
  let pathbuf := relay_dir ++ "/" ++ parent_dir ++ "/" ++ RELAY_TEMPLATE in
  if (pathlen <=? Z.of_nat (String.length pathbuf))%Z then None
  else if negb (mkdir_parents_ok os) then None
  else sys_mkstemp os pathbuf fs.

(** Create a temporary file in the relay dir and store it in the
    closure. *)
Definition journal_create (os : os_answers) (closure : connection_closure)
    (fs : filesys) : result :=
  match journal_mkstemp os "incoming" PATH_MAX fs with
  | None => (false, set_errstr "unable to create journal file" closure, fs)
  | Some (fd, path, fs) =>
      match sudo_lock_file os fd with
      | None =>
          (false, set_errstr "unable to lock journal file" closure,
           sys_unlink path fs)
      | Some fd =>
          let '(ok, closure) := journal_fdopen os fd path closure in
          if negb ok then
            (false, set_errstr "unable to allocate memory" closure,
             sys_unlink path fs)
          else (true, closure, fs)
      end
  end.

(** Flush any buffered data, rewind journal to the beginning and move
    to the outgoing directory.  The open file stays open.  (A closure
    without a journal makes the C code use a null stream; the ordering
    rules of the dispatcher exclude it, here the call fails.) *)
Definition journal_finish (os : os_answers) (closure : connection_closure)
    (fs : filesys) : result :=
  match journal closure, journal_path closure with
  | Some f, Some old_path =>
      match sys_fflush os f fs with
      | None =>
          (false, set_errstr "unable to write journal file" closure, fs)
      | Some (f, fs) =>
          let closure := set_journal (Some (sys_rewind f)) closure in
          match journal_mkstemp os "outgoing" PATH_MAX fs with
          | None =>
              (false, set_errstr "unable to rename journal file" closure,
               fs)
          | Some (_, outgoing_path, fs) =>
              match sys_rename os old_path outgoing_path fs with
              | None =>
                  (false,
                   set_errstr "unable to rename journal file" closure,
                   sys_unlink outgoing_path fs)
              | Some fs =>
                  if bool_decide (String.length old_path
                                  = String.length outgoing_path)
                  then
                    (true, set_journal_path (Some outgoing_path) closure,
                     fs)
                  else if negb (strdup_ok os) then
                    (false,
                     set_errstr "unable to allocate memory"
                       (set_journal_path None closure), fs)
                  else
                    (true, set_journal_path (Some outgoing_path) closure,
                     fs)
              end
          end
      end
  | _, _ => (false, closure, fs)
  end.

(** The state of the loop of [journal_seek] when it ends: the value of
    [ret], the message stored in [closure->errstr] if one was, the bytes
    of the file not yet read, and [closure->elapsed_time]. *)
Record seek_end := {
  seek_ret : bool;
  seek_errstr : option string;
  seek_rest : list byte;
  seek_elapsed : timespec }.

Definition seek_fail (e : string) (rest : list byte) (elapsed : timespec) :=
  {| seek_ret := false; seek_errstr := Some e; seek_rest := rest;
     seek_elapsed := elapsed |}.

(** The switch on [msg->type_case]: the [delay] of the variants that
    carry one. *)
Definition seek_delay (msg : PB.ClientMessage) : option PB.TimeSpec :=
  match msg with
  | PB.TYPE_HELLO_MSG => None
  | PB.TYPE_ACCEPT_MSG _ => None
  | PB.TYPE_REJECT_MSG _ => None
  | PB.TYPE_EXIT_MSG _ => None
  | PB.TYPE_RESTART_MSG _ => None
  | PB.TYPE_ALERT_MSG _ => None
  | PB.TYPE_TTYIN_BUF b => Some (PB.iobuf_delay b)
  | PB.TYPE_TTYOUT_BUF b => Some (PB.iobuf_delay b)
  | PB.TYPE_STDIN_BUF b => Some (PB.iobuf_delay b)
  | PB.TYPE_STDOUT_BUF b => Some (PB.iobuf_delay b)
  | PB.TYPE_STDERR_BUF b => Some (PB.iobuf_delay b)
  | PB.TYPE_WINSIZE_EVENT e => Some (PB.winsize_delay e)
  | PB.TYPE_SUSPEND_EVENT e => Some (PB.suspend_delay e)
  | PB.TYPE_OTHER => None
  end.

(** [if (delay != NULL) update_elapsed_time(delay, &elapsed_time)]. *)
Definition seek_advance (msg : PB.ClientMessage) (elapsed : timespec)
  : timespec :=
  match seek_delay msg with
  | Some delay => update_elapsed_time delay elapsed
  | None => elapsed
  end.

(** A short [fread]: the end of the file, or an error of the device. *)
Definition seek_short_read (os : os_answers) (elapsed : timespec)
  : seek_end :=
  if fread_eof os then
    seek_fail "unexpected EOF reading journal file" [] elapsed
  else seek_fail "error reading journal file" [] elapsed.

(** The [for (;;)] loop of [journal_seek] on the bytes that remain in
    the journal, with the size of the read buffer.  Every turn reads at
    least the four bytes of a length, so [fuel] larger than the number of
    remaining bytes is never used up. *)
Fixpoint journal_seek_loop (os : os_answers) (fuel : nat)
    (target : timespec) (bufsize : Z) (rest : list byte)
    (elapsed : timespec) : option seek_end :=
  match fuel with
  | O => None
  | S fuel =>
      (* The message is read: unpack it, add its delay, compare. *)
      let unpack_and_compare bufsize buf rest :=
        match client_message__unpack buf with
        | None =>
            Some (seek_fail "invalid journal file, unable to restart"
                    rest elapsed)
        | Some msg =>
            let elapsed := seek_advance msg elapsed in
            if sudo_timespeccmp_ge elapsed target then
              if sudo_timespeccmp_eq elapsed target then
                Some {| seek_ret := true; seek_errstr := None;
                        seek_rest := rest; seek_elapsed := elapsed |}
              else
                (* Mismatch between resume point and stored log. *)
                Some (seek_fail "invalid journal file, unable to restart"
                        rest elapsed)
            else journal_seek_loop os fuel target bufsize rest elapsed
        end in
      (* Read message size (uint32_t in network byte order). *)
      match sys_fread 4 rest with
      | None => Some (seek_short_read os elapsed)
      | Some (len_bytes, rest) =>
          let msg_len := ntohl len_bytes in
          if (MESSAGE_SIZE_MAX <? msg_len)%Z then
            Some (seek_fail "client message too large" rest elapsed)
          (* Read actual message now that we know the size. *)
          else if (msg_len =? 0)%Z then unpack_and_compare bufsize [] rest
          else if (bufsize <? msg_len)%Z && negb (malloc_ok os) then
            Some (seek_fail "unable to allocate memory" rest elapsed)
          else
            let bufsize :=
              if (bufsize <? msg_len)%Z then sudo_pow2_roundup msg_len
              else bufsize in
            match sys_fread (Z.to_nat msg_len) rest with
            | None => Some (seek_short_read os elapsed)
            | Some (buf, rest) => unpack_and_compare bufsize buf rest
            end
      end
  end.

(** Seek ahead in the journal to the specified target time.  Returns
    true if we reached the target time exactly, else false.  The loop
    reads the file behind the position of the stream, which
    [journal_restart] has just opened; the position afterwards is behind
    the last byte read. *)
Definition journal_seek (os : os_answers) (target : timespec)
    (closure : connection_closure) (fs : filesys)
  : bool * connection_closure :=
  match journal closure with
  | Some f =>
      let file := default [] (inodes fs !! fd_ino (f_fd f)) in
      let rest := drop (f_pos f) file in
      match journal_seek_loop os (S (length rest)) target 0 rest
              (elapsed_time closure) with
      | Some e =>
          let f := {| f_fd := f_fd f;
                      f_pos := length file - length (seek_rest e);
                      f_wbuf := f_wbuf f |} in
          let closure :=
            set_journal (Some f)
              (set_elapsed_time (seek_elapsed e) closure) in
          (seek_ret e,
           match seek_errstr e with
           | Some s => set_errstr s closure
           | None => closure
           end)
      | None => (false, closure)
      end
  | None => (false, closure)
  end.

(** [strchr(s, c)]: the offset of the first [c] in [s], if there is
    one; and the string a pointer at offset [n] into [s] denotes. *)
Fixpoint strchr (s : string) (c : ascii) : option nat :=
  match s with
  | EmptyString => None
  | String a s' =>
      if Ascii.eqb a c then Some O else S <$> strchr s' c
  end.

Fixpoint string_at (n : nat) (s : string) : string :=
  match n, s with
  | O, _ => s
  | S n, String _ s' => string_at n s'
  | S _, EmptyString => EmptyString
  end.

(** Strip off leading hostname from log_id. *)
Definition strip_hostname (log_id : string) : string :=
  match strchr log_id "/"%char with
  | Some cp =>
      let cp := if bool_decide (cp <> O) then S cp else cp in
      string_at cp log_id
  | None => log_id
  end.

(** Restart an existing journal.  Seeks to the resume_point in
    RestartMessage before continuing.  Returns true if we reached the
    target time exactly, else false. *)
Definition journal_restart (os : os_answers) (msg : PB.RestartMessage)
    (buf : list byte) (buflen : Z) (closure : connection_closure)
    (fs : filesys) : result :=
  let cp := strip_hostname (PB.log_id msg) in
  let path := relay_dir ++ "/incoming/" ++ cp in
  if (PATH_MAX <=? Z.of_nat (String.length path))%Z then
    (false, set_errstr "unable to create journal file" closure, fs)
  else
    match sys_open os path fs with
    | None =>
        (false, set_errstr "unable to create journal file" closure, fs)
    | Some fd =>
        let '(ok, closure) := journal_fdopen os fd path closure in
        if negb ok then
          (false, set_errstr "unable to allocate memory" closure, fs)
        else
          (* Seek forward to resume point. *)
          let target :=
            {| tv_sec := PB.tv_sec (PB.resume_point msg);
               tv_nsec := PB.tv_nsec (PB.resume_point msg) |} in
          let '(ok, closure) := journal_seek os target closure fs in
          if negb ok then (false, closure, fs)
          else (true, closure, fs)
    end.

(** The length in network byte order, then the payload.  A length that
    fails to be written leaves nothing behind, a payload that fails
    leaves the length.  (Without a journal the C code writes to a null
    stream; the ordering rules of the dispatcher exclude it, here the call
    fails.) *)
Definition journal_write (os : os_answers) (buf : list byte) (len : Z)
    (closure : connection_closure) : bool * connection_closure :=
  match journal closure with
  | Some f =>
      (* 32-bit message length in network byte order. *)
      let msg_len := htonl (uint32_t len) in
      match sys_fwrite (fwrite_len_ok os) msg_len f with
      | None =>
          (false, set_errstr "unable to write journal file" closure)
      | Some f =>
          let closure := set_journal (Some f) closure in
          (* message payload *)
          match sys_fwrite (fwrite_buf_ok os) (take (Z.to_nat len) buf) f
          with
          | None =>
              (false, set_errstr "unable to write journal file" closure)
          | Some f => (true, set_journal (Some f) closure)
          end
      end
  | None => (false, closure)
  end.

(** Store an AcceptMessage from the client in the journal. *)
Definition journal_accept (os : os_answers) (msg : PB.AcceptMessage)
    (buf : list byte) (len : Z) (closure : connection_closure)
    (fs : filesys) : result :=
  let '(ok, closure, fs) := journal_create os closure fs in
  if negb ok then (false, closure, fs)
  else
    let '(ok, closure) := journal_write os buf len closure in
    if negb ok then (false, closure, fs)
    else if PB.expect_iobufs msg then
      (* Send log ID to client for restarting connections. *)
      if negb (fmt_log_id_ok os) then (false, closure, fs)
      else
        let closure :=
          set_write_queue
            (write_queue closure ++ [default "" (journal_path closure)])
            closure in
        if negb (ev_add_ok os) then (false, closure, fs)
        else (true, closure, fs)
    else (true, closure, fs).

(** Store a RejectMessage from the client in the journal. *)
Definition journal_reject (os : os_answers) (msg : PB.RejectMessage)
    (buf : list byte) (len : Z) (closure : connection_closure)
    (fs : filesys) : result :=
  let '(ok, closure, fs) := journal_create os closure fs in
  if negb ok then (false, closure, fs)
  else
    let '(ok, closure) := journal_write os buf len closure in
    if negb ok then (false, closure, fs) else (true, closure, fs).

(** Store an ExitMessage from the client in the journal. *)
Definition journal_exit (os : os_answers) (msg : PB.ExitMessage)
    (buf : list byte) (len : Z) (closure : connection_closure)
    (fs : filesys) : result :=
  let '(ok, closure) := journal_write os buf len closure in
  if negb ok then (false, closure, fs)
  else
    let '(ok, closure, fs) := journal_finish os closure fs in
    if negb ok then (false, closure, fs) else (true, closure, fs).

(** Store an AlertMessage from the client in the journal. *)
Definition journal_alert (os : os_answers) (msg : PB.AlertMessage)
    (buf : list byte) (len : Z) (closure : connection_closure)
    (fs : filesys) : result :=
  let '(ok, closure) := journal_write os buf len closure in
  (ok, closure, fs).

(** Store an IoBuffer from the client in the journal. *)
Definition journal_iobuf (os : os_answers) (iofd : nat)
    (iobuf : PB.IoBuffer) (buf : list byte) (len : Z)
    (closure : connection_closure) (fs : filesys) : result :=
  let '(ok, closure) := journal_write os buf len closure in
  if negb ok then (false, closure, fs)
  else
    (true,
     set_elapsed_time
       (update_elapsed_time (PB.iobuf_delay iobuf) (elapsed_time closure))
       closure, fs).

(** Store a CommandSuspend message from the client in the journal. *)
Definition journal_suspend (os : os_answers) (msg : PB.CommandSuspend)
    (buf : list byte) (len : Z) (closure : connection_closure)
    (fs : filesys) : result :=
  let '(ok, closure) := journal_write os buf len closure in
  (ok, closure, fs).

(** Store a ChangeWindowSize message from the client in the journal. *)
Definition journal_winsize (os : os_answers) (msg : PB.ChangeWindowSize)
    (buf : list byte) (len : Z) (closure : connection_closure)
    (fs : filesys) : result :=
  let '(ok, closure) := journal_write os buf len closure in
  (ok, closure, fs).

(** ** The local sink (logsrvd_local.c) *)

(** [strtod] of the C library: the value, what is left of the string,
    and whether [errno] was set. *)
Variable strtod : string -> Q * string * bool.

(** [static double random_drop], zero until [set_random_drop] runs.
    The doubles are the rationals they denote, so that [<] and [>] are
    those of the rationals. *)
Definition random_drop_default : Q := 0%Q.

Definition set_random_drop (dropstr : string) : bool * Q :=
  let '(random_drop, ep, errno_set) := strtod dropstr in
  if negb (String.eqb ep "") || errno_set then (false, random_drop)
  else (true, (random_drop / 100)%Q) (* convert from percentage *).

Definition Qlt_bool (a b : Q) : bool :=
  match (a ?= b)%Q with Lt => true | _ => false end.

(** Modelled from the spec: [iolog_init] of iolog_writer.c, which is not
    among the sources.  "create the I/O log directory tree (assigning a
    fresh log-id), open the directory, and initialize the timing-file
    write bit": the new directory is the one the environment names, the
    closure gets its path and a descriptor on it, and its [timing] file
    starts with the configured mode and the user-write bit. *)
Definition iolog_init (os : os_answers) (closure : connection_closure)
    (fs : filesys) : option (connection_closure * filesys) :=
  match iolog_init_path os with
  | Some dir =>
      Some (set_iolog_dir_fd (Some dir)
              (set_evlog (Some {| iolog_path := Some dir |}) closure),
            set_timing_mode
              (<[dir := Z.lor iolog_mode S_IWUSR]> (timing_mode fs)) fs)
  | None => None
  end.

(** Modelled from the spec: [iolog_create(iofd, closure)] of
    iolog_writer.c, which is not among the sources.  "If the stream file
    for kind is not yet open, open it": the slot is open afterwards. *)
Definition iolog_create (os : os_answers) (iofd : nat)
    (closure : connection_closure) : option connection_closure :=
  if iolog_create_ok os then
    match iolog_files closure !! iofd with
    | Some f =>
        Some (set_iolog_files
                (<[iofd := {| enabled := true; compressed := compressed f;
                              contents := contents f |}]>
                   (iolog_files closure)) closure)
    | None => None
    end
  else None.

(** Modelled from the spec: [iolog_write(&closure->iolog_files[iofd], buf,
    len, &errstr)] of the iolog library, which is not among the sources.
    "append it to the timing file, and append msg.data to the stream
    file": the bytes are appended to what the slot holds. *)
Definition iolog_write (ok : bool) (iofd : nat) (buf : list byte)
    (closure : connection_closure) : option connection_closure :=
  if ok then
    match iolog_files closure !! iofd with
    | Some f =>
        Some (set_iolog_files
                (<[iofd := {| enabled := enabled f;
                              compressed := compressed f;
                              contents := contents f ++ buf |}]>
                   (iolog_files closure)) closure)
    | None => None
    end
  else None.

(** The label [bad:] of the handlers: a default message unless one is
    set. *)
Definition bad (e : string) (closure : connection_closure)
  : connection_closure :=
  match errstr closure with
  | None => set_errstr e closure
  | Some _ => closure
  end.

(** Parse and store an AcceptMessage locally. *)
Definition store_accept_local (os : os_answers) (msg : PB.AcceptMessage)
    (buf : list byte) (len : Z) (closure : connection_closure)
    (fs : filesys) : result :=
  (* Store sudo-style event and I/O logs. *)
  if negb (evlog_new_ok os) then
    (false, set_errstr "error parsing AcceptMessage"
              (set_evlog None closure), fs)
  else
    let closure := set_evlog (Some {| iolog_path := None |}) closure in
    (* Create I/O log info file and parent directories. *)
    match (if PB.expect_iobufs msg then
             match iolog_init os closure fs with
             | Some (closure, fs) =>
                 Some (set_log_io true closure, fs,
                       evlog closure ≫= iolog_path)
             | None => None
             end
           else Some (closure, fs, None)) with
    | None => (false, set_errstr "error creating I/O log" closure, fs)
    | Some (closure, fs, log_id) =>
        if negb (eventlog_ok os) then
          (false, set_errstr "error logging accept event" closure, fs)
        else
          match log_id with
          | Some log_id =>
              (* Send log ID to client for restarting connections. *)
              if negb (fmt_log_id_ok os) then (false, closure, fs)
              else
                let closure :=
                  set_write_queue (write_queue closure ++ [log_id])
                    closure in
                if negb (ev_add_ok os) then (false, closure, fs)
                else (true, closure, fs)
          | None => (true, closure, fs)
          end
    end.

(** Parse and store a RejectMessage locally. *)
Definition store_reject_local (os : os_answers) (msg : PB.RejectMessage)
    (buf : list byte) (len : Z) (closure : connection_closure)
    (fs : filesys) : result :=
  if negb (evlog_new_ok os) then
    (false, set_errstr "error parsing RejectMessage"
              (set_evlog None closure), fs)
  else
    let closure := set_evlog (Some {| iolog_path := None |}) closure in
    if negb (eventlog_ok os) then
      (false, set_errstr "error logging reject event" closure, fs)
    else (true, closure, fs).

Definition store_exit_local (os : os_answers) (msg : PB.ExitMessage)
    (buf : list byte) (len : Z) (closure : connection_closure)
    (fs : filesys) : result :=
  if log_io closure then
    (* Clear write bits from I/O timing file to indicate completion. *)
    let mode := iolog_mode in
    let mode := CLR mode (Z.lor (Z.lor S_IWUSR S_IWGRP) S_IWOTH) in
    match iolog_dir_fd closure with
    | Some dir =>
        if fchmodat_ok os && bool_decide (is_Some (timing_mode fs !! dir))
        then
          (true, closure,
           set_timing_mode (<[dir := mode]> (timing_mode fs)) fs)
        else (* unable to fchmodat timing file *) (true, closure, fs)
    | None => (true, closure, fs)
    end
  else (true, closure, fs).

Definition store_restart_local (os : os_answers) (msg : PB.RestartMessage)
    (buf : list byte) (len : Z) (closure : connection_closure)
    (fs : filesys) : result :=
  let target :=
    {| tv_sec := PB.tv_sec (PB.resume_point msg);
       tv_nsec := PB.tv_nsec (PB.resume_point msg) |} in
  (* We must allocate closure->evlog for iolog_path. *)
  if negb (calloc_ok os) then
    (false,
     bad "unable to restart log"
       (set_errstr "unable to allocate memory" (set_evlog None closure)),
     fs)
  else if negb (strdup_ok os) then
    (false,
     bad "unable to restart log"
       (set_errstr "unable to allocate memory"
          (set_evlog (Some {| iolog_path := None |}) closure)), fs)
  else
    let closure :=
      set_evlog (Some {| iolog_path := Some (PB.log_id msg) |}) closure in
    (* We use iolog_dir_fd in calls to openat(2) *)
    if negb (iolog_openat_ok os) then
      (false, bad "unable to restart log" (set_iolog_dir_fd None closure),
       fs)
    else
      let closure := set_iolog_dir_fd (Some (PB.log_id msg)) closure in
      (* If the timing file write bit is clear, log is already
         complete. *)
      match (if fstatat_ok os then timing_mode fs !! PB.log_id msg
             else None) with
      | None => (false, bad "unable to restart log" closure, fs)
      | Some st_mode =>
          if negb (ISSET st_mode S_IWUSR) then
            (false,
             bad "unable to restart log"
               (set_errstr "log is already complete, cannot be restarted"
                  closure), fs)
          (* Open existing I/O log files. *)
          else if negb (iolog_open_all_ok os) then
            (false, bad "unable to restart log" closure, fs)
          (* Compressed logs don't support random access, so rewrite
             them.  (Of iolog_rewrite, which is not among the sources,
             only the result is modelled: what it leaves in the closure
             and in the log files is not.) *)
          else if any_compressed os then
            (iolog_rewrite_ok os, closure, fs)
          else
            (* Parse timing file until we reach the target point. *)
            match iolog_seekto_res os with
            | None => (false, bad "unable to restart log" closure, fs)
            | Some elapsed =>
                let closure := set_elapsed_time elapsed closure in
                (* Must seek or flush before switching from read ->
                   write. *)
                if negb (iolog_seek_ok os) then
                  (false, bad "unable to restart log" closure, fs)
                else (* Ready to log I/O buffers. *) (true, closure, fs)
            end
      end.

Definition store_alert_local (os : os_answers) (msg : PB.AlertMessage)
    (buf : list byte) (len : Z) (closure : connection_closure)
    (fs : filesys) : result :=
  match (if negb (bool_decide (PB.alert_info_msgs msg = [])) then
           if evlog_new_ok os then
             Some (set_evlog (Some {| iolog_path := None |}) closure)
           else None
         else Some closure) with
  | None =>
      (false, set_errstr "error parsing AlertMessage"
                (set_evlog None closure), fs)
  | Some closure =>
      if negb (eventlog_ok os) then
        (false, set_errstr "error logging alert event" closure, fs)
      else (true, closure, fs)
  end.

(** The timing line of an I/O buffer: ["%d %lld.%09d %zu\n"]. *)
Definition iobuf_timing_line (iofd : nat) (iobuf : PB.IoBuffer) : string :=
  fmt_d (Z.of_nat iofd) ++ " " ++ fmt_d (PB.tv_sec (PB.iobuf_delay iobuf))
  ++ "." ++ fmt_0d 9 (PB.tv_nsec (PB.iobuf_delay iobuf)) ++ " "
  ++ fmt_u (Z.of_nat (length (PB.data iobuf))) ++ String "010" "".

(** [random_drop] is the static variable of the file. *)
Definition store_iobuf_local (random_drop : Q) (os : os_answers)
    (iofd : nat) (iobuf : PB.IoBuffer) (buf : list byte) (buflen : Z)
    (closure : connection_closure) (fs : filesys) : result :=
  (* Open log file as needed. *)
  match (match iolog_files closure !! iofd with
         | Some f =>
             if negb (enabled f) then iolog_create os iofd closure
             else Some closure
         | None => None
         end) with
  | None => (false, bad "error writing IoBuffer" closure, fs)
  | Some closure =>
      (* Format timing data. *)
      let tbuf := iobuf_timing_line iofd iobuf in
      let len := Z.of_nat (String.length tbuf) in
      if (len <? 0)%Z || (1024 <=? len)%Z then
        (false, bad "error writing IoBuffer" closure, fs)
      else
        (* Write to specified I/O log file. *)
        match iolog_write (iolog_write_data_ok os) iofd (PB.data iobuf)
                closure with
        | None => (false, bad "error writing IoBuffer" closure, fs)
        | Some closure =>
            (* Write timing data. *)
            match iolog_write (iolog_write_timing_ok os) IOFD_TIMING
                    (bytes_of_string tbuf) closure with
            | None => (false, bad "error writing IoBuffer" closure, fs)
            | Some closure =>
                let closure :=
                  set_elapsed_time
                    (update_elapsed_time (PB.iobuf_delay iobuf)
                       (elapsed_time closure)) closure in
                (* Random drop is a debugging tool to test client
                   restart. *)
                if Qlt_bool 0%Q random_drop
                   && Qlt_bool (randval os) random_drop
                then (false, closure, fs)
                else (true, closure, fs)
            end
        end
  end.

(** The timing line of a window size change: ["%d %lld.%09d %d %d\n"]. *)
Definition winsize_timing_line (msg : PB.ChangeWindowSize) : string :=
  fmt_d IO_EVENT_WINSIZE ++ " " ++ fmt_d (PB.tv_sec (PB.winsize_delay msg))
  ++ "." ++ fmt_0d 9 (PB.tv_nsec (PB.winsize_delay msg)) ++ " "
  ++ fmt_d (PB.rows msg) ++ " " ++ fmt_d (PB.cols msg) ++ String "010" "".

Definition store_winsize_local (os : os_answers)
    (msg : PB.ChangeWindowSize) (buf : list byte) (buflen : Z)
    (closure : connection_closure) (fs : filesys) : result :=
  (* Format timing data including new window size. *)
  let tbuf := winsize_timing_line msg in
  let len := Z.of_nat (String.length tbuf) in
  if (len <? 0)%Z || (1024 <=? len)%Z then
    (false, bad "error writing ChangeWindowSize" closure, fs)
  else
    (* Write timing data. *)
    match iolog_write (iolog_write_timing_ok os) IOFD_TIMING
            (bytes_of_string tbuf) closure with
    | None => (false, bad "error writing ChangeWindowSize" closure, fs)
    | Some closure =>
        (true,
         set_elapsed_time
           (update_elapsed_time (PB.winsize_delay msg)
              (elapsed_time closure)) closure, fs)
    end.

(** The timing line of a suspend event: ["%d %lld.%09d %s\n"]. *)
Definition suspend_timing_line (msg : PB.CommandSuspend) : string :=
  fmt_d IO_EVENT_SUSPEND ++ " " ++ fmt_d (PB.tv_sec (PB.suspend_delay msg))
  ++ "." ++ fmt_0d 9 (PB.tv_nsec (PB.suspend_delay msg)) ++ " "
  ++ PB.suspend_signal msg ++ String "010" "".

Definition store_suspend_local (os : os_answers) (msg : PB.CommandSuspend)
    (buf : list byte) (buflen : Z) (closure : connection_closure)
    (fs : filesys) : result :=
  (* Format timing data including suspend signal. *)
  let tbuf := suspend_timing_line msg in
  let len := Z.of_nat (String.length tbuf) in
  if (len <? 0)%Z || (1024 <=? len)%Z then
    (false, bad "error writing CommandSuspend" closure, fs)
  else
    (* Write timing data. *)
    match iolog_write (iolog_write_timing_ok os) IOFD_TIMING
            (bytes_of_string tbuf) closure with
    | None => (false, bad "error writing CommandSuspend" closure, fs)
    | Some closure =>
        (true,
         set_elapsed_time
           (update_elapsed_time (PB.suspend_delay msg)
              (elapsed_time closure)) closure, fs)
    end.

(** ** The callback that renders the info messages (logsrvd_local.c) *)

(** What [sudo_json_add_value], [sudo_json_open_array] and
    [sudo_json_close_array] put into the JSON container. *)
Inductive json_item :=
| JSON_NUMBER (key : string) (number : Z)
| JSON_STRING (key : option string) (s : string)
| JSON_ARRAY_OPEN (key : string)
| JSON_ARRAY_CLOSE.

(** The container: what it holds, and how many more calls succeed before
    one fails ([None]: all of them). *)
Record json_container := {
  json_items : list json_item;
  json_room : option nat }.

Definition json_put (item : json_item) (json : json_container)
  : option json_container :=
  match json_room json with
  | Some O => None
  | Some (S n) =>
      Some {| json_items := (json_items json ++ [item])%list;
              json_room := Some n |}
  | None =>
      Some {| json_items := (json_items json ++ [item])%list;
              json_room := None |}
  end.

(** An info message as the callback sees it: its key and its value,
    [None] for a [value_case] other than the three of the switch. *)
Record info_entry := {
  info_key : string;
  info_value : option PB.InfoValue }.

(** The inner loop over the strings of a list. *)
Fixpoint json_add_strings (strings : list string) (json : json_container)
  : bool * json_container :=
  match strings with
  | [] => (true, json)
  | s :: strings =>
      match json_put (JSON_STRING None s) json with
      | Some json => json_add_strings strings json
      | None => (false, json)
      end
  end.

(** [logsrvd_json_log_cb]: the result and the container as the callback
    leaves it (what was put before a failure stays). *)
Fixpoint logsrvd_json_log_cb (info_msgs : list info_entry)
    (json : json_container) : bool * json_container :=
  match info_msgs with
  | [] => (true, json)
  | info :: info_msgs =>
      match info_value info with
      | Some (PB.Numval n) =>
          match json_put (JSON_NUMBER (info_key info) n) json with
          | Some json => logsrvd_json_log_cb info_msgs json
          | None => (false, json)
          end
      | Some (PB.Strval s) =>
          match json_put (JSON_STRING (Some (info_key info)) s) json with
          | Some json => logsrvd_json_log_cb info_msgs json
          | None => (false, json)
          end
      | Some (PB.Strlistval strings) =>
          match json_put (JSON_ARRAY_OPEN (info_key info)) json with
          | Some json =>
              let '(ok, json) := json_add_strings strings json in
              if negb ok then (false, json)
              else
                match json_put JSON_ARRAY_CLOSE json with
                | Some json => logsrvd_json_log_cb info_msgs json
                | None => (false, json)
                end
          | None => (false, json)
          end
      | None => (false, json)
      end
  end.

(** What the callback puts for one info message, and for all. *)
Definition json_render (info : info_entry) : list json_item :=
  match info_value info with
  | Some (PB.Numval n) => [JSON_NUMBER (info_key info) n]
  | Some (PB.Strval s) => [JSON_STRING (Some (info_key info)) s]
  | Some (PB.Strlistval strings) =>
      JSON_ARRAY_OPEN (info_key info)
      :: ((JSON_STRING None <$> strings) ++ [JSON_ARRAY_CLOSE])%list
  | None => []
  end.

Definition json_render_all (info_msgs : list info_entry) : list json_item :=
  concat (json_render <$> info_msgs).

(** The container has room for [k] more items. *)
Definition json_has_room (k : nat) (json : json_container) : Prop :=
  match json_room json with
  | Some n => (k <= n)%nat
  | None => True
  end.

(** The calls that took [json] to [json'] have put the items [emitted],
    and nothing else has changed. *)
Definition json_emitted (json json' : json_container)
    (emitted : list json_item) : Prop :=
  json_items json' = (json_items json ++ emitted)%list
  /\ json_room json' = (fun n => n - length emitted)%nat <$> json_room json
  /\ json_has_room (length emitted) json.

(** ** The two sinks as switches, and the dispatcher *)

(** [struct client_message_switch]: one handler per message variant. *)
Record client_message_switch := {
  accept : os_answers -> PB.AcceptMessage -> list byte -> Z ->
           connection_closure -> filesys -> result;
  reject : os_answers -> PB.RejectMessage -> list byte -> Z ->
           connection_closure -> filesys -> result;
  exit : os_answers -> PB.ExitMessage -> list byte -> Z ->
         connection_closure -> filesys -> result;
  restart : os_answers -> PB.RestartMessage -> list byte -> Z ->
            connection_closure -> filesys -> result;
  alert : os_answers -> PB.AlertMessage -> list byte -> Z ->
          connection_closure -> filesys -> result;
  iobuf : os_answers -> nat -> PB.IoBuffer -> list byte -> Z ->
          connection_closure -> filesys -> result;
  suspend : os_answers -> PB.CommandSuspend -> list byte -> Z ->
            connection_closure -> filesys -> result;
  winsize : os_answers -> PB.ChangeWindowSize -> list byte -> Z ->
            connection_closure -> filesys -> result }.

Definition cms_journal : client_message_switch :=
  {| accept := journal_accept;
     reject := journal_reject;
     exit := journal_exit;
     restart := journal_restart;
     alert := journal_alert;
     iobuf := journal_iobuf;
     suspend := journal_suspend;
     winsize := journal_winsize |}.

Definition cms_local (random_drop : Q) : client_message_switch :=
  {| accept := store_accept_local;
     reject := store_reject_local;
     exit := store_exit_local;
     restart := store_restart_local;
     alert := store_alert_local;
     iobuf := store_iobuf_local random_drop;
     suspend := store_suspend_local;
     winsize := store_winsize_local |}.

(** The decoded message the dispatcher receives, one of eight
    variants. *)
Inductive message :=
| Accept (m : PB.AcceptMessage)
| Reject (m : PB.RejectMessage)
| Exit (m : PB.ExitMessage)
| Restart (m : PB.RestartMessage)
| Alert (m : PB.AlertMessage)
| IoBuffer (kind : nat) (b : PB.IoBuffer)
| Suspend (e : PB.CommandSuspend)
| WindowSize (e : PB.ChangeWindowSize).

(** Modelled from the spec: the session dispatcher of logsrvd.c, which
    is not among the sources.  "handle(message, raw_bytes, length, ctx)
    ... calls the matching method on the active sink's vtable-like
    structure."  The elapsed time it is said to maintain is advanced by
    the calls of [update_elapsed_time] inside the handlers, as the two
    source files have them. *)
Definition handle (cms : client_message_switch) (os : os_answers)
    (msg : message) (raw_bytes : list byte) (len : Z)
    (ctx : connection_closure) (fs : filesys) : result :=
  match msg with
  | Accept m => accept cms os m raw_bytes len ctx fs
  | Reject m => reject cms os m raw_bytes len ctx fs
  | Exit m => exit cms os m raw_bytes len ctx fs
  | Restart m => restart cms os m raw_bytes len ctx fs
  | Alert m => alert cms os m raw_bytes len ctx fs
  | IoBuffer kind b => iobuf cms os kind b raw_bytes len ctx fs
  | Suspend e => suspend cms os e raw_bytes len ctx fs
  | WindowSize e => winsize cms os e raw_bytes len ctx fs
  end.

(** One step of a session: the decoded message, its bytes as they came
    over the wire, and what the environment answers while it is
    handled. *)
Record event := { ev_os : os_answers; ev_msg : message; ev_raw : list byte }.

(** A session: the messages are handled in order, and the first failure
    ends it ("the host closes the connection on any failure"). *)
Fixpoint run_session (cms : client_message_switch) (evs : list event)
    (ctx : connection_closure) (fs : filesys) : result :=
  match evs with
  | [] => (true, ctx, fs)
  | ev :: evs =>
      let '(ok, ctx, fs) :=
        handle cms (ev_os ev) (ev_msg ev) (ev_raw ev)
          (Z.of_nat (length (ev_raw ev))) ctx fs in
      if ok then run_session cms evs ctx fs else (false, ctx, fs)
  end.

(** The delay a message carries, if it is an I/O chunk, a window resize
    or a suspend event, and the sum of the delays of a session. *)
Definition message_delay (msg : message) : option PB.TimeSpec :=
  match msg with
  | IoBuffer _ b => Some (PB.iobuf_delay b)
  | Suspend e => Some (PB.suspend_delay e)
  | WindowSize e => Some (PB.winsize_delay e)
  | _ => None
  end.

Definition add_delay (elapsed : timespec) (msg : message) : timespec :=
  match message_delay msg with
  | Some delay => update_elapsed_time delay elapsed
  | None => elapsed
  end.

Definition sum_of_delays (msgs : list message) : timespec :=
  foldl add_delay timespec_zero msgs.

(** ** Reading a journal back

    The file schema of the journal: a concatenation of frames, each a
    32-bit big-endian length followed by that many bytes.  [read_frames]
    splits a file into the payloads of its frames; a file that ends
    inside a frame is not a journal. *)
Fixpoint read_frames (fuel : nat) (file : list byte)
  : option (list (list byte)) :=
  match fuel with
  | O => None
  | S fuel =>
      match file with
      | [] => Some []
      | _ =>
          match sys_fread 4 file with
          | None => None
          | Some (len_bytes, rest) =>
              match sys_fread (Z.to_nat (ntohl len_bytes)) rest with
              | None => None
              | Some (payload, rest) =>
                  cons payload <$> read_frames fuel rest
              end
          end
      end
  end.

Definition journal_frames (file : list byte) : option (list (list byte)) :=
  read_frames (S (length file)) file.

(** ** Notions the properties are stated with *)

(** One frame of the journal file schema, "[uint32 length,
    big-endian][length bytes of wire message]", and the file that holds
    the payloads [ps] in order. *)
Definition frame (p : list byte) : list byte :=
  htonl (Z.of_nat (length p)) ++ p.

Definition encode_frames (ps : list (list byte)) : list byte :=
  concat (frame <$> ps).

(** A payload that fits the 32-bit length of a frame. *)
Definition fits_uint32 (p : list byte) : Prop :=
  (Z.of_nat (length p) < 2 ^ 32)%Z.

(** The order of points in time: seconds first, then nanoseconds. *)
Definition timespec_lt (a b : timespec) : Prop :=
  (tv_sec a < tv_sec b \/ (tv_sec a = tv_sec b /\ tv_nsec a < tv_nsec b))%Z.

(** The accumulated elapsed time after each message of a journal, from
    the elapsed time [elapsed] before the first. *)
Fixpoint elapsed_times (elapsed : timespec) (ms : list PB.ClientMessage)
  : list timespec :=
  match ms with
  | [] => []
  | m :: ms =>
      let elapsed := seek_advance m elapsed in
      elapsed :: elapsed_times elapsed ms
  end.

(** The size of the read buffer of [journal_seek] after a payload has
    been read into it. *)
Definition bufsize_after (bufsize : Z) (p : list byte) : Z :=
  let msg_len := Z.of_nat (length p) in
  if (msg_len =? 0)%Z then bufsize
  else if (bufsize <? msg_len)%Z then sudo_pow2_roundup msg_len
  else bufsize.

(** The payloads [ps] are the encodings of the messages [ms], none
    larger than the server accepts. *)
Definition decodes_to (ps : list (list byte)) (ms : list PB.ClientMessage)
  : Prop :=
  Forall2 (fun p m =>
             client_message__unpack p = Some m
             /\ (Z.of_nat (length p) <= MESSAGE_SIZE_MAX)%Z
             /\ fits_uint32 p) ps ms.

(** What may follow the last whole frame of a journal: nothing, a part of
    a length, or a length within the bound and a part of its payload. *)
Definition truncated (tail : list byte) : Prop :=
  (length tail < 4)%nat
  \/ exists len_bytes partial,
       tail = (len_bytes ++ partial)%list /\ length len_bytes = 4%nat
       /\ (ntohl len_bytes <= MESSAGE_SIZE_MAX)%Z
       /\ (length partial < Z.to_nat (ntohl len_bytes))%nat.

(** The [k] decimal digits of [n], most significant first. *)
Fixpoint fixed_digits (k : nat) (n : Z) : string :=
  match k with
  | O => ""
  | S k => fixed_digits k (n / 10) ++ String (digit_char (n mod 10)) ""
  end.

(** The number a string of decimal digits denotes. *)
Fixpoint dec_value_from (acc : Z) (s : string) : Z :=
  match s with
  | EmptyString => acc
  | String c s =>
      dec_value_from (acc * 10 + (Z.of_nat (nat_of_ascii c) - 48)) s
  end.

Definition dec_value (s : string) : Z := dec_value_from 0 s.

Definition no_slash (s : string) : Prop :=
  ~ In "/"%char (list_ascii_of_string s).

(** The messages between the first and the last of a session that an
    accept or a reject message opens: they neither open nor close a
    log. *)
Definition streams (msg : message) : bool :=
  match msg with
  | Alert _ | IoBuffer _ _ | Suspend _ | WindowSize _ => true
  | _ => false
  end.

Definition opens (msg : message) : bool :=
  match msg with
  | Accept _ | Reject _ => true
  | _ => false
  end.

Definition is_exit (msg : message) : bool :=
  match msg with
  | Exit _ => true
  | _ => false
  end.

(** The journal of the closure is a stream on a file that is still
    empty on disk, named by the stored path, and the stream has buffered
    the frames of [ps] and nothing else. *)
Definition journal_holds (c : connection_closure) (fs : filesys)
    (ps : list (list byte)) : Prop :=
  exists f p,
    journal c = Some f /\ journal_path c = Some p
    /\ f_wbuf f = encode_frames ps /\ f_pos f = length (f_wbuf f)
    /\ inodes fs !! fd_ino (f_fd f) = Some []
    /\ names fs !! p = Some (fd_ino (f_fd f)).

(** The journal of the closure is a stream on the inode [ino], which
    holds [old] on disk and is named by the stored path; the stream has
    buffered the frames of [ps] and nothing else, to be written over
    [old] from offset [pos] on. *)
Definition journal_over (c : connection_closure) (fs : filesys)
    (ino pos : nat) (old : list byte) (ps : list (list byte)) : Prop :=
  exists f p,
    journal c = Some f /\ journal_path c = Some p
    /\ fd_ino (f_fd f) = ino
    /\ f_wbuf f = encode_frames ps
    /\ f_pos f = (pos + length (f_wbuf f))%nat
    /\ inodes fs !! ino = Some old
    /\ names fs !! p = Some ino.

(** What the journal sink adds to the elapsed time for a message: the
    delay of an I/O buffer and nothing else. *)
Definition add_iobuf_delay (elapsed : timespec) (msg : message) : timespec :=
  match msg with
  | IoBuffer _ b => update_elapsed_time (PB.iobuf_delay b) elapsed
  | _ => elapsed
  end.

Definition is_restart (msg : message) : bool :=
  match msg with
  | Restart _ => true
  | _ => false
  end.

(** ** Sample data *)

(** An environment in which every call succeeds, but for what the
    arguments say: the name [mkstemp] creates (it fails without one),
    the directory [iolog_init] creates (likewise), whether [rename]
    succeeds, and the sampled random value. *)
Definition os_sample (mkstemp_path iolog_dir : option string)
    (rename_succeeds : bool) (sample : Q) : os_answers :=
  {| mkdir_parents_ok := true; mkstemp_name := mkstemp_path;
     lock_ok := true; strdup_ok := true; calloc_ok := true;
     fdopen_ok := true; open_ok := true; fwrite_len_ok := true;
     fwrite_buf_ok := true; fflush_ok := true; fread_eof := true;
     malloc_ok := true; rename_ok := rename_succeeds;
     fmt_log_id_ok := true;
     ev_add_ok := true; evlog_new_ok := true;
     iolog_init_path := iolog_dir; eventlog_ok := true;
     fchmodat_ok := true; iolog_openat_ok := true; fstatat_ok := true;
     iolog_open_all_ok := true; any_compressed := false;
     iolog_rewrite_ok := true; iolog_seekto_res := None;
     iolog_seek_ok := true; iolog_create_ok := true;
     iolog_write_data_ok := true; iolog_write_timing_ok := true;
     randval := sample |}.

Definition os_ok : os_answers := os_sample None None true 0%Q.

Definition fs_empty : filesys :=
  {| names := ∅; inodes := ∅; timing_mode := ∅ |}.

Definition accept_msg (iobufs : bool) : PB.AcceptMessage :=
  {| PB.accept_submit_time := {| PB.tv_sec := 1000; PB.tv_nsec := 0 |};
     PB.accept_info_msgs :=
       [ {| PB.key := "command"; PB.value := PB.Strlistval ["ls"; "-l"] |} ];
     PB.expect_iobufs := iobufs |}.

Definition exit_msg : PB.ExitMessage :=
  {| PB.exit_signal := None; PB.dumped_core := false; PB.exit_value := 0 |}.

Definition iobuf_msg (sec nsec : Z) (s : string) : PB.IoBuffer :=
  {| PB.iobuf_delay := {| PB.tv_sec := sec; PB.tv_nsec := nsec |};
     PB.data := bytes_of_string s |}.

Definition winsize_msg (sec nsec : Z) : PB.ChangeWindowSize :=
  {| PB.winsize_delay := {| PB.tv_sec := sec; PB.tv_nsec := nsec |};
     PB.rows := 24; PB.cols := 80 |}.

(** A toy decoder for the examples: the first byte of a payload names
    the variant, 'A' an accept message and 'W' a window resize after one
    second. *)
Definition toy_unpack (buf : list byte) : option PB.ClientMessage :=
  match buf with
  | "A"%byte :: _ => Some (PB.TYPE_ACCEPT_MSG (accept_msg true))
  | "W"%byte :: _ => Some (PB.TYPE_WINSIZE_EVENT (winsize_msg 1 0))
  | _ => None
  end.

Definition incoming_path : string := "/relay/incoming/log.aaaaaa".
Definition outgoing_path : string := "/relay/outgoing/log.bbbbbb".

Definition ev_accept : event :=
  {| ev_os := os_sample (Some incoming_path) (Some "00/00/01") true 0%Q;
     ev_msg := Accept (accept_msg true);
     ev_raw := bytes_of_string "A" |}.

Definition ev_iobuf : event :=
  {| ev_os := os_ok;
     ev_msg := IoBuffer 4 (iobuf_msg 0 100000000 "abc");
     ev_raw := bytes_of_string "Oabc" |}.

Definition ev_winsize : event :=
  {| ev_os := os_ok;
     ev_msg := WindowSize (winsize_msg 1 0);
     ev_raw := bytes_of_string "W" |}.

Definition ev_exit : event :=
  {| ev_os := os_sample (Some outgoing_path) None true 0%Q;
     ev_msg := Exit exit_msg;
     ev_raw := bytes_of_string "E" |}.

Definition restart_msg : PB.RestartMessage :=
  {| PB.log_id := "host/log.aaaaaa";
     PB.resume_point := {| PB.tv_sec := 0; PB.tv_nsec := 0 |} |}.

Definition ev_restart : event :=
  {| ev_os := os_ok;
     ev_msg := Restart restart_msg;
     ev_raw := bytes_of_string "R" |}.

(** A session with a window resize, and one that resumes a journal. *)
Definition winsize_session : list event := [ev_accept; ev_winsize; ev_exit].
Definition restart_session : list event := [ev_restart; ev_exit].

(** A file system with one journal in the incoming directory, inode 7,
    that holds the bytes [file]. *)
Definition fs_journal (file : list byte) : filesys :=
  {| names := {[ incoming_path := 7%nat ]};
     inodes := {[ 7%nat := file ]};
     timing_mode := ∅ |}.

(** A closure whose journal has just been opened on that file. *)
Definition closure_journal : connection_closure :=
  set_journal
    (Some {| f_fd := {| fd_ino := 7; fd_locked := false |}; f_pos := 0;
             f_wbuf := [] |})
    (set_journal_path (Some incoming_path) closure_init).

(** A closure of the local sink with an I/O log in "00/00/01", and a
    file system with the timing file of that log, mode 0600. *)
Definition closure_iolog : connection_closure :=
  set_log_io true (set_iolog_dir_fd (Some "00/00/01") closure_init).

Definition fs_iolog : filesys :=
  {| names := ∅; inodes := ∅; timing_mode := {[ "00/00/01" := 384%Z ]} |}.

(** An environment in which every call succeeds, but for what the
    arguments say: the name [mkstemp] creates, and whether the lock can
    be taken, [strdup] succeeds and the timing file can be written. *)
Definition os_failing (mkstemp_path : option string)
    (lock strdup timing : bool) : os_answers :=
  {| mkdir_parents_ok := true; mkstemp_name := mkstemp_path;
     lock_ok := lock; strdup_ok := strdup; calloc_ok := true;
     fdopen_ok := true; open_ok := true; fwrite_len_ok := true;
     fwrite_buf_ok := true; fflush_ok := true; fread_eof := true;
     malloc_ok := true; rename_ok := true; fmt_log_id_ok := true;
     ev_add_ok := true; evlog_new_ok := true;
     iolog_init_path := None; eventlog_ok := true;
     fchmodat_ok := true; iolog_openat_ok := true; fstatat_ok := true;
     iolog_open_all_ok := true; any_compressed := false;
     iolog_rewrite_ok := true;
     iolog_seekto_res := Some {| tv_sec := 1; tv_nsec := 0 |};
     iolog_seek_ok := true; iolog_create_ok := true;
     iolog_write_data_ok := true; iolog_write_timing_ok := timing;
     randval := 0%Q |}.

(** A journal under a name that is shorter than the names [mkstemp]
    makes, as a restart with the log id "host/x" opens it. *)
Definition short_path : string := "/relay/incoming/x".

Definition fs_short : filesys :=
  {| names := {[ short_path := 7%nat ]};
     inodes := {[ 7%nat := [] ]};
     timing_mode := ∅ |}.

Definition closure_short : connection_closure :=
  set_journal
    (Some {| f_fd := {| fd_ino := 7; fd_locked := false |}; f_pos := 0;
             f_wbuf := [] |})
    (set_journal_path (Some short_path) closure_init).

(** A toy [strtod] for the examples: it reads the string "150" and
    nothing of any other string. *)
Definition toy_strtod (s : string) : Q * string * bool :=
  if String.eqb s "150" then (150%Q, "", false) else (0%Q, s, false).

Definition suspend_msg (signal : string) : PB.CommandSuspend :=
  {| PB.suspend_delay := {| PB.tv_sec := 1; PB.tv_nsec := 0 |};
     PB.suspend_signal := signal |}.

(** An input file of the fuzz driver that holds [s], with the size
    [fstat] reports and whether it can be opened. *)
Definition fuzz_file (openable : bool) (size : nat) (s : string)
  : input_file :=
  {| in_open_ok := openable; in_st_size := Some size;
     in_realloc_ok := true; in_read_ok := true;
     in_data := bytes_of_string s |}.

(** ** Bytes, frames and reading them back *)

Lemma Z_of_byte_of_Z (z : Z) : Z_of_byte (byte_of_Z z) = (z mod 256)%Z.
Proof.
  unfold Z_of_byte, byte_of_Z.
  assert (Hr : (0 <= z mod 256 < 256)%Z) by (apply Z.mod_pos_bound; lia).
  destruct (Byte.of_N (Z.to_N (z mod 256))) as [b|] eqn:Hb; simpl.
  - apply Byte.to_of_N in Hb. rewrite Hb. lia.
  - apply Byte.of_N_None_iff in Hb. lia.
Qed.

Lemma length_htonl (x : Z) : length (htonl x) = 4%nat.
Proof. reflexivity. Qed.

Lemma ntohl_htonl (x : Z) :
  (0 <= x < 2 ^ 32)%Z -> ntohl (htonl x) = x.
Proof.
  intros Hx. unfold htonl, ntohl. rewrite !Z_of_byte_of_Z.
  change (2 ^ 24)%Z with 16777216%Z. change (2 ^ 16)%Z with 65536%Z.
  change (2 ^ 8)%Z with 256%Z. change (2 ^ 32)%Z with 4294967296%Z in Hx.
  clear - Hx. Z.div_mod_to_equations. lia.
Qed.

Lemma uint32_t_small (x : Z) : (0 <= x < 2 ^ 32)%Z -> uint32_t x = x.
Proof. intros Hx. unfold uint32_t. apply Z.mod_small. exact Hx. Qed.

Lemma sys_fread_app (a b : list byte) :
  sys_fread (length a) (a ++ b)%list = Some (a, b).
Proof.
  unfold sys_fread. rewrite decide_True by (rewrite length_app; lia).
  by rewrite take_app_length, drop_app_length.
Qed.

Lemma sys_fread_htonl (x : Z) (b : list byte) :
  sys_fread 4 (htonl x ++ b)%list = Some (htonl x, b).
Proof. apply (sys_fread_app (htonl x) b). Qed.

Lemma encode_frames_cons (p : list byte) (ps : list (list byte)) :
  encode_frames (p :: ps)
  = (htonl (Z.of_nat (length p)) ++ p ++ encode_frames ps)%list.
Proof.
  unfold encode_frames. rewrite fmap_cons. cbn [concat]. unfold frame.
  by rewrite <- app_assoc.
Qed.

Lemma encode_frames_app (ps qs : list (list byte)) :
  encode_frames (ps ++ qs)%list
  = (encode_frames ps ++ encode_frames qs)%list.
Proof. unfold encode_frames. by rewrite fmap_app, concat_app. Qed.

Lemma length_encode_frames_cons (p : list byte) (ps : list (list byte)) :
  length (encode_frames (p :: ps))
  = (4 + length p + length (encode_frames ps))%nat.
Proof. rewrite encode_frames_cons, !length_app, length_htonl. lia. Qed.

(** Reading back the frames of well-sized payloads yields the payloads,
    whatever fuel above the number of frames is given. *)
Lemma read_frames_encode (ps : list (list byte)) (fuel : nat) :
  Forall fits_uint32 ps ->
  (length ps < fuel)%nat ->
  read_frames fuel (encode_frames ps) = Some ps.
Proof.
  intros Hfit. revert fuel.
  induction Hfit as [|p ps Hp Hps IH]; intros fuel Hfuel.
  - destruct fuel; [simpl in Hfuel; lia | reflexivity].
  - destruct fuel as [|fuel]; [simpl in Hfuel; lia |].
    rewrite encode_frames_cons. cbn [read_frames].
    rewrite sys_fread_htonl.
    rewrite ntohl_htonl by (unfold fits_uint32 in Hp; lia).
    rewrite Nat2Z.id, sys_fread_app.
    rewrite IH by (simpl in Hfuel; lia).
    reflexivity.
Qed.

Lemma length_encode_frames (ps : list (list byte)) :
  (length ps <= length (encode_frames ps))%nat.
Proof.
  induction ps as [|p ps IH]; [simpl; lia |].
  rewrite length_encode_frames_cons. simpl. lia.
Qed.

Lemma journal_frames_encode (ps : list (list byte)) :
  Forall fits_uint32 ps -> journal_frames (encode_frames ps) = Some ps.
Proof.
  intros Hfit. apply read_frames_encode; [exact Hfit |].
  pose proof (length_encode_frames ps). lia.
Qed.

(** ** The journal of a session that an accept message opens *)

Lemma journal_write_true os buf c c' :
  journal_write os buf (Z.of_nat (length buf)) c = (true, c') ->
  fits_uint32 buf ->
  exists f,
    journal c = Some f
    /\ c' = set_journal
              (Some {| f_fd := f_fd f;
                       f_pos := f_pos f + 4 + length buf;
                       f_wbuf := (f_wbuf f ++ frame buf)%list |}) c.
Proof.
  unfold journal_write, sys_fwrite, fits_uint32. intros H Hfit.
  destruct (journal c) as [f|] eqn:Hj; [|discriminate].
  exists f. split; [reflexivity |].
  destruct (fwrite_len_ok os); [|discriminate].
  destruct (fwrite_buf_ok os); [|discriminate].
  cbn in H. injection H as <-.
  rewrite Nat2Z.id, firstn_all, uint32_t_small by lia.
  unfold set_journal, frame. cbn. by rewrite <- app_assoc.
Qed.

Lemma journal_write_holds os buf c c' fs ps :
  journal_write os buf (Z.of_nat (length buf)) c = (true, c') ->
  fits_uint32 buf ->
  journal_holds c fs ps ->
  journal_holds c' fs (ps ++ [buf])
  /\ elapsed_time c' = elapsed_time c /\ errstr c' = errstr c.
Proof.
  intros Hw Hfit (f & p & Hj & Hp & Hbuf & Hpos & Hino & Hname).
  destruct (journal_write_true _ _ _ _ Hw Hfit) as (f' & Hj' & ->).
  rewrite Hj in Hj'. injection Hj' as <-.
  split; [|done].
  eexists _, p. cbn. repeat split; try done.
  - cbn. rewrite Hbuf, encode_frames_app. f_equal.
    unfold encode_frames. cbn. by rewrite app_nil_r.
  - cbn. rewrite Hpos, length_app. unfold frame. cbn [length app htonl].
    lia.
Qed.

Lemma journal_create_true os c fs c' fs' :
  journal_create os c fs = (true, c', fs') ->
  journal_holds c' fs' []
  /\ (exists f, journal c' = Some f /\ fd_locked (f_fd f) = true)
  /\ elapsed_time c' = elapsed_time c /\ errstr c' = errstr c.
Proof.
  unfold journal_create, journal_mkstemp, sys_mkstemp, sudo_lock_file,
    journal_fdopen.
  intros H. repeat case_match; simplify_eq/=.
  split; [|by eauto].
  eexists _, _. cbn. repeat split.
  - by rewrite lookup_insert_eq.
  - by rewrite lookup_insert_eq.
Qed.

Lemma write_at_empty (bs : list byte) : write_at 0 bs [] = bs.
Proof. unfold write_at. cbn. by rewrite drop_nil, app_nil_r. Qed.

Lemma journal_finish_true os c fs c' fs' ps :
  journal_finish os c fs = (true, c', fs') ->
  journal_holds c fs ps ->
  exists q,
    journal_path c' = Some q
    /\ read_file fs' q = Some (encode_frames ps)
    /\ elapsed_time c' = elapsed_time c /\ errstr c' = errstr c.
Proof.
  intros H (f & p & Hj & Hp & Hbuf & Hpos & Hino & Hname).
  unfold journal_finish in H. rewrite Hj, Hp in H.
  unfold sys_fflush in H. rewrite Hino, Hpos, Nat.sub_diag in H.
  rewrite write_at_empty in H.
  destruct (fflush_ok os); [|discriminate]. cbn in H.
  unfold journal_mkstemp, sys_mkstemp in H.
  destruct (PATH_MAX <=? _)%Z; [discriminate |].
  destruct (negb (mkdir_parents_ok os)); [discriminate |].
  destruct (mkstemp_name os) as [q|]; [|discriminate].
  destruct (bool_decide _ && bool_decide _) eqn:Hq; [|discriminate].
  apply andb_prop in Hq as [_ Hq]. apply bool_decide_eq_true in Hq.
  cbn in Hq, H.
  assert (Hne : q <> p) by congruence.
  unfold sys_rename in H. cbn in H.
  destruct (rename_ok os); [|discriminate].
  rewrite lookup_insert_ne, Hname in H by done.
  set (ino := fd_ino (f_fd f)) in *.
  set (ino2 := fresh (dom (<[ino := f_wbuf f]> (inodes fs)))) in *.
  assert (Hino2 : ino2 <> ino).
  { intros Heq. apply (is_fresh (dom (<[ino := f_wbuf f]> (inodes fs)))).
    fold ino2. rewrite Heq. apply elem_of_dom. rewrite lookup_insert_eq.
    by eexists. }
  assert (Hread :
             read_file
               (set_names
                  (<[q := ino]> (delete p (<[q := ino2]> (names fs))))
                  (set_inodes
                     (<[ino2 := []]> (<[ino := f_wbuf f]> (inodes fs)))
                     (set_names (<[q := ino2]> (names fs))
                        (set_inodes (<[ino := f_wbuf f]> (inodes fs)) fs))))
               q = Some (encode_frames ps)).
  { unfold read_file. cbn.
    rewrite lookup_insert_eq, lookup_insert_ne, lookup_insert_eq by done.
    cbn. by rewrite Hbuf. }
  repeat case_match; simplify_eq/=;
    (eexists; split; [reflexivity | split; [exact Hread | done]]).
Qed.

Lemma journal_holds_ext c c' fs ps :
  journal c' = journal c -> journal_path c' = journal_path c ->
  journal_holds c fs ps -> journal_holds c' fs ps.
Proof.
  intros Hj Hp (f & p & H). exists f, p. rewrite Hj, Hp. exact H.
Qed.

Lemma journal_open_holds os msg raw c fs c' fs' :
  opens msg = true ->
  handle cms_journal os msg raw (Z.of_nat (length raw)) c fs
  = (true, c', fs') ->
  fits_uint32 raw ->
  journal_holds c' fs' [raw].
Proof.
  intros Hopen H Hfit.
  destruct msg; try discriminate; cbn in H.
  - unfold journal_accept in H.
    destruct (journal_create os c fs) as [[ok c1] fs1] eqn:Hc.
    destruct ok; [|discriminate]. cbn in H.
    destruct (journal_write os raw _ c1) as [ok c2] eqn:Hw.
    destruct ok; [|discriminate]. cbn in H.
    apply journal_create_true in Hc as (Hc & _).
    destruct (journal_write_holds _ _ _ _ _ _ Hw Hfit Hc) as (Hh & _).
    repeat case_match; simplify_eq/=; exact Hh.
  - unfold journal_reject in H.
    destruct (journal_create os c fs) as [[ok c1] fs1] eqn:Hc.
    destruct ok; [|discriminate]. cbn in H.
    destruct (journal_write os raw _ c1) as [ok c2] eqn:Hw.
    destruct ok; [|discriminate]. cbn in H.
    apply journal_create_true in Hc as (Hc & _).
    destruct (journal_write_holds _ _ _ _ _ _ Hw Hfit Hc) as (Hh & _).
    by simplify_eq/=.
Qed.

Lemma journal_stream_holds os msg raw c fs c' fs' ps :
  streams msg = true ->
  handle cms_journal os msg raw (Z.of_nat (length raw)) c fs
  = (true, c', fs') ->
  fits_uint32 raw ->
  journal_holds c fs ps ->
  journal_holds c' fs' (ps ++ [raw]).
Proof.
  intros Hs H Hfit Hh.
  destruct msg; try discriminate; cbn in H;
    unfold journal_alert, journal_iobuf, journal_suspend, journal_winsize
      in H;
    destruct (journal_write os raw _ c) as [ok c2] eqn:Hw;
    destruct ok; try discriminate;
    destruct (journal_write_holds _ _ _ _ _ _ Hw Hfit Hh) as (Hh' & _);
    simplify_eq/=; exact Hh'.
Qed.

Lemma journal_exit_holds os msg raw c fs c' fs' ps :
  is_exit msg = true ->
  handle cms_journal os msg raw (Z.of_nat (length raw)) c fs
  = (true, c', fs') ->
  fits_uint32 raw ->
  journal_holds c fs ps ->
  exists q,
    journal_path c' = Some q
    /\ read_file fs' q = Some (encode_frames (ps ++ [raw])).
Proof.
  intros He H Hfit Hh.
  destruct msg; try discriminate; cbn in H. unfold journal_exit in H.
  destruct (journal_write os raw _ c) as [ok c2] eqn:Hw.
  destruct ok; [|discriminate]. cbn in H.
  destruct (journal_write_holds _ _ _ _ _ _ Hw Hfit Hh) as (Hh' & _).
  destruct (journal_finish os c2 fs) as [[ok c3] fs3] eqn:Hf.
  destruct ok; [|discriminate]. simplify_eq/=.
  destruct (journal_finish_true _ _ _ _ _ _ Hf Hh') as (q & Hq & Hr & _).
  eauto.
Qed.

Lemma run_session_streams mid rest c fs c'' fs'' ps :
  Forall (fun e => streams (ev_msg e) = true) mid ->
  Forall (fun e => fits_uint32 (ev_raw e)) mid ->
  run_session cms_journal (mid ++ rest) c fs = (true, c'', fs'') ->
  journal_holds c fs ps ->
  exists c' fs',
    run_session cms_journal rest c' fs' = (true, c'', fs'')
    /\ journal_holds c' fs' (ps ++ (ev_raw <$> mid)).
Proof.
  intros Hs. revert c fs ps.
  induction Hs as [|e mid He Hmid IH]; intros c fs ps Hfit H Hh.
  - exists c, fs. by rewrite app_nil_r.
  - inversion Hfit as [|? ? Hfe Hfmid]; subst.
    cbn [app run_session] in H.
    destruct (handle cms_journal (ev_os e) (ev_msg e) (ev_raw e) _ c fs)
      as [[ok c1] fs1] eqn:Hstep.
    destruct ok; [|discriminate].
    pose proof (journal_stream_holds _ _ _ _ _ _ _ _ He Hstep Hfe Hh)
      as Hh1.
    destruct (IH _ _ _ Hfmid H Hh1) as (c' & fs' & Hrun & Hh').
    exists c', fs'. split; [exact Hrun |].
    rewrite fmap_cons. by rewrite <- app_assoc in Hh'.
Qed.

(** C2 (as amended).  A session that an accept or a reject message
    opens, that then streams alerts, I/O buffers, suspend and window
    size events, and that ends in an exit message, all handled
    successfully by the journal sink and none longer than a 32-bit
    length can tell: the finalized journal, read back as frames of a
    4-byte big-endian length and that many bytes, holds exactly the raw
    bytes of the messages, in order. *)
Theorem journal_round_trip first mid last c0 fs0 c fs :
  opens (ev_msg first) = true ->
  Forall (fun e => streams (ev_msg e) = true) mid ->
  is_exit (ev_msg last) = true ->
  Forall (fun e => fits_uint32 (ev_raw e)) (first :: mid ++ [last]) ->
  run_session cms_journal (first :: mid ++ [last]) c0 fs0 = (true, c, fs) ->
  exists path,
    journal_path c = Some path
    /\ read_file fs path ≫= journal_frames
       = Some (ev_raw <$> first :: mid ++ [last]).
Proof.
  intros Hopen Hmid Hexit Hfit H.
  inversion Hfit as [|? ? Hf1 Hfrest]; subst.
  apply Forall_app in Hfrest as [Hfmid Hflast].
  inversion Hflast as [|? ? Hfl _]; subst.
  cbn [run_session] in H.
  destruct (handle cms_journal (ev_os first) (ev_msg first) (ev_raw first)
              _ c0 fs0) as [[ok c1] fs1] eqn:Hstep.
  destruct ok; [|discriminate].
  pose proof (journal_open_holds _ _ _ _ _ _ _ Hopen Hstep Hf1) as Hh1.
  destruct (run_session_streams _ _ _ _ _ _ _ Hmid Hfmid H Hh1)
    as (c2 & fs2 & Hrun & Hh2).
  cbn [run_session] in Hrun.
  destruct (handle cms_journal (ev_os last) (ev_msg last) (ev_raw last)
              _ c2 fs2) as [[ok c3] fs3] eqn:Hlast.
  destruct ok; [|discriminate]. injection Hrun as -> ->.
  destruct (journal_exit_holds _ _ _ _ _ _ _ _ Hexit Hlast Hfl Hh2)
    as (q & Hq & Hr).
  exists q. split; [exact Hq |]. rewrite Hr. unfold mbind, option_bind.
  rewrite journal_frames_encode.
  - by rewrite fmap_cons, fmap_app.
  - change ([ev_raw first] ++ (ev_raw <$> mid) ++ [ev_raw last])%list
      with (ev_raw first :: (ev_raw <$> mid) ++ [ev_raw last])%list.
    constructor; [exact Hf1 |]. apply Forall_app. split.
    + by apply Forall_fmap.
    + by constructor.
Qed.

(** ** Replaying a journal: [journal_seek] *)

Lemma timespec_eq_true (a b : timespec) :
  sudo_timespeccmp_eq a b = true <-> a = b.
Proof.
  destruct a as [s1 n1], b as [s2 n2]. unfold sudo_timespeccmp_eq. cbn.
  destruct (Z.eqb_spec s1 s2) as [->|Hs].
  - rewrite Z.eqb_eq. split; [by intros -> | by intros [= ->]].
  - split; [discriminate | by intros [= -> ->]].
Qed.

Lemma timespec_ge_false (a b : timespec) :
  sudo_timespeccmp_ge a b = false <-> timespec_lt a b.
Proof.
  unfold sudo_timespeccmp_ge, timespec_lt.
  destruct (Z.eqb_spec (tv_sec a) (tv_sec b)) as [Hs|Hs];
    rewrite Z.leb_gt; lia.
Qed.

Lemma timespec_ge_not_eq (a b : timespec) :
  sudo_timespeccmp_ge a b = true -> sudo_timespeccmp_eq a b = false ->
  timespec_lt b a.
Proof.
  unfold sudo_timespeccmp_ge, sudo_timespeccmp_eq, timespec_lt.
  destruct (Z.eqb_spec (tv_sec a) (tv_sec b)) as [Hs|Hs]; intros H1 H2.
  - apply Z.leb_le in H1. apply Z.eqb_neq in H2. lia.
  - apply Z.leb_le in H1. lia.
Qed.

Lemma timespec_lt_irrefl (a : timespec) : ~ timespec_lt a a.
Proof. unfold timespec_lt. lia. Qed.

Lemma timespec_lt_asym (a b : timespec) :
  timespec_lt a b -> ~ timespec_lt b a.
Proof. unfold timespec_lt. lia. Qed.

(** The three ways a comparison of the elapsed time with the target
    turns out. *)
Lemma timespec_cases (a b : timespec) :
  (sudo_timespeccmp_ge a b = true /\ sudo_timespeccmp_eq a b = true
   /\ a = b)
  \/ (sudo_timespeccmp_ge a b = true /\ sudo_timespeccmp_eq a b = false
      /\ timespec_lt b a)
  \/ (sudo_timespeccmp_ge a b = false /\ timespec_lt a b).
Proof.
  destruct (sudo_timespeccmp_ge a b) eqn:Hge.
  - destruct (sudo_timespeccmp_eq a b) eqn:Heq.
    + left. by rewrite <- timespec_eq_true.
    + right. left. eauto using timespec_ge_not_eq.
  - right. right. by rewrite <- timespec_ge_false.
Qed.

Lemma sys_fread_length n rest bs rest' :
  sys_fread n rest = Some (bs, rest') ->
  (n + length rest' = length rest)%nat.
Proof.
  unfold sys_fread. case_decide; [|discriminate].
  intros [= <- <-]. rewrite length_drop. lia.
Qed.

(** The loop does not depend on its fuel once there is more of it than
    there are bytes left, and then it comes to an end. *)
Lemma journal_seek_loop_fuel os target f1 f2 bufsize rest e :
  (length rest < f1)%nat -> (length rest < f2)%nat ->
  journal_seek_loop os f1 target bufsize rest e
  = journal_seek_loop os f2 target bufsize rest e.
Proof.
  revert f2 bufsize rest e.
  induction f1 as [|f1 IH]; intros f2 bufsize rest e H1 H2; [lia |].
  destruct f2 as [|f2]; [lia |]. cbn [journal_seek_loop].
  destruct (sys_fread 4 rest) as [[len_bytes rest1]|] eqn:Hr1;
    [|reflexivity].
  apply sys_fread_length in Hr1.
  destruct (MESSAGE_SIZE_MAX <? ntohl len_bytes)%Z; [reflexivity |].
  destruct (ntohl len_bytes =? 0)%Z.
  - destruct (client_message__unpack []) as [msg|]; [|reflexivity].
    destruct (sudo_timespeccmp_ge _ _); [reflexivity |].
    apply IH; lia.
  - destruct (_ && _); [reflexivity |].
    destruct (sys_fread _ rest1) as [[buf rest2]|] eqn:Hr2; [|reflexivity].
    apply sys_fread_length in Hr2.
    destruct (client_message__unpack buf) as [msg|]; [|reflexivity].
    destruct (sudo_timespeccmp_ge _ _); [reflexivity |].
    apply IH; lia.
Qed.

Lemma journal_seek_loop_total os target fuel bufsize rest e :
  (length rest < fuel)%nat ->
  is_Some (journal_seek_loop os fuel target bufsize rest e).
Proof.
  revert bufsize rest e.
  induction fuel as [|fuel IH]; intros bufsize rest e Hlen; [lia |].
  cbn [journal_seek_loop].
  destruct (sys_fread 4 rest) as [[len_bytes rest1]|] eqn:Hr1; [|eauto].
  apply sys_fread_length in Hr1.
  destruct (MESSAGE_SIZE_MAX <? ntohl len_bytes)%Z; [eauto |].
  destruct (ntohl len_bytes =? 0)%Z.
  - destruct (client_message__unpack []) as [msg|]; [|eauto].
    destruct (sudo_timespeccmp_ge _ _).
    + destruct (sudo_timespeccmp_eq _ _); eauto.
    + apply IH. lia.
  - destruct (_ && _); [eauto |].
    destruct (sys_fread _ rest1) as [[buf rest2]|] eqn:Hr2; [|eauto].
    apply sys_fread_length in Hr2.
    destruct (client_message__unpack buf) as [msg|]; [|eauto].
    destruct (sudo_timespeccmp_ge _ _).
    + destruct (sudo_timespeccmp_eq _ _); eauto.
    + apply IH. lia.
Qed.

(** One turn of the loop on a well-formed frame. *)
Lemma journal_seek_loop_frame os target fuel bufsize p m tail e :
  malloc_ok os = true ->
  client_message__unpack p = Some m ->
  (Z.of_nat (length p) <= MESSAGE_SIZE_MAX)%Z ->
  fits_uint32 p ->
  journal_seek_loop os (S fuel) target bufsize (frame p ++ tail)%list e
  = if sudo_timespeccmp_ge (seek_advance m e) target then
      if sudo_timespeccmp_eq (seek_advance m e) target then
        Some {| seek_ret := true; seek_errstr := None; seek_rest := tail;
                seek_elapsed := seek_advance m e |}
      else
        Some (seek_fail "invalid journal file, unable to restart" tail
                (seek_advance m e))
    else
      journal_seek_loop os fuel target (bufsize_after bufsize p) tail
        (seek_advance m e).
Proof.
  intros Hmalloc Hm Hmax Hfit. unfold frame, fits_uint32, bufsize_after in *.
  cbn [journal_seek_loop]. rewrite <- app_assoc, sys_fread_htonl.
  rewrite ntohl_htonl by lia.
  rewrite (proj2 (Z.ltb_ge _ _)) by lia.
  rewrite Hmalloc, andb_false_r.
  destruct (Z.eqb_spec (Z.of_nat (length p)) 0) as [H0|H0].
  - destruct p; [|cbn in H0; lia]. cbn [app]. by rewrite Hm.
  - by rewrite Nat2Z.id, sys_fread_app, Hm.
Qed.

(** Frames whose accumulated times stay below the target are passed
    over. *)
Lemma journal_seek_loop_skip os target ps ms tail bufsize e fuel :
  malloc_ok os = true ->
  decodes_to ps ms ->
  Forall (fun t => timespec_lt t target) (elapsed_times e ms) ->
  (length (encode_frames ps ++ tail) < fuel)%nat ->
  journal_seek_loop os fuel target bufsize (encode_frames ps ++ tail)%list e
  = journal_seek_loop os (S (length tail)) target
      (foldl bufsize_after bufsize ps) tail
      (foldl (fun e m => seek_advance m e) e ms).
Proof.
  intros Hmalloc Hdec. revert bufsize e fuel.
  induction Hdec as [|p m ps ms (Hm & Hmax & Hfit) Hdec IH];
    intros bufsize e fuel Hlt Hfuel.
  - change (encode_frames [] ++ tail)%list with tail in *. cbn [foldl].
    apply journal_seek_loop_fuel; lia.
  - cbn [elapsed_times] in Hlt. inversion Hlt as [|? ? Hlt1 Hlt']; subst.
    destruct fuel as [|fuel]; [lia |].
    rewrite encode_frames_cons in *.
    replace ((htonl (Z.of_nat (length p)) ++ p ++ encode_frames ps)
             ++ tail)%list
      with (frame p ++ (encode_frames ps ++ tail))%list in *
      by (unfold frame; by rewrite <- !app_assoc).
    rewrite (journal_seek_loop_frame _ _ _ _ _ _ _ _ Hmalloc Hm Hmax Hfit).
    rewrite (proj2 (timespec_ge_false _ _) Hlt1).
    cbn [foldl]. apply IH; [exact Hlt' |].
    unfold frame in Hfuel. rewrite !length_app, length_htonl in Hfuel.
    rewrite length_app. lia.
Qed.

Lemma journal_seek_loop_truncated os target fuel bufsize tail e :
  malloc_ok os = true -> fread_eof os = true ->
  truncated tail ->
  journal_seek_loop os (S fuel) target bufsize tail e
  = Some (seek_fail "unexpected EOF reading journal file" [] e).
Proof.
  intros Hmalloc Heof
    [Hshort | (len_bytes & partial & -> & Hlen & Hmax & Hpart)];
    cbn [journal_seek_loop]; unfold seek_short_read; rewrite Heof.
  - unfold sys_fread. by rewrite decide_False by lia.
  - rewrite <- Hlen, sys_fread_app.
    rewrite (proj2 (Z.ltb_ge _ _)) by lia.
    rewrite Hmalloc, andb_false_r.
    destruct (Z.eqb_spec (ntohl len_bytes) 0) as [H0|H0].
    + rewrite H0 in Hpart. cbn in Hpart. lia.
    + unfold sys_fread. by rewrite decide_False by lia.
Qed.

Lemma journal_seek_loop_spec os target ps ms tail bufsize e fuel :
  malloc_ok os = true -> fread_eof os = true ->
  decodes_to ps ms ->
  truncated tail ->
  (length (encode_frames ps ++ tail) < fuel)%nat ->
  exists r,
    journal_seek_loop os fuel target bufsize (encode_frames ps ++ tail)%list e
    = Some r
    /\ (seek_ret r = true <->
        exists before after,
          elapsed_times e ms = (before ++ target :: after)%list
          /\ Forall (fun t => timespec_lt t target) before)
    /\ (forall before t after,
          elapsed_times e ms = (before ++ t :: after)%list ->
          Forall (fun t => timespec_lt t target) before ->
          timespec_lt target t ->
          seek_ret r = false
          /\ seek_errstr r
             = Some "invalid journal file, unable to restart")
    /\ (Forall (fun t => timespec_lt t target) (elapsed_times e ms) ->
        seek_ret r = false
        /\ seek_errstr r = Some "unexpected EOF reading journal file").
Proof.
  intros Hmalloc Heof Hdec Htail. revert bufsize e fuel.
  induction Hdec as [|p m ps ms (Hm & Hmax & Hfit) Hdec IH];
    intros bufsize e fuel Hfuel.
  - destruct fuel as [|fuel]; [lia |].
    change (encode_frames [] ++ tail)%list with tail.
    rewrite (journal_seek_loop_truncated _ _ _ _ _ _ Hmalloc Heof Htail).
    eexists. split; [reflexivity |]. cbn.
    split; [split |split].
    + discriminate.
    + intros (before & after & Heq & _). by destruct before.
    + intros before t after Heq. by destruct before.
    + done.
  - destruct fuel as [|fuel]; [lia |].
    rewrite encode_frames_cons in *.
    replace ((htonl (Z.of_nat (length p)) ++ p ++ encode_frames ps)
             ++ tail)%list
      with (frame p ++ (encode_frames ps ++ tail))%list in *
      by (unfold frame; by rewrite <- !app_assoc).
    rewrite (journal_seek_loop_frame _ _ _ _ _ _ _ _ Hmalloc Hm Hmax Hfit).
    cbn [elapsed_times].
    set (e1 := seek_advance m e).
    destruct (timespec_cases e1 target)
      as [(-> & -> & Heq) | [(-> & -> & Hgt) | (-> & Hlt)]].
    + (* the target is reached *)
      eexists. split; [reflexivity |]. cbn.
      split; [split |split].
      * intros _. exists [], (elapsed_times e1 ms). by rewrite Heq.
      * done.
      * intros before t after Hbefore Hb Ht.
        destruct before as [|t0 before]; cbn in Hbefore; simplify_eq.
        -- by apply timespec_lt_irrefl in Ht.
        -- inversion Hb as [|? ? Hb1 _]; subst.
           by apply timespec_lt_irrefl in Hb1.
      * intros Hall. inversion Hall as [|? ? Hb1 _]; subst.
        by apply timespec_lt_irrefl in Hb1.
    + (* the target is passed *)
      eexists. split; [reflexivity |]. cbn.
      split; [split |split].
      * discriminate.
      * intros (before & after & Hbefore & Hb).
        destruct before as [|t0 before]; cbn in Hbefore; simplify_eq.
        -- by apply timespec_lt_irrefl in Hgt.
        -- inversion Hb as [|? ? Hb1 _]; subst.
           by apply timespec_lt_asym in Hgt.
      * done.
      * intros Hall. inversion Hall as [|? ? Hb1 _]; subst.
        by apply timespec_lt_asym in Hgt.
    + (* below the target: the loop goes on *)
      unfold frame in Hfuel. rewrite !length_app, length_htonl in Hfuel.
      destruct (IH (bufsize_after bufsize p) e1 fuel
                  ltac:(rewrite length_app; lia))
        as (r & Hr & Hi & Hii & Hiii).
      exists r. split; [exact Hr |].
      split; [split |split].
      * intros Hret. apply Hi in Hret as (before & after & -> & Hb).
        exists (e1 :: before), after. split; [reflexivity |].
        by constructor.
      * intros (before & after & Hbefore & Hb).
        apply Hi. destruct before as [|t0 before]; cbn in Hbefore;
          simplify_eq.
        -- by apply timespec_lt_irrefl in Hlt.
        -- inversion Hb; subst. eauto.
      * intros before t after Hbefore Hb Ht.
        destruct before as [|t0 before]; cbn in Hbefore; simplify_eq.
        -- by apply timespec_lt_asym in Hlt.
        -- inversion Hb; subst. eapply Hii; eauto.
      * intros Hall. inversion Hall; subst. by apply Hiii.
Qed.

(** Whatever bytes the journal holds and whatever the environment
    answers, a seek that succeeds has stopped with the elapsed time on
    the target and has set no message. *)
Lemma journal_seek_loop_sound os target fuel bufsize rest e r :
  journal_seek_loop os fuel target bufsize rest e = Some r ->
  seek_ret r = true ->
  seek_elapsed r = target /\ seek_errstr r = None.
Proof.
  revert bufsize rest e.
  induction fuel as [|fuel IH]; intros bufsize rest e H Hret;
    [discriminate |].
  cbn [journal_seek_loop] in H. unfold seek_short_read in H.
  repeat case_match; simplify_eq/=; try discriminate; eauto;
    by match goal with
       | H : sudo_timespeccmp_eq _ _ = true |- _ =>
           apply timespec_eq_true in H
       end.
Qed.

Lemma journal_seek_unfold os target c fs f file r :
  journal c = Some f -> f_pos f = 0%nat ->
  inodes fs !! fd_ino (f_fd f) = Some file ->
  journal_seek_loop os (S (length file)) target 0 file (elapsed_time c)
  = Some r ->
  (journal_seek os target c fs).1 = seek_ret r
  /\ errstr (journal_seek os target c fs).2
     = match seek_errstr r with
       | Some s => Some s
       | None => errstr c
       end
  /\ elapsed_time (journal_seek os target c fs).2 = seek_elapsed r
  /\ f_pos <$> journal (journal_seek os target c fs).2
     = Some (length file - length (seek_rest r))%nat.
Proof.
  intros Hj Hpos Hino Hloop. unfold journal_seek.
  rewrite Hj, Hpos, Hino. cbn [from_option id]. rewrite drop_0, Hloop.
  destruct (seek_errstr r); done.
Qed.

(** C3.  On a journal of well-formed frames, which may end in a part of
    a frame, read without allocation failure and without read error: the
    seek succeeds exactly when the elapsed time accumulated after some
    frame is the target while it was below the target after every earlier
    frame; when the first accumulated value not below the target exceeds
    it, the seek fails with "invalid journal file, unable to restart";
    when the accumulated values stay below the target to the end of the
    file, it fails with "unexpected EOF reading journal file".  A seek
    that succeeds leaves the elapsed time on the target. *)
Theorem journal_seek_exact os target c fs f ps ms tail :
  malloc_ok os = true -> fread_eof os = true ->
  journal c = Some f -> f_pos f = 0%nat ->
  inodes fs !! fd_ino (f_fd f) = Some (encode_frames ps ++ tail)%list ->
  decodes_to ps ms ->
  truncated tail ->
  let times := elapsed_times (elapsed_time c) ms in
  let r := journal_seek os target c fs in
  (r.1 = true <->
   exists before after,
     times = (before ++ target :: after)%list
     /\ Forall (fun t => timespec_lt t target) before)
  /\ (forall before t after,
        times = (before ++ t :: after)%list ->
        Forall (fun t => timespec_lt t target) before ->
        timespec_lt target t ->
        r.1 = false
        /\ errstr r.2 = Some "invalid journal file, unable to restart")
  /\ (Forall (fun t => timespec_lt t target) times ->
      r.1 = false
      /\ errstr r.2 = Some "unexpected EOF reading journal file")
  /\ (r.1 = true -> elapsed_time r.2 = target).
Proof.
  intros Hmalloc Heof Hj Hpos Hino Hdec Htail times r.
  destruct (journal_seek_loop_spec os target ps ms tail 0 (elapsed_time c)
              (S (length (encode_frames ps ++ tail))) Hmalloc Heof Hdec
              Htail ltac:(lia))
    as (r0 & Hloop & Hi & Hii & Hiii).
  destruct (journal_seek_unfold _ _ _ _ _ _ _ Hj Hpos Hino Hloop)
    as (Hret & Herr & Hel & _).
  fold r in Hret, Herr, Hel. rewrite Hret, Herr, Hel.
  split; [exact Hi |]. split; [|split].
  - intros before t after Heq Hb Ht.
    destruct (Hii before t after Heq Hb Ht) as [-> ->]. done.
  - intros Hall. destruct (Hiii Hall) as [-> ->]. done.
  - intros Htrue.
    by destruct (journal_seek_loop_sound _ _ _ _ _ _ _ Hloop Htrue).
Qed.

(** C6.  When the seek comes to a frame whose length field exceeds
    MESSAGE_SIZE_MAX, it fails with "client message too large", and the
    file position is just behind the four bytes of the length: nothing
    of the payload has been read. *)
Theorem journal_seek_too_large os target c fs f ps ms len_bytes tail :
  malloc_ok os = true ->
  journal c = Some f -> f_pos f = 0%nat ->
  inodes fs !! fd_ino (f_fd f)
  = Some (encode_frames ps ++ len_bytes ++ tail)%list ->
  decodes_to ps ms ->
  Forall (fun t => timespec_lt t target)
    (elapsed_times (elapsed_time c) ms) ->
  length len_bytes = 4%nat ->
  (MESSAGE_SIZE_MAX < ntohl len_bytes)%Z ->
  let r := journal_seek os target c fs in
  r.1 = false
  /\ errstr r.2 = Some "client message too large"
  /\ f_pos <$> journal r.2 = Some (length (encode_frames ps) + 4)%nat.
Proof.
  intros Hmalloc Hj Hpos Hino Hdec Hlt Hlen Hbig r.
  set (file := (encode_frames ps ++ len_bytes ++ tail)%list) in *.
  assert (Hloop :
            journal_seek_loop os (S (length file)) target 0 file
              (elapsed_time c)
            = Some (seek_fail "client message too large" tail
                      (foldl (fun e m => seek_advance m e)
                         (elapsed_time c) ms))).
  { unfold file.
    rewrite (journal_seek_loop_skip _ _ _ _ _ _ _ _ Hmalloc Hdec Hlt)
      by lia.
    cbn [journal_seek_loop]. rewrite <- Hlen, sys_fread_app.
    by rewrite (proj2 (Z.ltb_lt _ _) Hbig). }
  destruct (journal_seek_unfold _ _ _ _ _ _ _ Hj Hpos Hino Hloop)
    as (Hret & Herr & _ & Hp).
  fold r in Hret, Herr, Hp. rewrite Hret, Herr, Hp. cbn.
  repeat split. f_equal. unfold file.
  rewrite !length_app. lia.
Qed.

(** ** The path a journal restart reopens *)

Lemma no_slash_cons (a : ascii) (s : string) :
  no_slash (String a s) <-> a <> "/"%char /\ no_slash s.
Proof.
  unfold no_slash. cbn. split.
  - intros H. split; [intros -> | intros Hin]; apply H; [by left | by right].
  - intros [Ha Hs] [Heq | Hin]; [by apply Ha | by apply Hs].
Qed.

Lemma strchr_no_slash (s : string) :
  no_slash s -> strchr s "/" = None.
Proof.
  induction s as [|a s IH]; [reflexivity |].
  rewrite no_slash_cons. intros [Ha Hs]. cbn [strchr].
  destruct (Ascii.eqb_spec a "/"); [done |]. by rewrite (IH Hs).
Qed.

Lemma strchr_first_slash (host rest : string) :
  no_slash host ->
  strchr (host ++ "/" ++ rest) "/" = Some (String.length host).
Proof.
  change ("/" ++ rest) with (String "/" rest).
  induction host as [|a host IH]; [reflexivity |].
  rewrite no_slash_cons. intros [Ha Hs].
  change (String a host ++ String "/" rest)
    with (String a (host ++ String "/" rest)).
  cbn [strchr].
  destruct (Ascii.eqb_spec a "/"); [done |]. by rewrite (IH Hs).
Qed.

Lemma string_at_behind (host rest : string) (a : ascii) :
  string_at (S (String.length host)) (host ++ String a rest) = rest.
Proof.
  induction host as [|x host IH]; [by destruct rest | exact IH].
Qed.

Lemma strip_hostname_host (host rest : string) :
  host <> "" -> no_slash host ->
  strip_hostname (host ++ "/" ++ rest) = rest.
Proof.
  intros Hne Hns. unfold strip_hostname.
  rewrite (strchr_first_slash _ _ Hns).
  rewrite bool_decide_true by (destruct host; [done | cbn; lia]).
  apply string_at_behind.
Qed.

Lemma strip_hostname_leading_slash (rest : string) :
  strip_hostname ("/" ++ rest) = "/" ++ rest.
Proof. reflexivity. Qed.

Lemma strip_hostname_no_slash (s : string) :
  no_slash s -> strip_hostname s = s.
Proof.
  intros Hns. unfold strip_hostname. by rewrite (strchr_no_slash _ Hns).
Qed.

Lemma journal_seek_keeps os target c fs :
  journal_path (journal_seek os target c fs).2 = journal_path c
  /\ f_fd <$> journal (journal_seek os target c fs).2 = f_fd <$> journal c.
Proof.
  unfold journal_seek.
  destruct (journal c) as [f|] eqn:Hj; [|cbn; by rewrite Hj].
  destruct (journal_seek_loop _ _ _ _ _ _) as [e|]; [|cbn; by rewrite Hj].
  cbn. by destruct (seek_errstr e).
Qed.

(** C7.  Whenever a journal restart leaves an open journal in the
    closure of a new connection, it is the file named
    <relay-dir>/incoming/<stripped>, and that path is stored: <stripped>
    is what follows the first '/' of the log id when a host name without
    '/' and not empty comes before it, the whole log id when it begins
    with '/', and the whole log id when it has no '/'. *)
Theorem journal_restart_path os msg buf len c fs f :
  journal c = None ->
  journal (journal_restart os msg buf len c fs).1.2 = Some f ->
  exists stripped,
    journal_path (journal_restart os msg buf len c fs).1.2
    = Some (relay_dir ++ "/incoming/" ++ stripped)
    /\ names fs !! (relay_dir ++ "/incoming/" ++ stripped)
       = Some (fd_ino (f_fd f))
    /\ (forall host rest,
          PB.log_id msg = host ++ "/" ++ rest ->
          host <> "" -> no_slash host -> stripped = rest)
    /\ (forall rest,
          PB.log_id msg = "/" ++ rest -> stripped = PB.log_id msg)
    /\ (no_slash (PB.log_id msg) -> stripped = PB.log_id msg).
Proof.
  intros Hnone Hf. exists (strip_hostname (PB.log_id msg)).
  assert (Hcases :
            (forall host rest,
                PB.log_id msg = host ++ "/" ++ rest ->
                host <> "" -> no_slash host ->
                strip_hostname (PB.log_id msg) = rest)
            /\ (forall rest,
                  PB.log_id msg = "/" ++ rest ->
                  strip_hostname (PB.log_id msg) = PB.log_id msg)
            /\ (no_slash (PB.log_id msg) ->
                strip_hostname (PB.log_id msg) = PB.log_id msg)).
  { split; [|split].
    - intros host rest -> Hne Hns. by apply strip_hostname_host.
    - by intros rest ->.
    - apply strip_hostname_no_slash. }
  revert Hf. unfold journal_restart, sys_open, journal_fdopen.
  set (path := relay_dir ++ "/incoming/" ++ strip_hostname (PB.log_id msg)).
  destruct (PATH_MAX <=? _)%Z; [cbn; congruence |].
  destruct (open_ok os); [|cbn; congruence].
  destruct (names fs !! path) as [ino|] eqn:Hino; [|cbn; congruence].
  destruct (strdup_ok os); [|cbn; congruence].
  destruct (fdopen_ok os); [|cbn; congruence]. cbn [negb].
  match goal with
  | |- context [journal_seek os ?t ?c0 fs] =>
      pose proof (journal_seek_keeps os t c0 fs) as [Hp Hfd];
      destruct (journal_seek os t c0 fs) as [ok c1]
  end.
  cbn in Hp, Hfd.
  destruct ok; cbn; intros Hf; rewrite Hf in Hfd; cbn in Hfd;
    injection Hfd as Hfd; rewrite Hfd; cbn; by rewrite Hp.
Qed.

(** ** Finishing a journal when the rename fails *)

(** C10.  When the journal is flushed, the placeholder in the outgoing
    directory is created and the rename of the incoming journal to it
    fails: the call reports failure with "unable to rename journal
    file", the placeholder is unlinked, no path names another file than
    before, the incoming journal holds what it held after the flush, and
    the stored journal path is the old one. *)
Theorem journal_finish_rename_fails os c fs f old_path f1 fs1 fd
    outgoing_path fs2 :
  journal c = Some f -> journal_path c = Some old_path ->
  sys_fflush os f fs = Some (f1, fs1) ->
  journal_mkstemp os "outgoing" PATH_MAX fs1
  = Some (fd, outgoing_path, fs2) ->
  sys_rename os old_path outgoing_path fs2 = None ->
  let r := journal_finish os c fs in
  r.1.1 = false
  /\ errstr r.1.2 = Some "unable to rename journal file"
  /\ names r.2 !! outgoing_path = None
  /\ names r.2 = names fs
  /\ read_file r.2 old_path = read_file fs1 old_path
  /\ journal_path r.1.2 = Some old_path.
Proof.
  intros Hj Hp Hflush Hmk Hren r. subst r. unfold journal_finish.
  rewrite Hj, Hp, Hflush, Hmk, Hren. cbn.
  assert (Hnames1 : names fs1 = names fs).
  { unfold sys_fflush in Hflush. destruct (fflush_ok os); [|discriminate].
    by injection Hflush as <- <-. }
  unfold journal_mkstemp, sys_mkstemp in Hmk.
  repeat case_match; simplify_eq/=.
  match goal with
  | H : _ && _ = true |- _ =>
      apply andb_prop in H as [_ Hfresh];
      apply bool_decide_eq_true in Hfresh
  end.
  rewrite lookup_delete_eq, delete_insert_id by done.
  repeat split; try done.
  unfold read_file. cbn. rewrite delete_insert_id by done.
  destruct (names fs1 !! old_path) as [ino|]; [|done].
  f_equal.
  destruct (decide (ino = fresh (dom (inodes fs1)))) as [->|Hne].
  - rewrite lookup_insert_eq.
    by rewrite (proj1 (not_elem_of_dom (inodes fs1) _)
                  (is_fresh (dom (inodes fs1)))).
  - by rewrite lookup_insert_ne.
Qed.

(** ** The local sink: completion of a log, and restart *)

Lemma CLR_write_bits (mode bit : Z) :
  Z.land (Z.lor (Z.lor S_IWUSR S_IWGRP) S_IWOTH) bit = bit ->
  Z.land (CLR mode (Z.lor (Z.lor S_IWUSR S_IWGRP) S_IWOTH)) bit = 0%Z.
Proof.
  intros Hbit. unfold CLR. rewrite <- Hbit.
  rewrite (Z.land_comm (Z.lor _ _) bit), Z.land_assoc.
  rewrite <- (Z.land_assoc mode), (Z.land_comm (Z.lnot _)).
  rewrite Z.land_assoc, <- (Z.land_assoc (Z.land mode bit)).
  rewrite Z.land_lnot_diag. apply Z.land_0_r.
Qed.

(** C5.  A local session with an I/O log: the exit handler succeeds
    whatever becomes of the chmod; when the chmod succeeds the timing
    file has its user, group and other write bits clear, when it fails
    the file system is as before.  And a restart that gets to stat a
    timing file whose user-write bit is clear fails with "log is already
    complete, cannot be restarted". *)
Theorem local_exit_marks_complete os msg buf len c fs dir :
  log_io c = true -> iolog_dir_fd c = Some dir ->
  is_Some (timing_mode fs !! dir) ->
  let r := store_exit_local os msg buf len c fs in
  r.1.1 = true
  /\ (fchmodat_ok os = true ->
      exists mode,
        timing_mode r.2 !! dir = Some mode
        /\ Z.land mode S_IWUSR = 0%Z /\ Z.land mode S_IWGRP = 0%Z
        /\ Z.land mode S_IWOTH = 0%Z)
  /\ (fchmodat_ok os = false -> r.2 = fs)
  /\ (forall os' rmsg c0 fs' st_mode,
        calloc_ok os' = true -> strdup_ok os' = true ->
        iolog_openat_ok os' = true -> fstatat_ok os' = true ->
        timing_mode fs' !! PB.log_id rmsg = Some st_mode ->
        Z.land st_mode S_IWUSR = 0%Z ->
        let r' := store_restart_local os' rmsg buf len c0 fs' in
        r'.1.1 = false
        /\ errstr r'.1.2
           = Some "log is already complete, cannot be restarted").
Proof.
  intros Hio Hdir Htiming r. subst r. unfold store_exit_local.
  rewrite Hio, Hdir. rewrite (bool_decide_true _ Htiming), andb_true_r.
  split; [by destruct (fchmodat_ok os) |].
  split; [|split].
  - intros ->. cbn. rewrite lookup_insert_eq. eexists. split; [done |].
    repeat split; by apply CLR_write_bits.
  - by intros ->.
  - intros os' rmsg c0 fs' st_mode Hcalloc Hstrdup Hopen Hstat Hmode Hclear.
    unfold store_restart_local.
    rewrite Hcalloc, Hstrdup, Hopen, Hstat, Hmode. cbn [negb].
    unfold ISSET. by rewrite Hclear.
Qed.

(** ** The local sink: I/O buffers *)

Lemma iolog_write_errstr ok iofd bs c c' :
  iolog_write ok iofd bs c = Some c' -> errstr c' = errstr c.
Proof.
  unfold iolog_write. intros H. by repeat case_match; simplify_eq/=.
Qed.

Lemma iolog_create_errstr os iofd c c' :
  iolog_create os iofd c = Some c' -> errstr c' = errstr c.
Proof.
  unfold iolog_create. intros H. by repeat case_match; simplify_eq/=.
Qed.

Lemma Qlt_bool_true (a b : Q) : Qlt_bool a b = true <-> (a < b)%Q.
Proof.
  unfold Qlt_bool. rewrite Qlt_alt. by destruct (a ?= b)%Q.
Qed.

(** C9.  A call of the local I/O buffer handler whose log file is open
    (or can be opened), whose timing line fits and whose two writes
    succeed: with a drop probability above zero and a sampled value
    below it, the call fails and the error message of the closure is
    the one it had, none if none was set; with the default probability,
    zero, the call succeeds whatever value is sampled. *)
Theorem store_iobuf_local_random_drop random_drop os iofd iobuf buf buflen
    c fs c1 c2 c3 :
  match iolog_files c !! iofd with
  | Some f =>
      if negb (enabled f) then iolog_create os iofd c else Some c
  | None => None
  end = Some c1 ->
  (String.length (iobuf_timing_line iofd iobuf) < 1024)%nat ->
  iolog_write (iolog_write_data_ok os) iofd (PB.data iobuf) c1 = Some c2 ->
  iolog_write (iolog_write_timing_ok os) IOFD_TIMING
    (bytes_of_string (iobuf_timing_line iofd iobuf)) c2 = Some c3 ->
  ((0 < random_drop)%Q -> (randval os < random_drop)%Q ->
   let r := store_iobuf_local random_drop os iofd iobuf buf buflen c fs in
   r.1.1 = false /\ errstr r.1.2 = errstr c)
  /\ (let r := store_iobuf_local random_drop_default os iofd iobuf buf
                 buflen c fs in
      r.1.1 = true).
Proof.
  intros Hopen Hlen Hw1 Hw2.
  assert (Herr : errstr c3 = errstr c).
  { rewrite (iolog_write_errstr _ _ _ _ _ Hw2),
      (iolog_write_errstr _ _ _ _ _ Hw1).
    destruct (iolog_files c !! iofd) as [f|]; [|discriminate].
    destruct (negb (enabled f)).
    - by apply iolog_create_errstr in Hopen.
    - by injection Hopen as <-. }
  assert (Hfmt :
            (Z.of_nat (String.length (iobuf_timing_line iofd iobuf)) <? 0)%Z
            || (1024 <=? Z.of_nat
                           (String.length (iobuf_timing_line iofd iobuf)))%Z
            = false).
  { apply orb_false_iff. rewrite Z.ltb_ge, Z.leb_gt. lia. }
  split.
  - intros Hp Hr r. subst r. unfold store_iobuf_local.
    rewrite Hopen, Hfmt, Hw1, Hw2.
    rewrite (proj2 (Qlt_bool_true _ _) Hp), (proj2 (Qlt_bool_true _ _) Hr).
    cbn. done.
  - intros r. subst r. unfold store_iobuf_local.
    rewrite Hopen, Hfmt, Hw1, Hw2. reflexivity.
Qed.

(** ** The decimal conversions print the number they are given *)

Lemma dec_value_from_snoc (acc : Z) (s : string) (c : ascii) :
  dec_value_from acc (s ++ String c "")
  = (dec_value_from acc s * 10 + (Z.of_nat (nat_of_ascii c) - 48))%Z.
Proof.
  revert acc. induction s as [|x s IH]; intros acc; [reflexivity |].
  change (dec_value_from
            (acc * 10 + (Z.of_nat (nat_of_ascii x) - 48)) (s ++ String c "")
          = (dec_value_from
               (acc * 10 + (Z.of_nat (nat_of_ascii x) - 48)) s * 10
             + (Z.of_nat (nat_of_ascii c) - 48))%Z).
  apply IH.
Qed.

Lemma digit_char_value (d : Z) :
  (0 <= d < 10)%Z -> (Z.of_nat (nat_of_ascii (digit_char d)) - 48)%Z = d.
Proof.
  intros Hd. unfold digit_char.
  rewrite nat_ascii_embedding by lia. lia.
Qed.

Lemma dec_digits_value (fuel : nat) (n : Z) :
  (1 <= fuel)%nat -> (0 <= n < 2 ^ Z.of_nat fuel)%Z ->
  dec_value (dec_digits fuel n) = n.
Proof.
  revert n. induction fuel as [|fuel IH]; intros n Hfuel Hn; [lia |].
  cbn [dec_digits].
  destruct (Z.ltb_spec n 10) as [Hlt|Hge].
  - unfold dec_value. cbn [dec_value_from].
    rewrite digit_char_value by lia. lia.
  - unfold dec_value in *. rewrite dec_value_from_snoc.
    rewrite digit_char_value by (apply Z.mod_pos_bound; lia).
    assert (Hf1 : (1 <= fuel)%nat).
    { destruct fuel; [|lia]. cbn in Hn. lia. }
    rewrite IH; [| exact Hf1 |].
    + clear - Hge. Z.div_mod_to_equations. lia.
    + rewrite Nat2Z.inj_succ, Z.pow_succ_r in Hn by lia.
      split; [apply Z.div_pos; lia |].
      apply Z.div_lt_upper_bound; lia.
Qed.

Lemma fmt_u_value (n : Z) : (0 <= n)%Z -> dec_value (fmt_u n) = n.
Proof.
  intros Hn. unfold fmt_u. apply dec_digits_value; [lia |].
  split; [exact Hn |].
  rewrite Nat2Z.inj_succ, Z2Nat.id by apply Z.log2_nonneg.
  destruct (Z.eq_dec n 0%Z) as [->|Hn0]; [done |].
  apply Z.log2_spec. lia.
Qed.

Lemma fmt_d_value (z : Z) :
  ((0 <= z)%Z -> dec_value (fmt_d z) = z)
  /\ ((z < 0)%Z ->
      exists digits, fmt_d z = "-" ++ digits /\ dec_value digits = (- z)%Z).
Proof.
  unfold fmt_d. split; intros Hz.
  - rewrite (proj2 (Z.ltb_ge z 0)) by lia. by apply fmt_u_value.
  - rewrite (proj2 (Z.ltb_lt z 0)) by lia.
    eexists. split; [reflexivity |]. apply fmt_u_value. lia.
Qed.

(** ** The timing line of an I/O buffer *)

Lemma string_length_app (a b : string) :
  String.length (a ++ b) = (String.length a + String.length b)%nat.
Proof.
  induction a as [|x a IH]; [reflexivity |].
  change (S (String.length (a ++ b))
          = S (String.length a + String.length b)).
  by rewrite IH.
Qed.

Lemma string_app_assoc (a b c : string) : (a ++ b) ++ c = a ++ (b ++ c).
Proof.
  induction a as [|x a IH]; [reflexivity |].
  change (String x ((a ++ b) ++ c) = String x (a ++ (b ++ c))).
  by rewrite IH.
Qed.

Lemma zeros_snoc (k : nat) : zeros k ++ "0" = zeros (S k).
Proof.
  induction k as [|k IH]; [reflexivity |].
  change (String "0" (zeros k ++ "0") = String "0" (zeros (S k))).
  by rewrite IH.
Qed.

Lemma fixed_digits_0 (k : nat) : fixed_digits k 0 = zeros k.
Proof.
  induction k as [|k IH]; [reflexivity |].
  cbn [fixed_digits]. change (0 / 10)%Z with 0%Z. rewrite IH.
  apply zeros_snoc.
Qed.

Lemma length_fixed_digits (k : nat) (n : Z) :
  String.length (fixed_digits k n) = k.
Proof.
  revert n. induction k as [|k IH]; intros n; [reflexivity |].
  cbn [fixed_digits]. rewrite string_length_app, IH. cbn. lia.
Qed.

(** With fuel for its digits, [dec_digits] padded with zeros to [k]
    characters is the [k]-digit form of a number below [10 ^ k]. *)
Lemma dec_digits_padded (k fuel : nat) (n : Z) :
  (1 <= k)%nat -> (0 <= n < 10 ^ Z.of_nat k)%Z ->
  (1 <= fuel)%nat -> (n < 2 ^ Z.of_nat fuel)%Z ->
  zeros (k - String.length (dec_digits fuel n)) ++ dec_digits fuel n
  = fixed_digits k n.
Proof.
  revert fuel n.
  induction k as [|k IH]; intros fuel n Hk Hn Hfuel Hpow; [lia |].
  destruct fuel as [|fuel]; [lia |].
  cbn [dec_digits fixed_digits].
  destruct (Z.ltb_spec n 10) as [Hlt|Hge].
  - rewrite Z.div_small, Z.mod_small, fixed_digits_0 by lia.
    cbn [String.length]. by replace (S k - 1)%nat with k by lia.
  - rewrite string_length_app. cbn [String.length].
    replace (S k - (String.length (dec_digits fuel (n / 10)) + 1))%nat
      with (k - String.length (dec_digits fuel (n / 10)))%nat by lia.
    rewrite <- string_app_assoc. f_equal.
    assert (Hk1 : (1 <= k)%nat).
    { destruct k; [|lia]. cbn in Hn. lia. }
    assert (Hf1 : (1 <= fuel)%nat).
    { destruct fuel; [|lia]. cbn in Hpow. lia. }
    apply IH; try done.
    + rewrite Nat2Z.inj_succ, Z.pow_succ_r in Hn by lia.
      split; [apply Z.div_pos; lia |].
      apply Z.div_lt_upper_bound; lia.
    + rewrite Nat2Z.inj_succ, Z.pow_succ_r in Hpow by lia.
      apply Z.div_lt_upper_bound; lia.
Qed.

Lemma fmt_0d_fixed (k : nat) (n : Z) :
  (1 <= k)%nat -> (0 <= n < 10 ^ Z.of_nat k)%Z ->
  fmt_0d k n = fixed_digits k n.
Proof.
  intros Hk Hn. unfold fmt_0d, fmt_u.
  rewrite (proj2 (Z.ltb_ge n 0)) by lia. rewrite Z.abs_eq by lia.
  change (zeros (k - 0 - String.length
                           (dec_digits (S (Z.to_nat (Z.log2 n))) n))
          ++ dec_digits (S (Z.to_nat (Z.log2 n))) n = fixed_digits k n).
  rewrite Nat.sub_0_r.
  apply dec_digits_padded; try done; [lia |].
  rewrite Nat2Z.inj_succ, Z2Nat.id by apply Z.log2_nonneg.
  destruct (Z.eq_dec n 0%Z) as [->|Hn0]; [done |].
  apply Z.log2_spec. lia.
Qed.

Lemma iolog_write_lookup ok iofd bs c c' :
  iolog_write ok iofd bs c = Some c' ->
  exists f,
    iolog_files c !! iofd = Some f
    /\ iolog_files c'
       = <[iofd := {| enabled := enabled f; compressed := compressed f;
                      contents := (contents f ++ bs)%list |}]>
           (iolog_files c).
Proof.
  unfold iolog_write. intros H.
  repeat case_match; simplify_eq/=. eauto.
Qed.

Lemma iolog_create_contents os iofd c c' j :
  iolog_create os iofd c = Some c' ->
  contents <$> iolog_files c' !! j = contents <$> iolog_files c !! j.
Proof.
  unfold iolog_create. intros H.
  repeat case_match; simplify_eq/=.
  destruct (decide (j = iofd)) as [->|Hne].
  - rewrite list_lookup_insert_eq by (by eapply lookup_lt_Some).
    by rewrite H1.
  - by rewrite list_lookup_insert_ne.
Qed.

(** C8 (as amended).  Every successful call of the local I/O buffer
    handler for a stream slot other than the timing slot appends the data
    of the chunk to the file of the stream and one line to the timing
    file: the slot number, a space, the seconds of the delay as a signed
    decimal, a point, the nanoseconds as [%09d] prints them, a space, the
    number of data bytes and a newline.  The nanoseconds take at least
    nine characters; when they are in the range of a normalized delay,
    from 0 to 999999999, they are exactly the nine digits of the number,
    padded with zeros. *)
Theorem store_iobuf_local_timing_line random_drop os iofd iobuf buf buflen
    c fs c' fs' tf sf :
  store_iobuf_local random_drop os iofd iobuf buf buflen c fs
  = (true, c', fs') ->
  iofd <> IOFD_TIMING ->
  iolog_files c !! IOFD_TIMING = Some tf ->
  iolog_files c !! iofd = Some sf ->
  contents <$> iolog_files c' !! IOFD_TIMING
  = Some (contents tf
          ++ bytes_of_string
               (fmt_d (Z.of_nat iofd) ++ " "
                ++ fmt_d (PB.tv_sec (PB.iobuf_delay iobuf)) ++ "."
                ++ fmt_0d 9 (PB.tv_nsec (PB.iobuf_delay iobuf))
                ++ " " ++ fmt_u (Z.of_nat (length (PB.data iobuf)))
                ++ String "010" ""))%list
  /\ contents <$> iolog_files c' !! iofd
     = Some (contents sf ++ PB.data iobuf)%list
  /\ (9 <= String.length (fmt_0d 9 (PB.tv_nsec (PB.iobuf_delay iobuf))))%nat
  /\ ((0 <= PB.tv_nsec (PB.iobuf_delay iobuf) <= 999999999)%Z ->
      fmt_0d 9 (PB.tv_nsec (PB.iobuf_delay iobuf))
      = fixed_digits 9 (PB.tv_nsec (PB.iobuf_delay iobuf))
      /\ String.length (fmt_0d 9 (PB.tv_nsec (PB.iobuf_delay iobuf)))
         = 9%nat).
Proof.
  intros H Hne Htf Hsf.
  split; [|split; [|split]].
  - unfold store_iobuf_local in H.
    destruct (match iolog_files c !! iofd with
              | Some f => _ | None => _ end) as [c1|] eqn:Hopen;
      [|discriminate].
    destruct (_ || _); [discriminate |].
    destruct (iolog_write _ iofd _ c1) as [c2|] eqn:Hw1; [|discriminate].
    destruct (iolog_write _ IOFD_TIMING _ c2) as [c3|] eqn:Hw2;
      [|discriminate].
    assert (Hc' : iolog_files c' = iolog_files c3)
      by (repeat case_match; by simplify_eq/=).
    rewrite Hc'. clear H Hc'.
    assert (H1 : contents <$> iolog_files c1 !! IOFD_TIMING
                 = Some (contents tf)).
    { rewrite Hsf in Hopen. destruct (negb (enabled sf)).
      - by rewrite (iolog_create_contents _ _ _ _ _ Hopen), Htf.
      - injection Hopen as <-. by rewrite Htf. }
    apply iolog_write_lookup in Hw1 as (f1 & Hf1 & Hfiles1).
    apply iolog_write_lookup in Hw2 as (f2 & Hf2 & ->).
    rewrite list_lookup_insert_eq by (by eapply lookup_lt_Some).
    cbn. rewrite Hfiles1, list_lookup_insert_ne in Hf2 by done.
    rewrite Hf2 in H1. injection H1 as ->.
    by unfold iobuf_timing_line.
  - unfold store_iobuf_local in H.
    destruct (match iolog_files c !! iofd with
              | Some f => _ | None => _ end) as [c1|] eqn:Hopen;
      [|discriminate].
    destruct (_ || _); [discriminate |].
    destruct (iolog_write _ iofd _ c1) as [c2|] eqn:Hw1; [|discriminate].
    destruct (iolog_write _ IOFD_TIMING _ c2) as [c3|] eqn:Hw2;
      [|discriminate].
    assert (Hc' : iolog_files c' = iolog_files c3)
      by (repeat case_match; by simplify_eq/=).
    rewrite Hc'. clear H Hc'.
    assert (H1 : contents <$> iolog_files c1 !! iofd
                 = Some (contents sf)).
    { rewrite Hsf in Hopen. destruct (negb (enabled sf)).
      - by rewrite (iolog_create_contents _ _ _ _ _ Hopen), Hsf.
      - injection Hopen as <-. by rewrite Hsf. }
    apply iolog_write_lookup in Hw1 as (f1 & Hf1 & Hfiles1).
    apply iolog_write_lookup in Hw2 as (f2 & Hf2 & ->).
    rewrite list_lookup_insert_ne by done.
    rewrite Hfiles1.
    rewrite list_lookup_insert_eq by (by eapply lookup_lt_Some).
    cbn. rewrite Hf1 in H1. by injection H1 as ->.
  - assert (Hz : forall k, String.length (zeros k) = k)
      by (induction k; cbn; congruence).
    unfold fmt_0d. rewrite !string_length_app, Hz. lia.
  - intros Hnsec. rewrite fmt_0d_fixed by (cbn; lia).
    split; [done | apply length_fixed_digits].
Qed.

(** ** What the handlers do to the elapsed time and to the lock *)

(** The local sink advances the elapsed time by the delay of a window
    resize and of a suspend event that it stores. *)
Lemma store_winsize_local_elapsed os msg buf buflen c fs c' fs' :
  store_winsize_local os msg buf buflen c fs = (true, c', fs') ->
  elapsed_time c'
  = update_elapsed_time (PB.winsize_delay msg) (elapsed_time c).
Proof.
  unfold store_winsize_local, iolog_write. intros H.
  by repeat case_match; simplify_eq/=.
Qed.

Lemma store_suspend_local_elapsed os msg buf buflen c fs c' fs' :
  store_suspend_local os msg buf buflen c fs = (true, c', fs') ->
  elapsed_time c'
  = update_elapsed_time (PB.suspend_delay msg) (elapsed_time c).
Proof.
  unfold store_suspend_local, iolog_write. intros H.
  by repeat case_match; simplify_eq/=.
Qed.

(** The journal sink leaves the elapsed time as it is on both, while its
    replay counts their delays. *)
Lemma journal_write_elapsed os buf len c :
  elapsed_time (journal_write os buf len c).2 = elapsed_time c.
Proof.
  unfold journal_write, sys_fwrite. by repeat case_match.
Qed.

Lemma journal_winsize_elapsed os msg buf len c fs :
  elapsed_time (journal_winsize os msg buf len c fs).1.2 = elapsed_time c.
Proof.
  unfold journal_winsize.
  pose proof (journal_write_elapsed os buf len c) as H.
  by destruct (journal_write os buf len c).
Qed.

Lemma journal_suspend_elapsed os msg buf len c fs :
  elapsed_time (journal_suspend os msg buf len c fs).1.2 = elapsed_time c.
Proof.
  unfold journal_suspend.
  pose proof (journal_write_elapsed os buf len c) as H.
  by destruct (journal_write os buf len c).
Qed.

Lemma seek_advance_winsize e elapsed :
  seek_advance (PB.TYPE_WINSIZE_EVENT e) elapsed
  = update_elapsed_time (PB.winsize_delay e) elapsed.
Proof. reflexivity. Qed.

Lemma seek_advance_suspend e elapsed :
  seek_advance (PB.TYPE_SUSPEND_EVENT e) elapsed
  = update_elapsed_time (PB.suspend_delay e) elapsed.
Proof. reflexivity. Qed.

(** A journal that [journal_create] opens is locked; one that
    [journal_restart] opens on a new connection is not. *)
Lemma journal_seek_keeps_lock os target c fs :
  fd_locked ∘ f_fd <$> journal (journal_seek os target c fs).2
  = fd_locked ∘ f_fd <$> journal c.
Proof.
  destruct (journal_seek_keeps os target c fs) as [_ H].
  destruct (journal (journal_seek os target c fs).2),
    (journal c); simplify_eq/=; congruence.
Qed.

Lemma journal_restart_unlocked os msg buf len c fs f :
  journal c = None ->
  journal (journal_restart os msg buf len c fs).1.2 = Some f ->
  fd_locked (f_fd f) = false.
Proof.
  intros Hnone. unfold journal_restart, sys_open, journal_fdopen.
  destruct (PATH_MAX <=? _)%Z; [cbn; congruence |].
  destruct (open_ok os); [|cbn; congruence].
  destruct (names fs !! _) as [ino|]; [|cbn; congruence].
  destruct (strdup_ok os); [|cbn; congruence].
  destruct (fdopen_ok os); [|cbn; congruence]. cbn [negb].
  match goal with
  | |- context [journal_seek os ?t ?c0 fs] =>
      pose proof (journal_seek_keeps_lock os t c0 fs) as Hl;
      destruct (journal_seek os t c0 fs) as [ok c1]
  end.
  cbn in Hl. destruct ok; cbn; intros Hf; rewrite Hf in Hl; cbn in Hl;
    congruence.
Qed.

(** ** The elapsed time at the end of a session *)

Lemma journal_finish_elapsed os c fs :
  elapsed_time (journal_finish os c fs).1.2 = elapsed_time c.
Proof.
  unfold journal_finish, sys_fflush. by repeat case_match.
Qed.

Lemma journal_create_elapsed os c fs :
  elapsed_time (journal_create os c fs).1.2 = elapsed_time c.
Proof.
  unfold journal_create, journal_fdopen. by repeat case_match; simplify_eq/=.
Qed.

(** The journal sink: only I/O buffers advance the elapsed time. *)
Lemma journal_handle_elapsed os msg raw len c fs c' fs' :
  handle cms_journal os msg raw len c fs = (true, c', fs') ->
  is_restart msg = false ->
  elapsed_time c' = add_iobuf_delay (elapsed_time c) msg.
Proof.
  intros H Hr. destruct msg; try discriminate; cbn in H |- *.
  - unfold journal_accept in H.
    pose proof (journal_create_elapsed os c fs) as Hc.
    destruct (journal_create os c fs) as [[ok c1] fs1]. cbn in Hc.
    destruct ok; [|discriminate]. cbn in H.
    pose proof (journal_write_elapsed os raw len c1) as Hw.
    destruct (journal_write os raw len c1) as [ok c2]. cbn in Hw.
    repeat case_match; simplify_eq/=; congruence.
  - unfold journal_reject in H.
    pose proof (journal_create_elapsed os c fs) as Hc.
    destruct (journal_create os c fs) as [[ok c1] fs1]. cbn in Hc.
    destruct ok; [|discriminate]. cbn in H.
    pose proof (journal_write_elapsed os raw len c1) as Hw.
    destruct (journal_write os raw len c1) as [ok c2]. cbn in Hw.
    repeat case_match; simplify_eq/=; congruence.
  - unfold journal_exit in H.
    pose proof (journal_write_elapsed os raw len c) as Hw.
    destruct (journal_write os raw len c) as [ok c1]. cbn in Hw.
    destruct ok; [|discriminate]. cbn in H.
    pose proof (journal_finish_elapsed os c1 fs) as Hf.
    destruct (journal_finish os c1 fs) as [[ok c2] fs2]. cbn in Hf.
    repeat case_match; simplify_eq/=; congruence.
  - unfold journal_alert in H.
    pose proof (journal_write_elapsed os raw len c) as Hw.
    destruct (journal_write os raw len c) as [ok c1]. cbn in Hw.
    simplify_eq/=. congruence.
  - unfold journal_iobuf in H.
    pose proof (journal_write_elapsed os raw len c) as Hw.
    destruct (journal_write os raw len c) as [ok c1]. cbn in Hw.
    destruct ok; [|discriminate]. simplify_eq/=. congruence.
  - pose proof (journal_suspend_elapsed os e raw len c fs) as Hs.
    rewrite H in Hs. exact Hs.
  - pose proof (journal_winsize_elapsed os e raw len c fs) as Hs.
    rewrite H in Hs. exact Hs.
Qed.

(** X12.  At the end of a session that the journal sink has handled
    successfully and that has no restart message, the elapsed time of
    the closure is the one from before the session advanced by the delays
    of the I/O buffers, in order: the delays of suspend and window size
    events are not added. *)
Lemma journal_session_elapsed evs c fs c' fs' :
  run_session cms_journal evs c fs = (true, c', fs') ->
  Forall (fun e => is_restart (ev_msg e) = false) evs ->
  elapsed_time c' = foldl add_iobuf_delay (elapsed_time c) (ev_msg <$> evs).
Proof.
  intros H Hr. revert c fs H.
  induction Hr as [|e evs He Hevs IH]; intros c fs H.
  - cbn in H. by simplify_eq.
  - cbn [run_session] in H.
    destruct (handle cms_journal _ _ _ _ c fs) as [[ok c1] fs1] eqn:Hstep.
    destruct ok; [|discriminate].
    rewrite fmap_cons. cbn [foldl].
    rewrite <- (journal_handle_elapsed _ _ _ _ _ _ _ _ Hstep He).
    by apply (IH c1 fs1).
Qed.

(** The local sink: every stored I/O buffer, window resize and suspend
    event advances the elapsed time by its delay. *)
Lemma local_handle_elapsed random_drop os msg raw len c fs c' fs' :
  handle (cms_local random_drop) os msg raw len c fs = (true, c', fs') ->
  is_restart msg = false ->
  elapsed_time c' = add_delay (elapsed_time c) msg.
Proof.
  intros H Hr. destruct msg; try discriminate; cbn in H |- *.
  - unfold store_accept_local, iolog_init in H.
    by repeat case_match; simplify_eq/=.
  - unfold store_reject_local in H. by repeat case_match; simplify_eq/=.
  - unfold store_exit_local in H. by repeat case_match; simplify_eq/=.
  - unfold store_alert_local in H. by repeat case_match; simplify_eq/=.
  - unfold store_iobuf_local, iolog_write, iolog_create in H.
    by repeat case_match; simplify_eq/=.
  - by apply store_suspend_local_elapsed in H.
  - by apply store_winsize_local_elapsed in H.
Qed.

(** X13.  At the end of a session that the local sink has handled
    successfully and that has no restart message, the elapsed time of
    the closure is the one from before the session advanced by the delays
    of the I/O buffers, the suspend events and the window size events,
    in order. *)
Lemma local_session_elapsed random_drop evs c fs c' fs' :
  run_session (cms_local random_drop) evs c fs = (true, c', fs') ->
  Forall (fun e => is_restart (ev_msg e) = false) evs ->
  elapsed_time c' = foldl add_delay (elapsed_time c) (ev_msg <$> evs).
Proof.
  intros H Hr. revert c fs H.
  induction Hr as [|e evs He Hevs IH]; intros c fs H.
  - cbn in H. by simplify_eq.
  - cbn [run_session] in H.
    destruct (handle (cms_local random_drop) _ _ _ _ c fs)
      as [[ok c1] fs1] eqn:Hstep.
    destruct ok; [|discriminate].
    rewrite fmap_cons. cbn [foldl].
    rewrite <- (local_handle_elapsed _ _ _ _ _ _ _ _ _ Hstep He).
    by apply (IH c1 fs1).
Qed.

(** ** The lock of a journal across a session *)

Lemma journal_write_fd os buf len c :
  f_fd <$> journal (journal_write os buf len c).2 = f_fd <$> journal c.
Proof.
  unfold journal_write, sys_fwrite.
  destruct (journal c) as [f|] eqn:Hj; [|cbn; by rewrite Hj].
  repeat case_match; simplify_eq/=; by rewrite ?Hj.
Qed.

Lemma journal_finish_fd os c fs :
  f_fd <$> journal (journal_finish os c fs).1.2 = f_fd <$> journal c.
Proof.
  unfold journal_finish, sys_fflush.
  destruct (journal c) as [f|] eqn:Hj; [|cbn; by rewrite Hj].
  repeat case_match; simplify_eq/=; by rewrite ?Hj.
Qed.

(** A message that neither opens nor resumes a journal leaves the
    descriptor of the journal, and with it the lock, as it is. *)
Lemma journal_handle_keeps_fd os msg raw len c fs :
  opens msg = false -> is_restart msg = false ->
  f_fd <$> journal (handle cms_journal os msg raw len c fs).1.2
  = f_fd <$> journal c.
Proof.
  intros Ho Hr. destruct msg; try discriminate; cbn.
  - unfold journal_exit.
    pose proof (journal_write_fd os raw len c) as Hw.
    destruct (journal_write os raw len c) as [ok c1]. cbn in Hw.
    destruct ok; [|done]. cbn.
    pose proof (journal_finish_fd os c1 fs) as Hf.
    destruct (journal_finish os c1 fs) as [[ok c2] fs2]. cbn in Hf.
    destruct ok; cbn; congruence.
  - unfold journal_alert.
    pose proof (journal_write_fd os raw len c) as Hw.
    by destruct (journal_write os raw len c) as [ok c1].
  - unfold journal_iobuf.
    pose proof (journal_write_fd os raw len c) as Hw.
    destruct (journal_write os raw len c) as [ok c1]. by destruct ok.
  - unfold journal_suspend.
    pose proof (journal_write_fd os raw len c) as Hw.
    by destruct (journal_write os raw len c) as [ok c1].
  - unfold journal_winsize.
    pose proof (journal_write_fd os raw len c) as Hw.
    by destruct (journal_write os raw len c) as [ok c1].
Qed.

(** ** Creating and finishing a journal: the names in the relay directory *)

Lemma length_relay_path (dir : string) :
  String.length (relay_dir ++ "/" ++ dir ++ "/" ++ RELAY_TEMPLATE)
  = (String.length relay_dir + String.length dir
     + String.length RELAY_TEMPLATE + 2)%nat.
Proof. rewrite !string_length_app. cbn. lia. Qed.

Lemma journal_mkstemp_fresh os dir pathlen fs fd p fs' :
  journal_mkstemp os dir pathlen fs = Some (fd, p, fs') ->
  names fs !! p = None
  /\ inodes fs !! fd_ino fd = None
  /\ fd_locked fd = false
  /\ names fs' = <[p := fd_ino fd]> (names fs)
  /\ inodes fs' = <[fd_ino fd := []]> (inodes fs)
  /\ timing_mode fs' = timing_mode fs
  /\ String.length p
     = String.length (relay_dir ++ "/" ++ dir ++ "/" ++ RELAY_TEMPLATE)
  /\ (Z.of_nat (String.length p) < pathlen)%Z.
Proof.
  unfold journal_mkstemp, sys_mkstemp. intros H.
  repeat case_match; simplify_eq/=.
  match goal with
  | H : _ && _ = true |- _ =>
      apply andb_prop in H as [Hlen Hnew];
      apply bool_decide_eq_true in Hlen, Hnew
  end.
  split; [done|]. split.
  { apply not_elem_of_dom, is_fresh. }
  repeat split; try done. lia.
Qed.

Lemma journal_create_new os c fs c' fs' :
  journal_create os c fs = (true, c', fs') ->
  exists f p,
    journal c' = Some f /\ journal_path c' = Some p
    /\ names fs !! p = None
    /\ names fs' = <[p := fd_ino (f_fd f)]> (names fs)
    /\ inodes fs !! fd_ino (f_fd f) = None
    /\ inodes fs' = <[fd_ino (f_fd f) := []]> (inodes fs)
    /\ fd_locked (f_fd f) = true /\ f_pos f = 0%nat /\ f_wbuf f = []
    /\ String.length p
       = String.length (relay_dir ++ "/incoming/" ++ RELAY_TEMPLATE)
    /\ (Z.of_nat (String.length p) < PATH_MAX)%Z.
Proof.
  unfold journal_create. intros H.
  destruct (journal_mkstemp os "incoming" PATH_MAX fs)
    as [[[fd p] fs1]|] eqn:Hmk; [|discriminate].
  apply journal_mkstemp_fresh in Hmk
    as (Hp & Hino & _ & Hnames & Hinodes & _ & Hlen & Hmax).
  unfold sudo_lock_file, journal_fdopen in H.
  repeat case_match; simplify_eq/=.
  eexists _, p. cbn. repeat split; try done.
Qed.

(** X1.  A journal that [journal_create] creates is a new file: its name
    did not exist before, is as long as the template in the incoming
    directory and shorter than PATH_MAX; it is the only name added and
    names a new, empty inode; the stream stands at offset 0 with nothing
    buffered and its descriptor holds the lock. *)
Theorem journal_create_fresh os c fs c' fs' :
  journal_create os c fs = (true, c', fs') ->
  exists f p,
    journal c' = Some f /\ journal_path c' = Some p
    /\ names fs !! p = None
    /\ names fs' = <[p := fd_ino (f_fd f)]> (names fs)
    /\ inodes fs !! fd_ino (f_fd f) = None
    /\ inodes fs' = <[fd_ino (f_fd f) := []]> (inodes fs)
    /\ fd_locked (f_fd f) = true /\ f_pos f = 0%nat /\ f_wbuf f = []
    /\ String.length p
       = String.length (relay_dir ++ "/incoming/" ++ RELAY_TEMPLATE)
    /\ (Z.of_nat (String.length p) < PATH_MAX)%Z.
Proof. exact (journal_create_new os c fs c' fs'). Qed.

(** X2.  When [journal_create] fails, no file is left behind: the names
    of the file system are those from before the call (a journal that
    could not be locked or opened as a stream has been unlinked), and the
    closure carries one of three messages. *)
Theorem journal_create_cleans_up os c fs c' fs' :
  journal_create os c fs = (false, c', fs') ->
  names fs' = names fs
  /\ ((errstr c' = Some "unable to create journal file" /\ fs' = fs)
      \/ (errstr c' = Some "unable to lock journal file"
          /\ lock_ok os = false)
      \/ (errstr c' = Some "unable to allocate memory"
          /\ (strdup_ok os = false \/ fdopen_ok os = false))).
Proof.
  unfold journal_create. intros H.
  destruct (journal_mkstemp os "incoming" PATH_MAX fs)
    as [[[fd p] fs1]|] eqn:Hmk.
  - apply journal_mkstemp_fresh in Hmk
      as (Hp & _ & _ & Hnames & _ & _ & _ & _).
    assert (Hdel : names (sys_unlink p fs1) = names fs).
    { cbn. rewrite Hnames. by apply delete_insert_id. }
    unfold sudo_lock_file, journal_fdopen in H.
    repeat case_match; simplify_eq/=; (split; [exact Hdel|]);
      repeat match goal with
             | H : negb _ = true |- _ => apply negb_true_iff in H
             end; auto 6.
  - simplify_eq/=. auto.
Qed.

Lemma journal_finish_moved os c fs c' fs' old ino :
  journal_path c = Some old -> names fs !! old = Some ino ->
  journal_finish os c fs = (true, c', fs') ->
  exists f new,
    journal c = Some f /\ journal_path c' = Some new
    /\ new <> old /\ names fs !! new = None
    /\ names fs' = <[new := ino]> (delete old (names fs))
    /\ names fs' !! old = None
    /\ journal c' = Some {| f_fd := f_fd f; f_pos := 0; f_wbuf := [] |}
    /\ inodes fs' !! fd_ino (f_fd f)
       = Some (write_at (f_pos f - length (f_wbuf f)) (f_wbuf f)
                 (default [] (inodes fs !! fd_ino (f_fd f))))
    /\ String.length new
       = String.length (relay_dir ++ "/outgoing/" ++ RELAY_TEMPLATE).
Proof.
  unfold journal_finish. intros Hold Hino H. rewrite Hold in H.
  destruct (journal c) as [f|] eqn:Hj; [|discriminate].
  unfold sys_fflush in H.
  destruct (fflush_ok os); [|discriminate].
  match type of H with
  | context [journal_mkstemp os "outgoing" PATH_MAX ?fs1] =>
      destruct (journal_mkstemp os "outgoing" PATH_MAX fs1)
        as [[[fd new] fs2]|] eqn:Hmk; [|discriminate]
  end.
  apply journal_mkstemp_fresh in Hmk
    as (Hnew & Hfresh & _ & Hnames & Hinodes & _ & Hlen & _).
  cbn in Hnew, Hfresh, Hnames, Hinodes.
  assert (Hne : new <> old) by congruence.
  unfold sys_rename in H. destruct (rename_ok os); [|discriminate].
  rewrite Hnames, lookup_insert_ne, Hino in H by done.
  assert (Hfs2 : names
                   (set_names (<[new := ino]> (delete old (names fs2))) fs2)
                 = <[new := ino]> (delete old (names fs))).
  { cbn. rewrite Hnames.
    rewrite delete_insert_ne by done.
    by rewrite insert_insert_eq. }
  assert (Hin2 : inodes fs2 !! fd_ino (f_fd f)
                 = Some (write_at (f_pos f - length (f_wbuf f)) (f_wbuf f)
                           (default [] (inodes fs !! fd_ino (f_fd f))))).
  { rewrite Hinodes. rewrite lookup_insert_ne.
    - by rewrite lookup_insert_eq.
    - intros Heq. rewrite <- Heq in Hfresh.
      by rewrite lookup_insert_eq in Hfresh. }
  exists f, new.
  repeat case_match; simplify_eq/=;
    (repeat split; try done;
     rewrite ?Hnames;
     [by rewrite delete_insert_ne, insert_insert_eq
     |rewrite lookup_insert_ne, lookup_delete_eq by done; done]).
Qed.


(** X3.  A successful [journal_finish] moves the journal: the name the
    closure held is gone, a name that did not exist before (as long as
    the template in the outgoing directory) names the inode instead, and
    the closure holds that name; the buffered bytes have reached the
    file, and the stream is rewound to offset 0 on the same
    descriptor. *)
Theorem journal_finish_moves os c fs c' fs' old ino :
  journal_path c = Some old -> names fs !! old = Some ino ->
  journal_finish os c fs = (true, c', fs') ->
  exists f new,
    journal c = Some f /\ journal_path c' = Some new
    /\ new <> old /\ names fs !! new = None
    /\ names fs' = <[new := ino]> (delete old (names fs))
    /\ names fs' !! old = None
    /\ journal c' = Some {| f_fd := f_fd f; f_pos := 0; f_wbuf := [] |}
    /\ inodes fs' !! fd_ino (f_fd f)
       = Some (write_at (f_pos f - length (f_wbuf f)) (f_wbuf f)
                 (default [] (inodes fs !! fd_ino (f_fd f))))
    /\ String.length new
       = String.length (relay_dir ++ "/outgoing/" ++ RELAY_TEMPLATE).
Proof. exact (journal_finish_moved os c fs c' fs' old ino). Qed.

(** X4.  The ways [journal_finish] fails on an open journal.  A failed
    flush leaves everything as it is; a failure to create the outgoing
    name or to rename leaves the names of the file system and the path in
    the closure as they are; only when the new path has another length
    than the old one and cannot be duplicated does the call fail after
    the journal has been moved, and the closure holds no path then. *)
Theorem journal_finish_failure os c fs c' fs' f old :
  journal c = Some f -> journal_path c = Some old ->
  journal_finish os c fs = (false, c', fs') ->
  (errstr c' = Some "unable to write journal file"
   /\ fs' = fs /\ journal c' = Some f /\ journal_path c' = Some old)
  \/ (errstr c' = Some "unable to rename journal file"
      /\ names fs' = names fs /\ journal_path c' = Some old)
  \/ (errstr c' = Some "unable to allocate memory"
      /\ journal_path c' = None
      /\ exists new,
           String.length new <> String.length old
           /\ names fs' !! old = None
           /\ is_Some (names fs !! old)
           /\ names fs' !! new = names fs !! old).
Proof.
  unfold journal_finish. intros Hj Hold H. rewrite Hj, Hold in H.
  unfold sys_fflush in H.
  destruct (fflush_ok os); [|simplify_eq/=; left; by rewrite Hj].
  match type of H with
  | context [journal_mkstemp os "outgoing" PATH_MAX ?fs1] =>
      destruct (journal_mkstemp os "outgoing" PATH_MAX fs1)
        as [[[fd new] fs2]|] eqn:Hmk;
      [|simplify_eq/=; right; left; by rewrite Hold]
  end.
  apply journal_mkstemp_fresh in Hmk
    as (Hnew & _ & _ & Hnames & _ & _ & _ & _).
  cbn in Hnew, Hnames.
  unfold sys_rename in H.
  destruct (rename_ok os && bool_decide (is_Some (names fs2 !! old)))
    eqn:Hren.
  - apply andb_prop in Hren as [Hok [ino Hino]%bool_decide_eq_true].
    rewrite Hok, Hino in H.
    case_bool_decide as Hlen; [discriminate|].
    destruct (strdup_ok os); [discriminate|]. simplify_eq/=.
    right; right. repeat split; try done.
    assert (Hne : new <> old) by (intros ->; done).
    rewrite Hnames, lookup_insert_ne in Hino by done.
    exists new. repeat split; [congruence | | by eexists |].
    + rewrite lookup_insert_ne, lookup_delete_eq by done. done.
    + by rewrite lookup_insert_eq.
  - assert (H' : (false, c', fs')
                 = (false,
                    set_errstr "unable to rename journal file"
                      (set_journal (Some (sys_rewind
                         {| f_fd := f_fd f; f_pos := f_pos f;
                            f_wbuf := [] |})) c),
                    sys_unlink new fs2)).
    { rewrite <- H. apply andb_false_iff in Hren as [->|Hn]; [done|].
      apply bool_decide_eq_false in Hn.
      destruct (rename_ok os); [|done].
      destruct (names fs2 !! old); [|done]. by destruct Hn. }
    simplify_eq/=. right; left. repeat split; [|done].
    rewrite Hnames. by apply delete_insert_id.
Qed.

(** X5.  ("This should always be true.")  For a journal whose path
    [journal_create] has made, the outgoing path has the length of the
    incoming one: [journal_finish] never needs to duplicate the path, so
    whenever it fails the journal is still under its old name and the
    closure still holds that name; and when it succeeds the closure holds
    a path of the same length. *)
Theorem journal_finish_after_create os0 c0 fs0 c1 fs1 os c fs :
  journal_create os0 c0 fs0 = (true, c1, fs1) ->
  journal_path c = journal_path c1 ->
  let r := journal_finish os c fs in
  (r.1.1 = false ->
   names r.2 = names fs /\ journal_path r.1.2 = journal_path c)
  /\ (r.1.1 = true ->
      String.length <$> journal_path r.1.2
      = String.length <$> journal_path c).
Proof.
  intros Hc Hp.
  apply journal_create_new in Hc
    as (f1 & p & _ & Hp1 & _ & _ & _ & _ & _ & _ & _ & Hlen & _).
  rewrite Hp1 in Hp. unfold journal_finish. rewrite Hp.
  destruct (journal c) as [f|] eqn:Hj; [|cbn; by rewrite Hp].
  unfold sys_fflush.
  destruct (fflush_ok os); [|cbn; by rewrite Hp].
  match goal with
  | |- context [journal_mkstemp os "outgoing" PATH_MAX ?fs1] =>
      destruct (journal_mkstemp os "outgoing" PATH_MAX fs1)
        as [[[fd new] fs2]|] eqn:Hmk; [|cbn; by rewrite Hp]
  end.
  apply journal_mkstemp_fresh in Hmk
    as (Hnew & _ & _ & Hnames & _ & _ & Hlen' & _).
  cbn in Hnew, Hnames.
  assert (Heq : String.length p = String.length new).
  { rewrite Hlen.
    change (relay_dir ++ "/incoming/" ++ RELAY_TEMPLATE)
      with (relay_dir ++ "/" ++ "incoming" ++ "/" ++ RELAY_TEMPLATE).
    by rewrite Hlen', !length_relay_path. }
  destruct (sys_rename os p new fs2) as [fs3|] eqn:Hren.
  - rewrite bool_decide_eq_true_2 by done. cbn.
    split; [done|]. intros _. by rewrite Heq.
  - cbn. split; [|done]. intros _. split; [|done].
    rewrite Hnames. by apply delete_insert_id.
Qed.


(** ** What a seek in a journal can come to *)

Lemma journal_seek_loop_outcome os target fuel bufsize rest e r :
  journal_seek_loop os fuel target bufsize rest e = Some r ->
  (length (seek_rest r) <= length rest)%nat
  /\ (seek_ret r = false ->
      seek_errstr r = Some "unexpected EOF reading journal file"
      \/ seek_errstr r = Some "error reading journal file"
      \/ seek_errstr r = Some "client message too large"
      \/ seek_errstr r = Some "unable to allocate memory"
      \/ seek_errstr r = Some "invalid journal file, unable to restart").
Proof.
  revert bufsize rest e.
  induction fuel as [|fuel IH]; intros bufsize rest e H; [discriminate |].
  cbn [journal_seek_loop] in H. unfold seek_short_read in H.
  destruct (sys_fread 4 rest) as [[len_bytes rest1]|] eqn:Hr1.
  - apply sys_fread_length in Hr1.
    destruct (MESSAGE_SIZE_MAX <? ntohl len_bytes)%Z.
    { simplify_eq/=. split; [lia | auto 6]. }
    destruct (ntohl len_bytes =? 0)%Z.
    + destruct (client_message__unpack []) as [msg|].
      * destruct (sudo_timespeccmp_ge _ _).
        -- destruct (sudo_timespeccmp_eq _ _); simplify_eq/=;
             (split; [lia | intros; auto 6; discriminate]).
        -- apply IH in H as [Hlen Hmsg]. split; [lia | done].
      * simplify_eq/=. split; [lia | auto 6].
    + destruct (_ && _). { simplify_eq/=. split; [lia | auto 6]. }
      destruct (sys_fread _ rest1) as [[buf rest2]|] eqn:Hr2.
      * apply sys_fread_length in Hr2.
        destruct (client_message__unpack buf) as [msg|].
        -- destruct (sudo_timespeccmp_ge _ _).
           ++ destruct (sudo_timespeccmp_eq _ _); simplify_eq/=;
                (split; [lia | intros; auto 6; discriminate]).
           ++ apply IH in H as [Hlen Hmsg]. split; [lia | done].
        -- simplify_eq/=. split; [lia | auto 6].
      * destruct (fread_eof os); simplify_eq/=; (split; [lia | auto 6]).
  - destruct (fread_eof os); simplify_eq/=; (split; [lia | auto 6]).
Qed.

Lemma journal_seek_cases os target c fs f :
  journal c = Some f ->
  let file := default [] (inodes fs !! fd_ino (f_fd f)) in
  let r := journal_seek os target c fs in
  (r.1 = true -> elapsed_time r.2 = target /\ errstr r.2 = errstr c)
  /\ (r.1 = false ->
      errstr r.2 = Some "unexpected EOF reading journal file"
      \/ errstr r.2 = Some "error reading journal file"
      \/ errstr r.2 = Some "client message too large"
      \/ errstr r.2 = Some "unable to allocate memory"
      \/ errstr r.2 = Some "invalid journal file, unable to restart")
  /\ exists f',
       journal r.2 = Some f' /\ f_fd f' = f_fd f /\ f_wbuf f' = f_wbuf f
       /\ ((f_pos f <= length file)%nat ->
           (f_pos f <= f_pos f' <= length file)%nat).
Proof.
  intros Hj file r. subst r. unfold journal_seek. rewrite Hj. fold file.
  destruct (journal_seek_loop_total os target
              (S (length (drop (f_pos f) file))) 0
              (drop (f_pos f) file) (elapsed_time c)) as [e He]; [lia|].
  rewrite He. cbn [fst snd].
  destruct (journal_seek_loop_outcome _ _ _ _ _ _ _ He) as [Hlen Hmsg].
  split; [|split].
  - intros Hret.
    destruct (journal_seek_loop_sound _ _ _ _ _ _ _ He Hret) as [Ht Hn].
    by rewrite Hn.
  - intros Hret. specialize (Hmsg Hret).
    destruct (seek_errstr e) as [s|]; [exact Hmsg|].
    by destruct Hmsg as [?|[?|[?|[?|?]]]].
  - eexists. split; [by destruct (seek_errstr e)|].
    cbn. repeat split; rewrite length_drop in Hlen; lia.
Qed.

(** X6.  What [journal_seek] can come to, whatever bytes the journal
    holds and whatever the environment answers.  When it returns true the
    elapsed time is the target and no message has been stored; when it
    returns false the closure carries one of five messages; and the
    stream stays on its descriptor, with a position that has not moved
    backwards and is within the file. *)
Theorem journal_seek_outcome os target c fs f :
  journal c = Some f ->
  let file := default [] (inodes fs !! fd_ino (f_fd f)) in
  let r := journal_seek os target c fs in
  (r.1 = true -> elapsed_time r.2 = target /\ errstr r.2 = errstr c)
  /\ (r.1 = false ->
      errstr r.2 = Some "unexpected EOF reading journal file"
      \/ errstr r.2 = Some "error reading journal file"
      \/ errstr r.2 = Some "client message too large"
      \/ errstr r.2 = Some "unable to allocate memory"
      \/ errstr r.2 = Some "invalid journal file, unable to restart")
  /\ exists f',
       journal r.2 = Some f' /\ f_fd f' = f_fd f /\ f_wbuf f' = f_wbuf f
       /\ ((f_pos f <= length file)%nat ->
           (f_pos f <= f_pos f' <= length file)%nat).
Proof. exact (journal_seek_cases os target c fs f). Qed.

(** X7.  When the seek comes to a frame that the decoder rejects, after
    frames whose accumulated times are all below the target, it fails
    with "invalid journal file, unable to restart"; the position is
    behind that frame, and the elapsed time is that of the frames
    before it. *)
Theorem journal_seek_undecodable os target c fs f ps ms p tail :
  malloc_ok os = true ->
  journal c = Some f -> f_pos f = 0%nat ->
  inodes fs !! fd_ino (f_fd f)
  = Some (encode_frames ps ++ frame p ++ tail)%list ->
  decodes_to ps ms ->
  Forall (fun t => timespec_lt t target)
    (elapsed_times (elapsed_time c) ms) ->
  client_message__unpack p = None ->
  (Z.of_nat (length p) <= MESSAGE_SIZE_MAX)%Z -> fits_uint32 p ->
  let r := journal_seek os target c fs in
  r.1 = false
  /\ errstr r.2 = Some "invalid journal file, unable to restart"
  /\ f_pos <$> journal r.2
     = Some (length (encode_frames ps) + 4 + length p)%nat
  /\ elapsed_time r.2
     = foldl (fun e m => seek_advance m e) (elapsed_time c) ms.
Proof.
  intros Hmalloc Hj Hpos Hino Hdec Hlt Hbad Hmax Hfit r.
  set (file := (encode_frames ps ++ frame p ++ tail)%list) in *.
  assert (Hloop :
            journal_seek_loop os (S (length file)) target 0 file
              (elapsed_time c)
            = Some (seek_fail "invalid journal file, unable to restart"
                      tail
                      (foldl (fun e m => seek_advance m e)
                         (elapsed_time c) ms))).
  { unfold file.
    rewrite (journal_seek_loop_skip _ _ _ _ _ _ _ _ Hmalloc Hdec Hlt)
      by lia.
    unfold frame, fits_uint32 in *.
    cbn [journal_seek_loop]. rewrite <- app_assoc, sys_fread_htonl.
    rewrite ntohl_htonl by lia.
    rewrite (proj2 (Z.ltb_ge _ _)) by lia.
    rewrite Hmalloc, andb_false_r.
    destruct (Z.eqb_spec (Z.of_nat (length p)) 0) as [H0|H0].
    - destruct p; [|cbn in H0; lia]. cbn [app]. by rewrite Hbad.
    - by rewrite Nat2Z.id, sys_fread_app, Hbad. }
  destruct (journal_seek_unfold _ _ _ _ _ _ _ Hj Hpos Hino Hloop)
    as (Hret & Herr & Hel & Hp).
  fold r in Hret, Herr, Hel, Hp. rewrite Hret, Herr, Hel, Hp. cbn.
  repeat split. f_equal. unfold file, frame.
  rewrite !length_app, length_htonl. lia.
Qed.


(** ** Restarting a journal *)

(** X8.  What [journal_restart] can come to.  When it returns true, the
    closure has an open journal, its elapsed time is the resume point of
    the message, and no message has been stored; when it returns false,
    the closure carries one of six messages. *)
Theorem journal_restart_outcome os msg buf len c fs :
  let r := journal_restart os msg buf len c fs in
  (r.1.1 = true ->
   elapsed_time r.1.2
   = {| tv_sec := PB.tv_sec (PB.resume_point msg);
        tv_nsec := PB.tv_nsec (PB.resume_point msg) |}
   /\ errstr r.1.2 = errstr c /\ is_Some (journal r.1.2))
  /\ (r.1.1 = false ->
      errstr r.1.2 = Some "unable to create journal file"
      \/ errstr r.1.2 = Some "unable to allocate memory"
      \/ errstr r.1.2 = Some "unexpected EOF reading journal file"
      \/ errstr r.1.2 = Some "error reading journal file"
      \/ errstr r.1.2 = Some "client message too large"
      \/ errstr r.1.2 = Some "invalid journal file, unable to restart").
Proof.
  unfold journal_restart.
  destruct (PATH_MAX <=? _)%Z; [cbn; split; [done | auto] |].
  destruct (sys_open _ _ _) as [fd|]; [|cbn; split; [done | auto]].
  unfold journal_fdopen.
  destruct (strdup_ok os); [|cbn; split; [done | auto]].
  destruct (fdopen_ok os); [|cbn; split; [done | auto]].
  cbn [negb].
  match goal with
  | |- context [journal_seek os ?t ?c1 fs] =>
      destruct (journal_seek_cases os t c1 fs _ eq_refl)
        as (Htrue & Hfalse & f' & Hj & _);
      destruct (journal_seek os t c1 fs) as [ok c2]
  end.
  cbn [fst snd] in *. destruct ok; cbn.
  - split; [|done]. intros _. destruct (Htrue eq_refl) as [-> ->].
    rewrite Hj. eauto.
  - split; [done|]. intros _.
    destruct (Hfalse eq_refl) as [?|[?|[?|[?|?]]]]; auto 7.
Qed.

Lemma strchr_lt (s : string) (c : ascii) (k : nat) :
  strchr s c = Some k -> (k < String.length s)%nat.
Proof.
  revert k. induction s as [|a s IH]; intros k H; [discriminate|].
  cbn in H. destruct (Ascii.eqb a c).
  - simplify_eq. cbn. lia.
  - destruct (strchr s c) as [k'|]; [|discriminate].
    simplify_eq/=. specialize (IH _ eq_refl). lia.
Qed.

Lemma strchr_app_le (a b : string) (c : ascii) (k : nat) :
  strchr (a ++ String c b) c = Some k -> (k <= String.length a)%nat.
Proof.
  revert k. induction a as [|x a IH]; intros k H.
  - change (strchr (String c b) c = Some k) in H. cbn in H.
    rewrite Ascii.eqb_refl in H. simplify_eq. cbn. lia.
  - change (strchr (String x (a ++ String c b)) c = Some k) in H.
    cbn in H. destruct (Ascii.eqb x c).
    + simplify_eq. lia.
    + destruct (strchr (a ++ String c b) c) as [k'|]; [|discriminate].
      simplify_eq/=. specialize (IH _ eq_refl). lia.
Qed.

Lemma length_string_at (n : nat) (s : string) :
  String.length (string_at n s) = (String.length s - n)%nat.
Proof.
  revert s. induction n as [|n IH]; intros s; cbn.
  - lia.
  - destruct s; cbn; [done | apply IH].
Qed.

(** The path a restart opens is never the log id itself. *)
Lemma restart_path_differs (log_id : string) :
  relay_dir ++ "/incoming/" ++ strip_hostname log_id <> log_id.
Proof.
  intros Heq.
  assert (Hlen : (String.length relay_dir + 10
                  + String.length (strip_hostname log_id)
                  = String.length log_id)%nat).
  { rewrite <- Heq at 2. rewrite !string_length_app. cbn. lia. }
  unfold strip_hostname in Heq, Hlen.
  destruct (strchr log_id "/") as [k|] eqn:Hk; [|lia].
  case_bool_decide as Hk0;
    [|assert (k = 0%nat) as -> by lia; cbn in Hlen; lia].
  rewrite length_string_at in Hlen.
  pose proof (strchr_lt _ _ _ Hk) as Hlt.
  assert (Hk' : strchr (relay_dir
                        ++ String "/" ("incoming/"
                                       ++ string_at (S k) log_id)) "/"
                = Some k).
  { change (strchr (relay_dir ++ "/incoming/" ++ string_at (S k) log_id)
              "/" = Some k).
    by rewrite Heq. }
  apply strchr_app_le in Hk'. lia.
Qed.

Lemma journal_write_keeps os buf len c :
  journal_path (journal_write os buf len c).2 = journal_path c
  /\ write_queue (journal_write os buf len c).2 = write_queue c.
Proof.
  unfold journal_write, sys_fwrite.
  repeat case_match; simplify_eq/=; done.
Qed.

(** X9.  The log id that a successful [journal_accept] queues for a
    client that expects I/O buffers is the path of the journal it has
    created (nothing is queued otherwise).  [journal_restart], given that
    id back in a RestartMessage, does not take it for the path: the path
    it builds and hands to [open] is the relay directory, "/incoming/"
    and the id without a leading host name, which is another string than
    the id; a restart that succeeds has stored that path in the closure,
    not the id.  (Whether the two strings name the same file is a matter
    of the file system.) *)
Theorem journal_accept_log_id os msg buf len c fs c' fs' :
  journal_accept os msg buf len c fs = (true, c', fs') ->
  exists p,
    journal_path c' = Some p
    /\ is_Some (names fs' !! p)
    /\ write_queue c'
       = (write_queue c ++ if PB.expect_iobufs msg then [p] else [])%list
    /\ relay_dir ++ "/incoming/" ++ strip_hostname p <> p
    /\ forall os2 rmsg buf2 len2 c2 fs2,
         PB.log_id rmsg = p ->
         let r := journal_restart os2 rmsg buf2 len2 c2 fs2 in
         r.1.1 = true ->
         journal_path r.1.2
         = Some (relay_dir ++ "/incoming/" ++ strip_hostname p)
         /\ journal_path r.1.2 <> Some p.
Proof.
  unfold journal_accept. intros H.
  destruct (journal_create os c fs) as [[ok c1] fs1] eqn:Hc.
  destruct ok; [|discriminate]. cbn [negb] in H.
  assert (Hq : write_queue c1 = write_queue c).
  { revert Hc. unfold journal_create, journal_fdopen.
    intros Hc. repeat case_match; by simplify_eq/=. }
  assert (Hfresh : exists f p,
             journal_path c1 = Some p /\ names fs !! p = None
             /\ names fs1 = <[p := fd_ino (f_fd f)]> (names fs)).
  { apply journal_create_new in Hc
      as (f & p & _ & Hp & Hnew & Hnames & _). by exists f, p. }
  destruct Hfresh as (f & p & Hp & Hnew & Hnames).
  destruct (journal_write_keeps os buf len c1) as [Hwp Hwq].
  destruct (journal_write os buf len c1) as [ok c2].
  cbn [snd] in Hwp, Hwq. destruct ok; [|discriminate]. cbn [negb] in H.
  pose proof (restart_path_differs p) as Hne.
  assert (Hfs : fs' = fs1) by (repeat case_match; by simplify_eq/=).
  subst fs'.
  exists p. split; [|split; [|split; [|split]]].
  - repeat case_match; simplify_eq/=; congruence.
  - rewrite Hnames, lookup_insert_eq. by eexists.
  - repeat case_match; simplify_eq/=; rewrite ?app_nil_r; try congruence.
    rewrite Hwp, Hp, Hwq, Hq. done.
  - exact Hne.
  - intros os2 rmsg buf2 len2 c2' fs2 Hid. unfold journal_restart.
    rewrite Hid.
    destruct (PATH_MAX <=? _)%Z; [done|].
    destruct (sys_open os2 _ fs2) as [fd|]; [|done].
    unfold journal_fdopen.
    destruct (strdup_ok os2); [|done].
    destruct (fdopen_ok os2); [|done]. cbn [negb].
    match goal with
    | |- context [journal_seek os2 ?t ?c1 fs2] =>
        pose proof (journal_seek_keeps os2 t c1 fs2) as [Hkp _];
        destruct (journal_seek os2 t c1 fs2) as [ok c3]
    end.
    cbn [snd] in Hkp. destruct ok; [|done]. cbn [fst snd negb].
    intros _. rewrite Hkp. cbn. split; [done|]. congruence.
Qed.


(** ** The lock of a created journal is held to the end of the session *)

Lemma run_session_keeps_fd evs c fs :
  Forall (fun e => opens (ev_msg e) = false
                   /\ is_restart (ev_msg e) = false) evs ->
  f_fd <$> journal (run_session cms_journal evs c fs).1.2
  = f_fd <$> journal c.
Proof.
  intros Hevs. revert c fs.
  induction Hevs as [|e evs [Ho Hr] _ IH]; intros c fs; [done|].
  cbn [run_session].
  pose proof (journal_handle_keeps_fd (ev_os e) (ev_msg e) (ev_raw e)
                (Z.of_nat (length (ev_raw e))) c fs Ho Hr) as Hk.
  destruct (handle cms_journal _ _ _ _ c fs) as [[ok c1] fs1].
  cbn in Hk. destruct ok; [|done]. by rewrite IH.
Qed.

(** X10.  The journal that an accept or a reject message has created
    stays on its descriptor, and the descriptor keeps its lock, through
    all that follows in the session (alerts, I/O buffers, suspend and
    window size events, and the exit message that moves the journal to
    the outgoing directory), whether or not the messages that follow are
    handled successfully. *)
Theorem journal_session_keeps_lock first rest c0 fs0 c1 fs1 :
  opens (ev_msg first) = true ->
  handle cms_journal (ev_os first) (ev_msg first) (ev_raw first)
    (Z.of_nat (length (ev_raw first))) c0 fs0 = (true, c1, fs1) ->
  Forall (fun e => opens (ev_msg e) = false
                   /\ is_restart (ev_msg e) = false) rest ->
  exists f1 f,
    journal c1 = Some f1
    /\ journal (run_session cms_journal rest c1 fs1).1.2 = Some f
    /\ f_fd f = f_fd f1 /\ fd_locked (f_fd f) = true.
Proof.
  intros Ho H1 Hrest.
  assert (Hlock : exists f1,
             journal c1 = Some f1 /\ fd_locked (f_fd f1) = true).
  { destruct (ev_msg first) as [m|m| | | | | |]; try discriminate;
      cbn [handle cms_journal accept reject] in H1;
      unfold journal_accept, journal_reject in H1;
      destruct (journal_create (ev_os first) c0 fs0) as [[ok c2] fs2] eqn:Hc;
      (destruct ok; [|discriminate]); cbn [negb] in H1;
      apply journal_create_true in Hc as (_ & (f & Hf & Hl) & _);
      match type of H1 with
      | context [journal_write ?os ?b ?l c2] =>
          pose proof (journal_write_fd os b l c2) as Hw;
          destruct (journal_write os b l c2) as [ok c3]
      end;
      cbn [snd] in Hw; rewrite Hf in Hw;
      (destruct ok; [|discriminate]); cbn [negb] in H1.
    - assert (Hj : journal c1 = journal c3)
        by (repeat case_match; by simplify_eq/=).
      rewrite Hj. destruct (journal c3) as [f3|]; [|discriminate].
      cbn in Hw. simplify_eq. exists f3. split; [done|]. congruence.
    - simplify_eq. destruct (journal c1) as [f3|]; [|discriminate].
      cbn in Hw. simplify_eq. exists f3. split; [done|]. congruence. }
  destruct Hlock as (f1 & Hf1 & Hl1).
  pose proof (run_session_keeps_fd rest c1 fs1 Hrest) as Hk.
  rewrite Hf1 in Hk.
  destruct (journal (run_session cms_journal rest c1 fs1).1.2) as [f|];
    [|discriminate].
  cbn in Hk. simplify_eq. exists f1, f. repeat split; congruence.
Qed.


(** ** What a restarted journal holds when the session has ended *)

Lemma journal_write_over os buf c c' fs ino pos old ps :
  journal_write os buf (Z.of_nat (length buf)) c = (true, c') ->
  fits_uint32 buf ->
  journal_over c fs ino pos old ps ->
  journal_over c' fs ino pos old (ps ++ [buf]).
Proof.
  intros Hw Hfit (f & p & Hj & Hp & Hi & Hbuf & Hpos & Hino & Hname).
  destruct (journal_write_true _ _ _ _ Hw Hfit) as (f' & Hj' & ->).
  rewrite Hj in Hj'. injection Hj' as <-.
  eexists _, p. cbn. repeat split; try done.
  - cbn. rewrite Hbuf, encode_frames_app. f_equal.
    unfold encode_frames. cbn. by rewrite app_nil_r.
  - cbn. rewrite Hpos, length_app. unfold frame. cbn [length app htonl].
    lia.
Qed.

Lemma journal_stream_over os msg raw c fs c' fs' ino pos old ps :
  streams msg = true ->
  handle cms_journal os msg raw (Z.of_nat (length raw)) c fs
  = (true, c', fs') ->
  fits_uint32 raw ->
  journal_over c fs ino pos old ps ->
  journal_over c' fs' ino pos old (ps ++ [raw]).
Proof.
  intros Hs H Hfit Hh.
  destruct msg; try discriminate; cbn in H;
    unfold journal_alert, journal_iobuf, journal_suspend, journal_winsize
      in H;
    destruct (journal_write os raw _ c) as [ok c2] eqn:Hw;
    destruct ok; try discriminate;
    pose proof (journal_write_over _ _ _ _ _ _ _ _ _ Hw Hfit Hh) as Hh';
    simplify_eq/=; exact Hh'.
Qed.

Lemma journal_finish_over os c fs c' fs' ino pos old ps :
  journal_finish os c fs = (true, c', fs') ->
  journal_over c fs ino pos old ps ->
  exists q,
    journal_path c' = Some q
    /\ read_file fs' q = Some (write_at pos (encode_frames ps) old).
Proof.
  intros H (f & p & Hj & Hp & Hi & Hbuf & Hpos & Hino & Hname).
  destruct (journal_finish_moved _ _ _ _ _ _ _ Hp Hname H)
    as (f' & new & Hj' & Hq & _ & _ & Hnames & _ & _ & Hcont & _).
  rewrite Hj in Hj'. injection Hj' as <-.
  exists new. split; [exact Hq|].
  unfold read_file. rewrite Hnames, lookup_insert_eq.
  rewrite <- Hi, Hcont. cbn. rewrite Hi, Hino. cbn.
  do 2 f_equal; [|done]. rewrite Hpos. lia.
Qed.

Lemma journal_exit_over os msg raw c fs c' fs' ino pos old ps :
  is_exit msg = true ->
  handle cms_journal os msg raw (Z.of_nat (length raw)) c fs
  = (true, c', fs') ->
  fits_uint32 raw ->
  journal_over c fs ino pos old ps ->
  exists q,
    journal_path c' = Some q
    /\ read_file fs' q
       = Some (write_at pos (encode_frames (ps ++ [raw])) old).
Proof.
  intros He H Hfit Hh.
  destruct msg; try discriminate; cbn in H. unfold journal_exit in H.
  destruct (journal_write os raw _ c) as [ok c2] eqn:Hw.
  destruct ok; [|discriminate]. cbn in H.
  pose proof (journal_write_over _ _ _ _ _ _ _ _ _ Hw Hfit Hh) as Hh'.
  destruct (journal_finish os c2 fs) as [[ok c3] fs3] eqn:Hf.
  destruct ok; [|discriminate]. simplify_eq/=.
  by apply (journal_finish_over _ _ _ _ _ _ _ _ _ Hf Hh').
Qed.

Lemma run_session_streams_over mid rest c fs c'' fs'' ino pos old ps :
  Forall (fun e => streams (ev_msg e) = true) mid ->
  Forall (fun e => fits_uint32 (ev_raw e)) mid ->
  run_session cms_journal (mid ++ rest) c fs = (true, c'', fs'') ->
  journal_over c fs ino pos old ps ->
  exists c' fs',
    run_session cms_journal rest c' fs' = (true, c'', fs'')
    /\ journal_over c' fs' ino pos old (ps ++ (ev_raw <$> mid)).
Proof.
  intros Hs. revert c fs ps.
  induction Hs as [|e mid He Hmid IH]; intros c fs ps Hfit H Hh.
  - exists c, fs. by rewrite app_nil_r.
  - inversion Hfit as [|? ? Hfe Hfmid]; subst.
    cbn [app run_session] in H.
    destruct (handle cms_journal (ev_os e) (ev_msg e) (ev_raw e) _ c fs)
      as [[ok c1] fs1] eqn:Hstep.
    destruct ok; [|discriminate].
    pose proof (journal_stream_over _ _ _ _ _ _ _ _ _ _ _ He Hstep Hfe Hh)
      as Hh1.
    destruct (IH _ _ _ Hfmid H Hh1) as (c' & fs' & Hrun & Hh').
    exists c', fs'. split; [exact Hrun |].
    rewrite fmap_cons. by rewrite <- app_assoc in Hh'.
Qed.

(** A restart that succeeds on a journal whose frames [ps] stay below
    the resume point and whose next frame [p] reaches it leaves the
    stream behind that frame, with nothing buffered. *)
Lemma journal_restart_over os msg buf len c fs c' fs' ino ps ms p m rest :
  let target := {| tv_sec := PB.tv_sec (PB.resume_point msg);
                   tv_nsec := PB.tv_nsec (PB.resume_point msg) |} in
  let old := (encode_frames ps ++ frame p ++ rest)%list in
  names fs !! (relay_dir ++ "/incoming/" ++ strip_hostname (PB.log_id msg))
  = Some ino ->
  inodes fs !! ino = Some old ->
  malloc_ok os = true ->
  decodes_to ps ms ->
  Forall (fun t => timespec_lt t target) (elapsed_times (elapsed_time c) ms) ->
  client_message__unpack p = Some m ->
  (Z.of_nat (length p) <= MESSAGE_SIZE_MAX)%Z -> fits_uint32 p ->
  seek_advance m (foldl (fun e m => seek_advance m e) (elapsed_time c) ms)
  = target ->
  journal_restart os msg buf len c fs = (true, c', fs') ->
  journal_over c' fs' ino (length (encode_frames ps ++ frame p)) old [].
Proof.
  intros target old Hname Hino Hmalloc Hdec Hlt Hm Hmax Hfit Hhit H.
  unfold journal_restart in H.
  destruct (PATH_MAX <=? _)%Z; [discriminate|].
  unfold sys_open in H. destruct (open_ok os); [|discriminate].
  rewrite Hname in H. unfold journal_fdopen in H.
  destruct (strdup_ok os); [|discriminate].
  destruct (fdopen_ok os); [|discriminate]. cbn [negb] in H.
  fold target in H.
  match type of H with
  | context [journal_seek os target ?c1 fs] => set (cc := c1) in H
  end.
  assert (Hloop :
            journal_seek_loop os (S (length old)) target 0 old
              (elapsed_time cc)
            = Some {| seek_ret := true; seek_errstr := None;
                      seek_rest := rest; seek_elapsed := target |}).
  { unfold old. change (elapsed_time cc) with (elapsed_time c).
    rewrite (journal_seek_loop_skip _ _ _ _ _ _ _ _ Hmalloc Hdec Hlt)
      by lia.
    rewrite (journal_seek_loop_frame _ _ _ _ _ _ _ _ Hmalloc Hm Hmax Hfit).
    rewrite Hhit.
    assert (Hge : sudo_timespeccmp_ge target target = true).
    { destruct (timespec_cases target target)
        as [(? & _)|[(_ & _ & Hl)|(_ & Hl)]];
        [done | by apply timespec_lt_irrefl in Hl
         | by apply timespec_lt_irrefl in Hl]. }
    by rewrite Hge, (proj2 (timespec_eq_true target target) eq_refl). }
  destruct (journal_seek_unfold os target cc fs _ old _ eq_refl eq_refl
              Hino Hloop) as (Hret & _ & _ & Hpos).
  destruct (journal_seek_cases os target cc fs _ eq_refl)
    as (_ & _ & f' & Hj' & Hfd & Hwb & _).
  pose proof (journal_seek_keeps os target cc fs) as [Hkp _].
  destruct (journal_seek os target cc fs) as [ok c2].
  cbn [fst snd seek_ret seek_rest] in Hret, Hpos, Hj', Hkp.
  subst ok. cbn [negb] in H. injection H as <- <-.
  rewrite Hj' in Hpos. cbn [fmap option_fmap option_map] in Hpos.
  injection Hpos as Hpos.
  exists f'. eexists.
  split; [exact Hj'|]. split; [rewrite Hkp; reflexivity|].
  split; [by rewrite Hfd|]. split; [by rewrite Hwb|].
  split; [|by split].
  rewrite Hpos, Hwb. unfold old. cbn [length f_wbuf].
  rewrite !length_app. lia.
Qed.


Lemma write_at_behind (a rest bs : list byte) :
  write_at (length a) bs (a ++ rest)
  = (a ++ bs ++ drop (length bs) rest)%list.
Proof.
  unfold write_at. by rewrite take_app_length, drop_app_add.
Qed.

(** X11.  What a restarted journal holds when its session has ended.
    When the frames [ps] of the journal stay below the resume point, the
    next frame [p] reaches it, and the restart, the messages streamed
    after it and the exit message are all handled successfully, the
    finalized journal holds the old frames up to and including [p], then
    the frames of the new messages; they have been written over the old
    bytes behind [p], and what the old file held beyond them stays in the
    file: the journal is not truncated. *)
Theorem journal_restart_overwrites os rmsg raw mid last c0 fs0 c fs ino
    ps ms p m rest :
  let target := {| tv_sec := PB.tv_sec (PB.resume_point rmsg);
                   tv_nsec := PB.tv_nsec (PB.resume_point rmsg) |} in
  let news := encode_frames (ev_raw <$> (mid ++ [last])%list) in
  names fs0
  !! (relay_dir ++ "/incoming/" ++ strip_hostname (PB.log_id rmsg))
  = Some ino ->
  inodes fs0 !! ino = Some (encode_frames ps ++ frame p ++ rest)%list ->
  malloc_ok os = true ->
  decodes_to ps ms ->
  Forall (fun t => timespec_lt t target)
    (elapsed_times (elapsed_time c0) ms) ->
  client_message__unpack p = Some m ->
  (Z.of_nat (length p) <= MESSAGE_SIZE_MAX)%Z -> fits_uint32 p ->
  seek_advance m (foldl (fun e m => seek_advance m e) (elapsed_time c0) ms)
  = target ->
  Forall (fun e => streams (ev_msg e) = true) mid ->
  is_exit (ev_msg last) = true ->
  Forall (fun e => fits_uint32 (ev_raw e)) (mid ++ [last])%list ->
  run_session cms_journal
    ({| ev_os := os; ev_msg := Restart rmsg; ev_raw := raw |}
     :: mid ++ [last])%list c0 fs0 = (true, c, fs) ->
  exists q,
    journal_path c = Some q
    /\ read_file fs q
       = Some (encode_frames ps ++ frame p ++ news
               ++ drop (length news) rest)%list.
Proof.
  intros target news Hname Hino Hmalloc Hdec Hlt Hm Hmax Hfit Hhit Hmid
    Hlast Hfits H.
  apply Forall_app in Hfits as [Hfmid Hflast].
  inversion Hflast as [|? ? Hfl _]; subst.
  cbn [run_session ev_os ev_msg ev_raw handle cms_journal restart] in H.
  destruct (journal_restart os rmsg raw _ c0 fs0) as [[ok c1] fs1] eqn:Hr.
  destruct ok; [|discriminate].
  pose proof (journal_restart_over _ _ _ _ _ _ _ _ _ _ _ _ _ _ Hname Hino
                Hmalloc Hdec Hlt Hm Hmax Hfit Hhit Hr) as Hover.
  destruct (run_session_streams_over _ _ _ _ _ _ _ _ _ _ Hmid Hfmid H
              Hover) as (c2 & fs2 & Hrun & Hover2).
  cbn [run_session] in Hrun.
  destruct (handle cms_journal (ev_os last) (ev_msg last) (ev_raw last) _
              c2 fs2) as [[ok c3] fs3] eqn:Hexit.
  destruct ok; [|discriminate]. injection Hrun as <- <-.
  destruct (journal_exit_over _ _ _ _ _ _ _ _ _ _ _ Hlast Hexit Hfl
              Hover2) as (q & Hq & Hread).
  exists q. split; [exact Hq|]. rewrite Hread. f_equal.
  rewrite app_assoc, write_at_behind, <- app_assoc.
  cbn [app]. unfold news. by rewrite fmap_app.
Qed.


(** ** The local sink: the random drop and the failures of a write *)

Lemma Qlt_bool_false (a b : Q) : Qlt_bool a b = false <-> (b <= a)%Q.
Proof.
  split.
  - intros H. apply Qnot_lt_le. intros Hlt.
    apply Qlt_bool_true in Hlt. congruence.
  - intros H. destruct (Qlt_bool a b) eqn:Hb; [|done].
    apply Qlt_bool_true in Hb. by apply Qlt_not_le in Hb.
Qed.

(** X14.  [set_random_drop] checks no range.  A percentage above 100
    that it accepts makes [store_iobuf_local] fail for every I/O buffer,
    whatever the random value (which is at most 1); a percentage of 0 or
    below switches the random drop off, as the initial value does. *)
Theorem set_random_drop_unchecked dropstr random_drop os iofd iobuf buf
    buflen c fs :
  set_random_drop dropstr = (true, random_drop) ->
  let percentage := (strtod dropstr).1.1 in
  ((100 < percentage)%Q -> (randval os <= 1)%Q ->
   (store_iobuf_local random_drop os iofd iobuf buf buflen c fs).1.1
   = false)
  /\ ((percentage <= 0)%Q ->
      store_iobuf_local random_drop os iofd iobuf buf buflen c fs
      = store_iobuf_local random_drop_default os iofd iobuf buf buflen
          c fs).
Proof.
  unfold set_random_drop. intros H.
  destruct (strtod dropstr) as [[v ep] e]. cbn [fst].
  destruct (negb (String.eqb ep "") || e); [discriminate|].
  injection H as <-. split.
  - intros Hv Hr.
    assert (H1 : (1 < v / 100)%Q).
    { apply Qlt_shift_div_l; [reflexivity|]. by rewrite Qmult_1_l. }
    assert (Hd : Qlt_bool 0 (v / 100) = true).
    { apply Qlt_bool_true. by apply Qlt_trans with 1%Q. }
    assert (Hs : Qlt_bool (randval os) (v / 100) = true).
    { apply Qlt_bool_true. by apply Qle_lt_trans with 1%Q. }
    unfold store_iobuf_local. rewrite Hd, Hs.
    by repeat case_match.
  - intros Hv.
    assert (Hd : Qlt_bool 0 (v / 100) = false).
    { apply Qlt_bool_false. apply Qle_shift_div_r; [reflexivity|].
      by rewrite Qmult_0_l. }
    unfold store_iobuf_local, random_drop_default. rewrite Hd.
    assert (Hd0 : Qlt_bool 0 0 = false) by reflexivity.
    by rewrite Hd0.
Qed.

(** X15.  The random drop changes nothing but the return value.  The
    closure and the file system that [store_iobuf_local] leaves are those
    of the call with the random drop switched off: a buffer that is
    dropped has been written to the log and its delay added to the
    elapsed time.  The two calls differ in their result only when the
    buffer was stored and the random value is below the rate. *)
Theorem random_drop_only_result random_drop os iofd iobuf buf buflen c fs :
  let r := store_iobuf_local random_drop os iofd iobuf buf buflen c fs in
  let r0 := store_iobuf_local random_drop_default os iofd iobuf buf buflen
              c fs in
  r.1.2 = r0.1.2 /\ r.2 = r0.2
  /\ (r.1.1 = true -> r0.1.1 = true)
  /\ (r0.1.1 = true ->
      (r.1.1 = false
       <-> (0 < random_drop)%Q /\ (randval os < random_drop)%Q)).
Proof.
  unfold store_iobuf_local, random_drop_default.
  assert (Hd0 : Qlt_bool 0 0 = false) by reflexivity. rewrite Hd0.
  cbn [andb].
  destruct (match iolog_files c !! iofd with
            | Some f =>
                if negb (enabled f) then iolog_create os iofd c else Some c
            | None => None
            end) as [c1|]; [|cbn; by auto].
  destruct (_ || _); [cbn; by auto|].
  destruct (iolog_write _ iofd _ c1) as [c2|]; [|cbn; by auto].
  destruct (iolog_write _ IOFD_TIMING _ c2) as [c3|]; [|cbn; by auto].
  rewrite <- !Qlt_bool_true.
  destruct (Qlt_bool 0 random_drop);
    destruct (Qlt_bool (randval os) random_drop); cbn;
    (split; [done|]); (split; [done|]); (split; [done|]); intros _;
    (split; [done | by intros [? ?]]).
Qed.



(** ** The timing lines fit their buffer *)

Lemma length_zeros (k : nat) : String.length (zeros k) = k.
Proof. induction k; cbn; congruence. Qed.

Lemma length_fmt_u (k : nat) (n : Z) :
  (1 <= k)%nat -> (0 <= n < 10 ^ Z.of_nat k)%Z ->
  (String.length (fmt_u n) <= k)%nat.
Proof.
  intros Hk Hn.
  assert (H : zeros (k - String.length (fmt_u n)) ++ fmt_u n
              = fixed_digits k n).
  { unfold fmt_u. apply dec_digits_padded; try done; [lia |].
    rewrite Nat2Z.inj_succ, Z2Nat.id by apply Z.log2_nonneg.
    destruct (Z.eq_dec n 0%Z) as [->|Hn0]; [done |].
    apply Z.log2_spec. lia. }
  apply (f_equal String.length) in H.
  rewrite string_length_app, length_zeros, length_fixed_digits in H. lia.
Qed.

Lemma length_fmt_d (k : nat) (z : Z) :
  (1 <= k)%nat -> (- 10 ^ Z.of_nat k < z < 10 ^ Z.of_nat k)%Z ->
  (String.length (fmt_d z) <= S k)%nat.
Proof.
  intros Hk Hz. unfold fmt_d. destruct (Z.ltb_spec z 0).
  - change (String.length (String "-" (fmt_u (- z))) <= S k)%nat.
    cbn [String.length]. pose proof (length_fmt_u k (- z) Hk). lia.
  - pose proof (length_fmt_u k z Hk). lia.
Qed.

Lemma length_fmt_0d (w k : nat) (z : Z) :
  (1 <= k)%nat -> (- 10 ^ Z.of_nat k < z < 10 ^ Z.of_nat k)%Z ->
  (String.length (fmt_0d w z) <= Nat.max w (S k))%nat.
Proof.
  intros Hk Hz. unfold fmt_0d.
  pose proof (length_fmt_u k (Z.abs z) Hk) as Hu.
  rewrite !string_length_app, length_zeros.
  destruct (z <? 0)%Z; cbn [String.length]; lia.
Qed.

Lemma iolog_write_succeeds (i : nat) (bs : list byte)
    (c : connection_closure) :
  (i < length (iolog_files c))%nat ->
  exists c',
    iolog_write true i bs c = Some c'
    /\ length (iolog_files c') = length (iolog_files c).
Proof.
  intros Hi. unfold iolog_write.
  destruct (lookup_lt_is_Some_2 _ _ Hi) as [f ->].
  eexists. split; [done|]. cbn. by rewrite length_insert.
Qed.

(** X17.  The timing line of an I/O buffer always fits the buffer of
    1024 bytes that [store_iobuf_local] formats it in: for a descriptor
    number that is an [int], seconds of 64 bits, nanoseconds of 32 bits
    and a data length that is a [size_t], the line has at most 65
    characters.  So "unable to format timing buffer" cannot happen, and
    with log files that can be opened and written the buffer is
    stored. *)
Theorem iobuf_timing_line_fits iofd iobuf :
  (Z.of_nat iofd < 2 ^ 31)%Z ->
  (- 2 ^ 63 <= PB.tv_sec (PB.iobuf_delay iobuf) < 2 ^ 63)%Z ->
  (- 2 ^ 31 <= PB.tv_nsec (PB.iobuf_delay iobuf) < 2 ^ 31)%Z ->
  (Z.of_nat (length (PB.data iobuf)) < 2 ^ 64)%Z ->
  (String.length (iobuf_timing_line iofd iobuf) <= 65)%nat
  /\ forall os buf buflen c fs,
       (iofd < length (iolog_files c))%nat ->
       (IOFD_TIMING < length (iolog_files c))%nat ->
       iolog_create_ok os = true ->
       iolog_write_data_ok os = true ->
       iolog_write_timing_ok os = true ->
       (store_iobuf_local random_drop_default os iofd iobuf buf buflen
          c fs).1.1 = true.
Proof.
  intros Hfd Hsec Hnsec Hlen.
  assert (Hline : (String.length (iobuf_timing_line iofd iobuf) <= 65)%nat).
  { unfold iobuf_timing_line. rewrite !string_length_app.
    pose proof (length_fmt_u 10 (Z.of_nat iofd)) as H1.
    pose proof (length_fmt_d 19 (PB.tv_sec (PB.iobuf_delay iobuf))) as H2.
    pose proof (length_fmt_0d 9 10 (PB.tv_nsec (PB.iobuf_delay iobuf)))
      as H3.
    pose proof (length_fmt_u 20 (Z.of_nat (length (PB.data iobuf)))) as H4.
    change (Z.of_nat 10) with 10%Z in *.
    change (Z.of_nat 19) with 19%Z in *.
    change (Z.of_nat 20) with 20%Z in *.
    assert (Hd : fmt_d (Z.of_nat iofd) = fmt_u (Z.of_nat iofd)).
    { unfold fmt_d. by rewrite (proj2 (Z.ltb_ge _ _)) by lia. }
    rewrite Hd. cbn [String.length].
    specialize (H1 ltac:(lia) ltac:(lia)).
    specialize (H2 ltac:(lia) ltac:(lia)).
    specialize (H3 ltac:(lia) ltac:(lia)).
    specialize (H4 ltac:(lia) ltac:(lia)).
    lia. }
  split; [exact Hline|].
  intros os buf buflen c fs Hi Ht Hcreate Hdata Htiming.
  unfold store_iobuf_local, random_drop_default.
  destruct (lookup_lt_is_Some_2 _ _ Hi) as [sf Hsf]. rewrite Hsf.
  assert (Hopen : exists c1,
             (if negb (enabled sf) then iolog_create os iofd c
              else Some c) = Some c1
             /\ length (iolog_files c1) = length (iolog_files c)).
  { destruct (negb (enabled sf)); [|by exists c].
    unfold iolog_create. rewrite Hcreate, Hsf.
    eexists. split; [done|]. cbn. by rewrite length_insert. }
  destruct Hopen as (c1 & -> & Hl1).
  rewrite (proj2 (Z.ltb_ge _ _)) by lia.
  rewrite (proj2 (Z.leb_gt _ _)) by lia. cbn [orb].
  rewrite Hdata, Htiming.
  destruct (iolog_write_succeeds iofd (PB.data iobuf) c1)
    as (c2 & -> & Hl2); [lia|].
  destruct (iolog_write_succeeds IOFD_TIMING
              (bytes_of_string (iobuf_timing_line iofd iobuf)) c2)
    as (c3 & -> & Hl3); [lia|].
  done.
Qed.

(** X18.  A suspend event whose signal name has 1024 characters or more
    is refused by [store_suspend_local] before anything is written: the
    call fails, the log files, the elapsed time and the file system are
    as before, and the closure carries "error writing CommandSuspend"
    unless it carried a message already. *)
Theorem store_suspend_local_long_signal os msg buf buflen c fs :
  (1024 <= String.length (PB.suspend_signal msg))%nat ->
  store_suspend_local os msg buf buflen c fs
  = (false, bad "error writing CommandSuspend" c, fs)
  /\ iolog_files (bad "error writing CommandSuspend" c) = iolog_files c
  /\ elapsed_time (bad "error writing CommandSuspend" c) = elapsed_time c.
Proof.
  intros Hlen. unfold store_suspend_local.
  assert (Hline : (1024 <= String.length (suspend_timing_line msg))%nat).
  { unfold suspend_timing_line. rewrite !string_length_app. lia. }
  rewrite (proj2 (Z.leb_le 1024 _)) by lia. rewrite orb_true_r.
  split; [done|]. unfold bad. by destruct (errstr c).
Qed.


(** ** The local sink: accepting and restarting a log *)

Lemma ISSET_lor (mode bit : Z) :
  (0 < bit)%Z -> ISSET (Z.lor mode bit) bit = true.
Proof.
  intros Hb. unfold ISSET. rewrite Z.land_comm, Z.land_lor_distr_r.
  rewrite Z.land_diag. apply negb_true_iff, Z.eqb_neq.
  intros H0. apply Z.lor_eq_0_iff in H0 as [_ ->]. lia.
Qed.

Lemma errstr_bad (e : string) (c : connection_closure) :
  is_Some (errstr (bad e c)).
Proof. unfold bad. destruct (errstr c) eqn:H; cbn; rewrite ?H; eauto. Qed.

(** X19.  What [store_restart_local] can come to.  When it returns true
    the timing file of the log named by the message has its user write
    bit (the log is not complete).  When it returns true without having
    rewritten a compressed log, the closure holds a descriptor on that
    log and its path, no message has been stored, and the elapsed time is
    the one the seek in the timing file has reached.  When it returns
    false the closure carries a message, unless the rewriting of a
    compressed log has failed.  (What the rewriting of a compressed log
    leaves in the closure and in the log files is not stated.) *)
Theorem store_restart_local_outcome os msg buf len c fs :
  let r := store_restart_local os msg buf len c fs in
  (r.1.1 = true ->
   (exists st_mode,
      timing_mode fs !! PB.log_id msg = Some st_mode
      /\ Z.land st_mode S_IWUSR <> 0%Z)
   /\ (any_compressed os = false ->
       iolog_dir_fd r.1.2 = Some (PB.log_id msg)
       /\ evlog r.1.2 ≫= iolog_path = Some (PB.log_id msg)
       /\ errstr r.1.2 = errstr c
       /\ iolog_seekto_res os = Some (elapsed_time r.1.2)))
  /\ (r.1.1 = false ->
      is_Some (errstr r.1.2)
      \/ (any_compressed os = true /\ iolog_rewrite_ok os = false)).
Proof.
  assert (Hfail : forall e c1,
            (((false, bad e c1, fs) : result).1.1 = true ->
             (exists st_mode,
                timing_mode fs !! PB.log_id msg = Some st_mode
                /\ Z.land st_mode S_IWUSR <> 0%Z)
             /\ (any_compressed os = false ->
                 iolog_dir_fd (bad e c1) = Some (PB.log_id msg)
                 /\ evlog (bad e c1) ≫= iolog_path = Some (PB.log_id msg)
                 /\ errstr (bad e c1) = errstr c
                 /\ iolog_seekto_res os = Some (elapsed_time (bad e c1))))
            /\ (((false, bad e c1, fs) : result).1.1 = false ->
                is_Some (errstr (bad e c1))
                \/ (any_compressed os = true
                    /\ iolog_rewrite_ok os = false))).
  { intros e c1. cbn [fst snd]. split; [discriminate|].
    intros _. left. apply errstr_bad. }
  unfold store_restart_local.
  destruct (calloc_ok os); [|apply Hfail].
  destruct (strdup_ok os); [|apply Hfail].
  destruct (iolog_openat_ok os); [|apply Hfail]. cbn [negb].
  destruct (if fstatat_ok os then timing_mode fs !! PB.log_id msg
            else None) as [st_mode|] eqn:Hst; [|apply Hfail].
  assert (Hmode : timing_mode fs !! PB.log_id msg = Some st_mode)
    by (by destruct (fstatat_ok os)).
  unfold ISSET. destruct (Z.eqb_spec (Z.land st_mode S_IWUSR) 0) as [|Hbit];
    [apply Hfail|]. cbn [negb].
  destruct (iolog_open_all_ok os); [|apply Hfail]. cbn [negb].
  destruct (any_compressed os) eqn:Hcomp.
  - cbn [fst snd]. split.
    + intros _. split; [by eexists | discriminate].
    + intros ->. by right.
  - destruct (iolog_seekto_res os) as [elapsed|]; [|apply Hfail].
    destruct (iolog_seek_ok os); [|apply Hfail]. cbn [negb fst snd].
    split; [|discriminate].
    intros _. split; [by eexists|]. done.
Qed.

(** X20.  The log id that a successful [store_accept_local] queues for a
    client that expects I/O buffers is the path of the I/O log it has
    created, and I/O logging is switched on (nothing is queued
    otherwise).  [store_restart_local], given that id back in a
    RestartMessage, opens that log and does not find it complete; with
    uncompressed files and calls that succeed, the restart succeeds. *)
Theorem store_accept_local_log_id os msg buf len c fs c' fs' :
  store_accept_local os msg buf len c fs = (true, c', fs') ->
  if PB.expect_iobufs msg then
    exists id,
      write_queue c' = (write_queue c ++ [id])%list
      /\ evlog c' ≫= iolog_path = Some id
      /\ log_io c' = true
      /\ forall os2 rmsg buf2 len2 c2,
           PB.log_id rmsg = id ->
           calloc_ok os2 = true -> strdup_ok os2 = true ->
           iolog_openat_ok os2 = true -> fstatat_ok os2 = true ->
           iolog_open_all_ok os2 = true -> any_compressed os2 = false ->
           is_Some (iolog_seekto_res os2) -> iolog_seek_ok os2 = true ->
           let r := store_restart_local os2 rmsg buf2 len2 c2 fs' in
           r.1.1 = true /\ iolog_dir_fd r.1.2 = iolog_dir_fd c'
  else
    write_queue c' = write_queue c /\ log_io c' = log_io c /\ fs' = fs.
Proof.
  unfold store_accept_local, iolog_init. intros H.
  destruct (PB.expect_iobufs msg).
  - repeat case_match; simplify_eq/=.
    eexists. split; [done|]. split; [done|]. split; [done|].
    intros os2 rmsg buf2 len2 c2 Hid Hcalloc Hstrdup Hopenat Hfstat Hall
      Hcomp [t Hseek] Hseekok.
    unfold store_restart_local.
    rewrite Hid, Hcalloc, Hstrdup, Hopenat, Hfstat, Hall, Hcomp, Hseek,
      Hseekok.
    cbn [negb timing_mode set_timing_mode].
    rewrite lookup_insert_eq, ISSET_lor by done. done.
  - repeat case_match; by simplify_eq/=.
Qed.


(** ** The callback that renders the info messages *)

Lemma json_emitted_refl (json : json_container) : json_emitted json json [].
Proof.
  unfold json_emitted, json_has_room. rewrite app_nil_r.
  destruct (json_room json); cbn; repeat split; try lia.
  f_equal. lia.
Qed.

Lemma json_emitted_trans (j1 j2 j3 : json_container)
    (e1 e2 : list json_item) :
  json_emitted j1 j2 e1 -> json_emitted j2 j3 e2 ->
  json_emitted j1 j3 (e1 ++ e2).
Proof.
  unfold json_emitted, json_has_room.
  intros (Hi1 & Hr1 & Hh1) (Hi2 & Hr2 & Hh2).
  rewrite Hi2, Hi1, Hr2, app_assoc, length_app. rewrite Hr1 in Hh2 |- *.
  destruct (json_room j1); cbn in *; repeat split; try lia.
  f_equal. lia.
Qed.

Lemma json_put_emitted (item : json_item) (json json' : json_container) :
  json_put item json = Some json' -> json_emitted json json' [item].
Proof.
  unfold json_put, json_emitted, json_has_room.
  destruct (json_room json) as [[|n]|]; intros H; simplify_eq/=;
    repeat split; try lia.
  f_equal. lia.
Qed.

Lemma json_put_full (item : json_item) (json : json_container) :
  json_put item json = None -> json_room json = Some 0%nat.
Proof.
  unfold json_put. by destruct (json_room json) as [[|n]|].
Qed.

Lemma json_add_strings_spec (strings : list string)
    (json : json_container) :
  exists emitted,
    json_emitted json (json_add_strings strings json).2 emitted
    /\ if (json_add_strings strings json).1
       then emitted = JSON_STRING None <$> strings
       else json_room (json_add_strings strings json).2 = Some 0%nat
            /\ exists more,
                 more <> []
                 /\ JSON_STRING None <$> strings = (emitted ++ more)%list.
Proof.
  revert json. induction strings as [|s strings IH]; intros json.
  - exists []. split; [apply json_emitted_refl | done].
  - cbn [json_add_strings].
    destruct (json_put (JSON_STRING None s) json) as [j1|] eqn:Hp.
    + destruct (IH j1) as (e & He & Hres).
      exists (JSON_STRING None s :: e). split.
      * apply (json_emitted_trans _ j1 _ [_]); [|done].
        by apply json_put_emitted.
      * destruct (json_add_strings strings j1).1.
        -- by rewrite Hres.
        -- destruct Hres as (Hroom & more & Hne & Heq).
           split; [done|]. exists more. split; [done|].
           by rewrite fmap_cons, Heq.
    + exists []. split; [apply json_emitted_refl|]. cbn.
      split; [by eapply json_put_full|]. by eexists (_ :: _).
Qed.

Lemma json_render_all_cons (info : info_entry) (infos : list info_entry) :
  json_render_all (info :: infos)
  = (json_render info ++ json_render_all infos)%list.
Proof. done. Qed.

Lemma logsrvd_json_log_cb_spec (info_msgs : list info_entry)
    (json : json_container) :
  exists emitted,
    json_emitted json (logsrvd_json_log_cb info_msgs json).2 emitted
    /\ if (logsrvd_json_log_cb info_msgs json).1
       then emitted = json_render_all info_msgs
            /\ Forall (fun info => is_Some (info_value info)) info_msgs
       else exists more,
              json_render_all info_msgs = (emitted ++ more)%list
              /\ (~ Forall (fun info => is_Some (info_value info)) info_msgs
                  \/ (json_room (logsrvd_json_log_cb info_msgs json).2
                      = Some 0%nat /\ more <> [])).
Proof.
  revert json. induction info_msgs as [|info infos IH]; intros json.
  { exists []. split; [apply json_emitted_refl | done]. }
  assert (Hrest : forall j1 e1,
            json_emitted json j1 e1 -> e1 = json_render info ->
            is_Some (info_value info) ->
            exists emitted,
              json_emitted json (logsrvd_json_log_cb infos j1).2 emitted
              /\ if (logsrvd_json_log_cb infos j1).1
                 then emitted = json_render_all (info :: infos)
                      /\ Forall (fun info => is_Some (info_value info))
                           (info :: infos)
                 else exists more,
                        json_render_all (info :: infos)
                        = (emitted ++ more)%list
                        /\ (~ Forall (fun info => is_Some (info_value info))
                                (info :: infos)
                            \/ (json_room (logsrvd_json_log_cb infos j1).2
                                = Some 0%nat /\ more <> []))).
  { intros j1 e1 He1 -> Hknown.
    destruct (IH j1) as (e & He & Hres).
    exists (json_render info ++ e)%list.
    split; [by eapply json_emitted_trans|].
    rewrite json_render_all_cons.
    destruct (logsrvd_json_log_cb infos j1).1.
    - destruct Hres as [-> Hall]. split; [done|]. by constructor.
    - destruct Hres as (more & Heq & Hwhy). exists more.
      split; [by rewrite Heq, app_assoc|].
      destruct Hwhy as [Hn|Hfull]; [left|by right].
      intros Hall. apply Hn. by inversion Hall. }
  assert (Hfull : forall j1 e1 more,
            json_emitted json j1 e1 ->
            json_render info = (e1 ++ more)%list -> more <> [] ->
            json_room j1 = Some 0%nat ->
            exists emitted,
              json_emitted json j1 emitted
              /\ exists more,
                   json_render_all (info :: infos)
                   = (emitted ++ more)%list
                   /\ (~ Forall (fun info => is_Some (info_value info))
                           (info :: infos)
                       \/ (json_room j1 = Some 0%nat /\ more <> []))).
  { intros j1 e1 more He1 Heq Hne Hroom. exists e1. split; [done|].
    exists (more ++ json_render_all infos)%list.
    rewrite json_render_all_cons, Heq, <- app_assoc. split; [done|].
    right. split; [done|]. by destruct more. }
  cbn [logsrvd_json_log_cb]. unfold json_render in Hrest, Hfull.
  destruct (info_value info) as [[n|s|strings]|] eqn:Hv.
  - destruct (json_put _ json) as [j1|] eqn:Hp.
    + eapply (Hrest j1); [by apply json_put_emitted | done | by eexists].
    + eapply (Hfull json []);
        [apply json_emitted_refl | done | done | by eapply json_put_full].
  - destruct (json_put _ json) as [j1|] eqn:Hp.
    + eapply (Hrest j1); [by apply json_put_emitted | done | by eexists].
    + eapply (Hfull json []);
        [apply json_emitted_refl | done | done | by eapply json_put_full].
  - destruct (json_put _ json) as [j1|] eqn:Hp.
    + apply json_put_emitted in Hp.
      destruct (json_add_strings_spec strings j1) as (e & He & Hres).
      destruct (json_add_strings strings j1) as [ok j2].
      cbn [fst snd] in He, Hres.
      pose proof (json_emitted_trans _ _ _ _ _ Hp He) as H2.
      destruct ok; cbn [negb].
      * subst e.
        destruct (json_put JSON_ARRAY_CLOSE j2) as [j3|] eqn:Hc.
        -- apply json_put_emitted in Hc.
           eapply (Hrest j3);
             [|done | by eexists].
           pose proof (json_emitted_trans _ _ _ _ _ H2 Hc) as H3.
           by rewrite <- app_assoc in H3.
        -- eapply (Hfull j2 _ [JSON_ARRAY_CLOSE]);
             [exact H2 | done | done | by eapply json_put_full].
      * destruct Hres as (Hroom & more & Hne & Heq).
        eapply (Hfull j2 _ (more ++ [JSON_ARRAY_CLOSE])%list);
          [exact H2 | | by destruct more | done].
        cbn. by rewrite Heq, <- app_assoc.
    + eapply (Hfull json []);
        [apply json_emitted_refl | done | done | by eapply json_put_full].
  - exists []. split; [apply json_emitted_refl|]. cbn [fst snd].
    exists (json_render_all (info :: infos)). split; [done|]. left.
    intros Hall. inversion Hall as [|? ? [? Hk] _]; subst. congruence.
Qed.

(** X21.  What [logsrvd_json_log_cb] puts into the JSON container.  It
    adds items at the end and changes nothing else; what it adds is a
    prefix of the rendering of the info messages in their order (a number
    or a string under its key, a list of strings as an array under its
    key), and the whole rendering when it returns true.  When it fails,
    what was put before the failure stays in the container. *)
Theorem logsrvd_json_log_cb_emits (info_msgs : list info_entry)
    (json : json_container) :
  let r := logsrvd_json_log_cb info_msgs json in
  exists emitted,
    json_items r.2 = (json_items json ++ emitted)%list
    /\ emitted `prefix_of` json_render_all info_msgs
    /\ (r.1 = true -> emitted = json_render_all info_msgs).
Proof.
  intros r. subst r.
  destruct (logsrvd_json_log_cb_spec info_msgs json)
    as (e & (Hitems & _) & Hres).
  exists e. split; [done|].
  destruct (logsrvd_json_log_cb info_msgs json).1.
  - destruct Hres as [-> _]. done.
  - destruct Hres as (more & -> & _). split; [|done]. by exists more.
Qed.

(** X22.  [logsrvd_json_log_cb] returns true exactly when every info
    message has a numeric, string or string list value and the container
    has room for all the items of the rendering. *)
Theorem logsrvd_json_log_cb_true (info_msgs : list info_entry)
    (json : json_container) :
  (logsrvd_json_log_cb info_msgs json).1 = true
  <-> Forall (fun info => is_Some (info_value info)) info_msgs
      /\ json_has_room (length (json_render_all info_msgs)) json.
Proof.
  destruct (logsrvd_json_log_cb_spec info_msgs json)
    as (e & (Hitems & Hroom & Hhas) & Hres).
  destruct (logsrvd_json_log_cb info_msgs json).1.
  - destruct Hres as [-> Hall]. done.
  - split; [done|]. intros [Hall Hfits].
    destruct Hres as (more & Heq & [Hn|[Hfull Hne]]); [done|].
    rewrite Hfull in Hroom. rewrite Heq, length_app in Hfits.
    unfold json_has_room in Hhas, Hfits.
    destruct (json_room json) as [n|]; [|done]. cbn in Hroom.
    destruct more; [done|]. cbn in Hfits. simplify_eq. lia.
Qed.

(** ** The timing lines of window size and suspend events *)

(** X27.  A window size event that [store_winsize_local] stores adds one
    line to the timing file and touches no other log file: the event
    number, the seconds of the delay, a dot, its nanoseconds (between 0
    and 999999999) as nine digits, the rows and the columns, and a line
    feed.  The file system and the message of the closure stay as they
    are. *)
Theorem store_winsize_local_timing_line os msg buf buflen c fs c' fs' tf :
  store_winsize_local os msg buf buflen c fs = (true, c', fs') ->
  iolog_files c !! IOFD_TIMING = Some tf ->
  (0 <= PB.tv_nsec (PB.winsize_delay msg) <= 999999999)%Z ->
  contents <$> iolog_files c' !! IOFD_TIMING
  = Some (contents tf
          ++ bytes_of_string
               (fmt_d IO_EVENT_WINSIZE ++ " "
                ++ fmt_d (PB.tv_sec (PB.winsize_delay msg)) ++ "."
                ++ fixed_digits 9 (PB.tv_nsec (PB.winsize_delay msg))
                ++ " " ++ fmt_d (PB.rows msg) ++ " " ++ fmt_d (PB.cols msg)
                ++ String "010" ""))%list
  /\ (forall j, j <> IOFD_TIMING ->
        iolog_files c' !! j = iolog_files c !! j)
  /\ fs' = fs /\ errstr c' = errstr c.
Proof.
  unfold store_winsize_local. intros H Htf Hnsec.
  destruct (_ || _); [discriminate|].
  destruct (iolog_write _ IOFD_TIMING _ c) as [c1|] eqn:Hw; [|discriminate].
  pose proof (iolog_write_errstr _ _ _ _ _ Hw) as He.
  apply iolog_write_lookup in Hw as (f & Hf & Hfiles).
  rewrite Htf in Hf. injection Hf as <-.
  injection H as <- <-. cbn [iolog_files errstr set_elapsed_time].
  rewrite Hfiles. split; [|split; [|done]].
  - rewrite list_lookup_insert_eq by (by eapply lookup_lt_Some).
    cbn. unfold winsize_timing_line.
    by rewrite fmt_0d_fixed by (cbn; lia).
  - intros j Hj. by rewrite list_lookup_insert_ne.
Qed.

(** X28.  A suspend event that [store_suspend_local] stores adds one
    line to the timing file and touches no other log file: the event
    number, the seconds of the delay, a dot, its nanoseconds (between 0
    and 999999999) as nine digits, the signal name as the client has sent
    it, and a line feed; the whole line is shorter than 1024
    characters. *)
Theorem store_suspend_local_timing_line os msg buf buflen c fs c' fs' tf :
  store_suspend_local os msg buf buflen c fs = (true, c', fs') ->
  iolog_files c !! IOFD_TIMING = Some tf ->
  (0 <= PB.tv_nsec (PB.suspend_delay msg) <= 999999999)%Z ->
  let line := fmt_d IO_EVENT_SUSPEND ++ " "
              ++ fmt_d (PB.tv_sec (PB.suspend_delay msg)) ++ "."
              ++ fixed_digits 9 (PB.tv_nsec (PB.suspend_delay msg))
              ++ " " ++ PB.suspend_signal msg ++ String "010" "" in
  contents <$> iolog_files c' !! IOFD_TIMING
  = Some (contents tf ++ bytes_of_string line)%list
  /\ (String.length line < 1024)%nat
  /\ (forall j, j <> IOFD_TIMING ->
        iolog_files c' !! j = iolog_files c !! j)
  /\ fs' = fs /\ errstr c' = errstr c.
Proof.
  intros H Htf Hnsec line. unfold store_suspend_local in H.
  assert (Hline : suspend_timing_line msg = line).
  { unfold suspend_timing_line, line.
    by rewrite fmt_0d_fixed by (cbn; lia). }
  rewrite Hline in H.
  destruct (Z.leb_spec 1024 (Z.of_nat (String.length line))) as [|Hlt];
    [by rewrite orb_true_r in H|].
  rewrite orb_false_r in H.
  destruct (Z.of_nat (String.length line) <? 0)%Z; [discriminate|].
  destruct (iolog_write _ IOFD_TIMING _ c) as [c1|] eqn:Hw; [|discriminate].
  pose proof (iolog_write_errstr _ _ _ _ _ Hw) as He.
  apply iolog_write_lookup in Hw as (f & Hf & Hfiles).
  rewrite Htf in Hf. injection Hf as <-.
  injection H as <- <-. cbn [iolog_files errstr set_elapsed_time].
  rewrite Hfiles. split; [|split; [lia|split; [|done]]].
  - by rewrite list_lookup_insert_eq by (by eapply lookup_lt_Some).
  - intros j Hj. by rewrite list_lookup_insert_ne.
Qed.


End Logsrvd.

(** ** The driver of the fuzz targets *)

Lemma fuzz_one_spec (st : fuzz_state) (f : input_file) :
  fz_errors (fuzz_one st f) + length (fz_runs (fuzz_one st f))
  = S (fz_errors st + length (fz_runs st))
  /\ fz_bufsize st <= fz_bufsize (fuzz_one st f)
  /\ (exists new,
        fz_runs (fuzz_one st f) = (fz_runs st ++ new)%list
        /\ Forall (fun run => length run <= fz_bufsize (fuzz_one st f)) new
        /\ new = if fuzz_accepts (fz_bufsize st) f
                 then [take (default 0 (in_st_size f)) (in_data f)]
                 else [])
  /\ fz_errors (fuzz_one st f)
     = (if fuzz_accepts (fz_bufsize st) f then 0 else 1) + fz_errors st.
Proof.
  unfold fuzz_one, fuzz_accepts, fuzz_error.
  destruct (in_open_ok f); cbn [fz_errors fz_runs fz_bufsize];
    [|split; [lia|]; split; [lia|]; split; [|done];
      exists []; by rewrite app_nil_r].
  destruct (in_st_size f) as [filesize|]; cbn [fz_errors fz_runs fz_bufsize];
    [|split; [lia|]; split; [lia|]; split; [|done];
      exists []; by rewrite app_nil_r].
  cbn [default from_option id].
  destruct (Nat.ltb_spec (fz_bufsize st) filesize) as [Hgrow|Hfits];
    destruct (Nat.leb_spec filesize (fz_bufsize st)); try lia;
    destruct (in_realloc_ok f); cbn [negb andb orb];
    destruct (in_read_ok f); cbn [negb andb orb fz_errors fz_runs fz_bufsize];
    try (split; [lia|]; split; [lia|]; split; [|done];
         exists []; by rewrite app_nil_r);
    rewrite length_take;
    (destruct (Nat.leb_spec filesize (length (in_data f)));
     [rewrite (proj2 (Nat.eqb_eq _ _)) by lia
     |rewrite (proj2 (Nat.eqb_neq _ _)) by lia]);
    cbn [negb fz_errors fz_runs fz_bufsize];
    rewrite ?length_app; cbn [length];
    (split; [lia|]; split; [lia|]; split; [|done]);
    try (exists []; by rewrite app_nil_r);
    (eexists; split; [done|]; split; [|done];
     constructor; [rewrite length_take; lia | done]).
Qed.

Lemma fuzz_foldl_spec (files : list input_file) (st : fuzz_state) :
  let st' := foldl fuzz_one st files in
  fz_errors st' + length (fz_runs st')
  = fz_errors st + length (fz_runs st) + length files
  /\ fz_bufsize st <= fz_bufsize st'
  /\ exists new,
       fz_runs st' = (fz_runs st ++ new)%list
       /\ Forall (fun run => length run <= fz_bufsize st') new
       /\ new `sublist_of`
            ((fun f => take (default 0 (in_st_size f)) (in_data f))
             <$> files)
       /\ (Forall (fun f => in_realloc_ok f = true) files ->
           new = (fun f => take (default 0 (in_st_size f)) (in_data f))
                 <$> filter (fun f => fuzz_accepts 0 f = true) files).
Proof.
  revert st. induction files as [|f files IH]; intros st; cbn zeta.
  - cbn. split; [lia|]. split; [lia|]. exists []. rewrite app_nil_r.
    by repeat split.
  - cbn [foldl length].
    destruct (fuzz_one_spec st f) as (Hc & Hb & (n1 & Hr & Hf & Hn) & _).
    destruct (IH (fuzz_one st f)) as (Hc' & Hb' & n2 & Hr' & Hf' & Hs & Ha).
    split; [lia|]. split; [lia|].
    exists (n1 ++ n2)%list. rewrite Hr', Hr, app_assoc. split; [done|].
    split; [|split].
    + apply Forall_app. split; [|done].
      eapply Forall_impl; [exact Hf|]. cbn. intros. lia.
    + rewrite fmap_cons, Hn.
      destruct (fuzz_accepts (fz_bufsize st) f); cbn [app].
      * by apply sublist_skip.
      * by apply sublist_cons.
    + intros Hall. inversion Hall as [|? ? Hre Hall']; subst.
      rewrite (Ha Hall').
      assert (Hacc : fuzz_accepts (fz_bufsize st) f = fuzz_accepts 0 f).
      { unfold fuzz_accepts. rewrite Hre.
        destruct (if in_open_ok f then in_st_size f else None); [|done].
        by rewrite !orb_true_r. }
      rewrite Hacc, filter_cons.
      destruct (fuzz_accepts 0 f) eqn:H0.
      * rewrite decide_True by done. done.
      * rewrite decide_False by done. done.
Qed.

(** X23.  The driver handles every input file exactly once: it either
    counts it as an error or hands it to the fuzz target, so the count of
    errors that [main] returns and the number of runs add up to the
    number of files.  The runs come in the order of the files, each with
    the first [st_size] bytes of its file, and none is longer than the
    buffer, which only grows. *)
Theorem fuzz_main_counts (files : list input_file) :
  let st := fuzz_main files in
  fz_errors st + length (fz_runs st) = length files
  /\ Forall (fun run => length run <= fz_bufsize st) (fz_runs st)
  /\ fz_runs st
     `sublist_of` ((fun f => take (default 0 (in_st_size f)) (in_data f))
                   <$> files).
Proof.
  unfold fuzz_main.
  destruct (fuzz_foldl_spec files
              {| fz_bufsize := 0; fz_errors := 0; fz_runs := [] |})
    as (Hc & _ & new & Hr & Hf & Hs & _).
  cbn zeta in *. cbn [fz_errors fz_runs length app] in Hc, Hr.
  split; [lia|]. rewrite Hr. by split.
Qed.

(** X24.  A file that fails does not stop the driver.  When [realloc]
    never fails, the fuzz target is run on exactly the files that can be
    opened, whose size [fstat] reports and that [read] delivers in full,
    in their order; the count of errors that [main] returns is the
    number of the other files. *)
Theorem fuzz_main_runs (files : list input_file) :
  Forall (fun f => in_realloc_ok f = true) files ->
  let st := fuzz_main files in
  let good := filter (fun f => fuzz_accepts 0 f = true) files in
  fz_runs st
  = (fun f => take (default 0 (in_st_size f)) (in_data f)) <$> good
  /\ fz_errors st = length files - length good.
Proof.
  intros Hall. unfold fuzz_main.
  destruct (fuzz_foldl_spec files
              {| fz_bufsize := 0; fz_errors := 0; fz_runs := [] |})
    as (Hc & _ & new & Hr & _ & _ & Ha).
  cbn zeta in *. cbn [fz_errors fz_runs length app] in Hc, Hr.
  rewrite Hr, (Ha Hall). split; [done|].
  rewrite Hr, (Ha Hall), length_fmap in Hc. lia.
Qed.

(** ** Creating an I/O log directory *)

(** X25.  [iolog_mkdtemp] gives back the ids it has taken.  After a call
    the process runs with the ids of the I/O log owner only when a swap
    to them has succeeded and the swap back has failed, and the call
    returns false then: a call that returns true has restored the
    ids. *)
Theorem iolog_mkdtemp_restores_ids (env : mkdtemp_answers) :
  let r := iolog_mkdtemp env in
  (ids_swapped r.2 = true -> r.1 = false /\ md_restore_ok env = false)
  /\ (r.1 = true -> ids_swapped r.2 = false).
Proof.
  destruct env as [[] [] [] [] [] [] [] []]; vm_compute; split; intros;
    (done || by split).
Qed.

(** X26.  When [iolog_mkdtemp] returns true.  If the parent directories
    can be made at once: when [mkdtemp] succeeds and, if the ids were
    swapped for it, the swap back succeeds ([mkdtemp] is called with the
    ids unchanged when the swap fails).  If making them fails with
    EACCES: when the swap, the second attempt as the I/O log owner,
    [mkdtemp] and the swap back all succeed.  Never otherwise; and the
    result of [chmod] does not matter. *)
Theorem iolog_mkdtemp_true (env : mkdtemp_answers) :
  (iolog_mkdtemp env).1
  = if md_mkdir_ok env then
      md_mkdtemp_ok env
      && (negb (md_swap_again_ok env) || md_restore_ok env)
    else
      md_eacces env && md_swap_ok env && md_mkdir_retry_ok env
      && md_mkdtemp_ok env && md_restore_ok env.
Proof. by destruct env as [[] [] [] [] [] [] [] []]. Qed.


(** ** The properties on concrete sessions

    The server of the examples relays through "/relay", names its
    journals after "log.XXXXXX", takes messages of at most 2 MiB and
    decodes them with the toy decoder; its I/O logs have mode 0600 and
    the timing slot is slot 5. *)

Local Abbreviation sample_journal :=
  (cms_journal "/relay" "log.XXXXXX" 4096 2097152 toy_unpack).
Local Abbreviation sample_local := (cms_local 384 5%nat 5 7 0%Q).
Local Abbreviation bytes := bytes_of_string.

Lemma length_bytes_of_string (s : string) :
  length (bytes_of_string s) = String.length s.
Proof.
  unfold bytes_of_string, list_byte_of_string. rewrite List.length_map.
  induction s as [|a s IH]; [reflexivity |]. simpl. by rewrite IH.
Qed.

(** C1 (the code departs from the claim).  The session accept, window
    resize after one second, exit is handled successfully by both sinks.
    The sum of its delays is one second, and so is the elapsed time the
    local sink ends with; the journal sink ends with zero. *)
Theorem journal_elapsed_misses_winsize :
  let msgs := ev_msg <$> winsize_session in
  let j := run_session sample_journal winsize_session closure_init fs_empty in
  let l := run_session sample_local winsize_session closure_init fs_empty in
  j.1.1 = true /\ l.1.1 = true
  /\ sum_of_delays msgs = {| tv_sec := 1; tv_nsec := 0 |}
  /\ elapsed_time l.1.2 = sum_of_delays msgs
  /\ elapsed_time j.1.2 = timespec_zero
  /\ elapsed_time j.1.2 <> sum_of_delays msgs.
Proof. vm_compute. repeat split; discriminate. Qed.

(** C2 as stated fails on a session that resumes a journal: the restart
    message is not written, and the finalized journal begins with the
    frames that were there before. *)
Lemma journal_restart_session_not_round_trip :
  let fs := fs_journal (frame (bytes "A")) in
  let r := run_session sample_journal restart_session closure_init fs in
  r.1.1 = true
  /\ journal_path r.1.2 = Some outgoing_path
  /\ read_file r.2 outgoing_path ≫= journal_frames
     = Some [bytes "A"; bytes "E"]
  /\ read_file r.2 outgoing_path ≫= journal_frames
     <> Some (ev_raw <$> restart_session).
Proof. vm_compute. repeat split; discriminate. Qed.

Lemma journal_round_trip_witness :
  let ses := ev_accept :: [ev_iobuf; ev_winsize] ++ [ev_exit] in
  let r := run_session sample_journal ses closure_init fs_empty in
  exists path,
    journal_path r.1.2 = Some path
    /\ read_file r.2 path ≫= journal_frames = Some (ev_raw <$> ses).
Proof.
  intros ses r.
  apply (journal_round_trip "/relay" "log.XXXXXX" 4096 2097152 toy_unpack
           ev_accept [ev_iobuf; ev_winsize] ev_exit closure_init fs_empty
           r.1.2 r.2).
  - reflexivity.
  - repeat constructor.
  - reflexivity.
  - repeat constructor; unfold fits_uint32; cbn; lia.
  - vm_compute. reflexivity.
Defined.

Lemma journal_seek_exact_witness :
  let fs := fs_journal (encode_frames [bytes "A"; bytes "W"; bytes "W"]
                        ++ htonl 3 ++ bytes "W")%list in
  let target := {| tv_sec := 1; tv_nsec := 0 |} in
  (journal_seek 2097152 toy_unpack os_ok target closure_journal fs).1 = true.
Proof.
  intros fs target.
  assert (Hdec : decodes_to 2097152 toy_unpack
                   [bytes "A"; bytes "W"; bytes "W"]
                   [PB.TYPE_ACCEPT_MSG (accept_msg true);
                    PB.TYPE_WINSIZE_EVENT (winsize_msg 1 0);
                    PB.TYPE_WINSIZE_EVENT (winsize_msg 1 0)]).
  { repeat constructor; unfold fits_uint32; cbn; lia. }
  assert (Htail : truncated 2097152 (htonl 3 ++ bytes "W")%list).
  { right. exists (htonl 3), (bytes "W").
    repeat split; [vm_compute; discriminate | vm_compute; lia]. }
  destruct (journal_seek_exact 2097152 toy_unpack os_ok target
              closure_journal fs _ _ _ _ eq_refl eq_refl eq_refl eq_refl
              eq_refl Hdec Htail) as [Hiff _].
  apply Hiff.
  exists [timespec_zero], [{| tv_sec := 2; tv_nsec := 0 |}].
  split; [reflexivity |].
  repeat constructor.
Defined.

Lemma journal_seek_too_large_witness :
  let file := (encode_frames [bytes "A"] ++ htonl 2097153 ++ [])%list in
  let target := {| tv_sec := 5; tv_nsec := 0 |} in
  let r := journal_seek 2097152 toy_unpack os_ok target closure_journal
             (fs_journal file) in
  r.1 = false
  /\ errstr r.2 = Some "client message too large"
  /\ f_pos <$> journal r.2 = Some 9%nat.
Proof.
  intros file target.
  eapply (journal_seek_too_large 2097152 toy_unpack os_ok target
            closure_journal (fs_journal file) _ [bytes "A"]
            [PB.TYPE_ACCEPT_MSG (accept_msg true)] (htonl 2097153) []).
  - reflexivity.
  - reflexivity.
  - reflexivity.
  - reflexivity.
  - repeat constructor; unfold fits_uint32; cbn; lia.
  - repeat constructor.
  - reflexivity.
  - vm_compute. reflexivity.
Defined.

(** C4 (the code departs from the claim).  A journal that the restart
    operation reopens is not locked, while one that is created on accept
    is. *)
Theorem journal_restart_not_locked :
  let r := journal_restart "/relay" 4096 2097152 toy_unpack os_ok restart_msg
             (bytes "R") 1 closure_init (fs_journal (frame (bytes "A"))) in
  let r' := journal_create "/relay" "log.XXXXXX" 4096 (ev_os ev_accept)
              closure_init fs_empty in
  r.1.1 = true
  /\ fd_locked ∘ f_fd <$> journal r.1.2 = Some false
  /\ r'.1.1 = true
  /\ fd_locked ∘ f_fd <$> journal r'.1.2 = Some true.
Proof. vm_compute. repeat split. Qed.

Lemma local_exit_marks_complete_witness :
  let fs' := (store_exit_local 384 os_ok exit_msg [] 0 closure_iolog
                fs_iolog).2 in
  let rmsg := {| PB.log_id := "00/00/01";
                 PB.resume_point := {| PB.tv_sec := 0; PB.tv_nsec := 0 |} |}
  in
  let r := store_restart_local os_ok rmsg [] 0 closure_init fs' in
  r.1.1 = false
  /\ errstr r.1.2 = Some "log is already complete, cannot be restarted".
Proof.
  intros fs' rmsg.
  destruct (local_exit_marks_complete 384 os_ok exit_msg [] 0 closure_iolog
              fs_iolog "00/00/01" eq_refl eq_refl
              ltac:(vm_compute; eauto))
    as (_ & Hmode & _ & Hrestart).
  destruct (Hmode eq_refl) as (mode & Hm & Hu & _).
  by apply (Hrestart os_ok rmsg closure_init fs' mode).
Defined.

Lemma journal_restart_path_witness :
  let r := journal_restart "/relay" 4096 2097152 toy_unpack os_ok restart_msg
             (bytes "R") 1 closure_init (fs_journal (frame (bytes "A"))) in
  journal_path r.1.2 = Some "/relay/incoming/log.aaaaaa".
Proof.
  intros r.
  destruct (journal_restart_path "/relay" 4096 2097152 toy_unpack os_ok
              restart_msg (bytes "R") 1 closure_init
              (fs_journal (frame (bytes "A")))
              {| f_fd := {| fd_ino := 7; fd_locked := false |}; f_pos := 5;
                 f_wbuf := [] |}
              eq_refl ltac:(vm_compute; reflexivity))
    as (stripped & Hpath & _ & Hhost & _).
  fold r in Hpath. rewrite Hpath.
  by rewrite (Hhost "host" "log.aaaaaa" eq_refl ltac:(discriminate)
                ltac:(vm_compute; intuition discriminate)).
Defined.

(** C8 as stated fails on a delay of 1000000000 nanoseconds, which a
    client may send: the call succeeds and the line has ten digits behind
    the point, so that no field of nine characters makes the line. *)
Lemma store_iobuf_local_nsec_ten_digits :
  let iobuf := iobuf_msg 0 1000000000 "abc" in
  let r := store_iobuf_local 5 0 os_ok 4 iobuf [] 0 closure_init fs_empty in
  r.1.1 = true
  /\ contents <$> iolog_files r.1.2 !! 5%nat
     = Some (bytes ("4 0.1000000000 3" ++ String "010" ""))
  /\ forall nsec9,
       String.length nsec9 = 9%nat ->
       contents <$> iolog_files r.1.2 !! 5%nat
       <> Some (bytes (fmt_d 4 ++ " " ++ fmt_d 0 ++ "." ++ nsec9 ++ " "
                       ++ fmt_u 3 ++ String "010" "")).
Proof.
  intros iobuf r. split; [|split]; [vm_compute; reflexivity.. |].
  intros nsec9 Hlen Heq.
  assert (Hr : length <$> (contents <$> iolog_files r.1.2 !! 5%nat)
               = Some 17%nat)
    by (vm_compute; reflexivity).
  rewrite Heq in Hr. cbn [fmap option_fmap option_map] in Hr.
  rewrite length_bytes_of_string, !string_length_app, Hlen in Hr.
  vm_compute in Hr. discriminate.
Qed.

Lemma store_iobuf_local_timing_line_witness :
  let iobuf := iobuf_msg 0 100000000 "abc" in
  let r := store_iobuf_local 5 0 os_ok 4 iobuf [] 0 closure_init fs_empty in
  contents <$> iolog_files r.1.2 !! 5%nat
  = Some (bytes ("4 0.100000000 3" ++ String "010" ""))
  /\ contents <$> iolog_files r.1.2 !! 4%nat = Some (bytes "abc").
Proof.
  intros iobuf r.
  destruct (store_iobuf_local_timing_line 5 0 os_ok 4 iobuf [] 0
              closure_init fs_empty r.1.2 r.2 iolog_file_closed
              iolog_file_closed
              ltac:(vm_compute; reflexivity) ltac:(discriminate)
              eq_refl eq_refl)
    as (Htiming & Hdata & _).
  split; [exact Htiming | exact Hdata].
Defined.

Lemma store_iobuf_local_random_drop_witness :
  let os := os_sample None None true (1 # 4) in
  let iobuf := iobuf_msg 0 100000000 "abc" in
  let r := store_iobuf_local 5 (1 # 2) os 4 iobuf [] 0 closure_init
             fs_empty in
  r.1.1 = false /\ errstr r.1.2 = None.
Proof.
  intros os iobuf.
  destruct (store_iobuf_local_random_drop 5 (1 # 2) os 4 iobuf [] 0
              closure_init fs_empty _ _ _
              eq_refl ltac:(vm_compute; lia) eq_refl eq_refl)
    as [Hdrop _].
  apply Hdrop; reflexivity.
Defined.

Lemma journal_finish_rename_fails_witness :
  let os := os_sample (Some outgoing_path) None false 0 in
  let fs := fs_journal (frame (bytes "A")) in
  let r := journal_finish "/relay" "log.XXXXXX" 4096 os closure_journal fs in
  r.1.1 = false
  /\ errstr r.1.2 = Some "unable to rename journal file"
  /\ names r.2 !! outgoing_path = None
  /\ names r.2 = names fs
  /\ read_file r.2 incoming_path = Some (frame (bytes "A"))
  /\ journal_path r.1.2 = Some incoming_path.
Proof.
  intros os fs.
  apply (journal_finish_rename_fails "/relay" "log.XXXXXX" 4096 os
           closure_journal fs _ incoming_path _ _ _ outgoing_path _
           eq_refl eq_refl eq_refl eq_refl eq_refl).
Defined.

(** ** The further properties at concrete inputs *)

Lemma journal_create_fresh_witness :
  let r := journal_create "/relay" "log.XXXXXX" 4096 (ev_os ev_accept)
             closure_init fs_empty in
  exists f p,
    journal r.1.2 = Some f /\ journal_path r.1.2 = Some p
    /\ names fs_empty !! p = None
    /\ names r.2 = <[p := fd_ino (f_fd f)]> (names fs_empty)
    /\ inodes fs_empty !! fd_ino (f_fd f) = None
    /\ inodes r.2 = <[fd_ino (f_fd f) := []]> (inodes fs_empty)
    /\ fd_locked (f_fd f) = true /\ f_pos f = 0%nat /\ f_wbuf f = []
    /\ String.length p = String.length "/relay/incoming/log.XXXXXX"
    /\ (Z.of_nat (String.length p) < 4096)%Z.
Proof.
  intros r.
  apply (journal_create_fresh "/relay" "log.XXXXXX" 4096 (ev_os ev_accept)
           closure_init fs_empty r.1.2 r.2).
  vm_compute. reflexivity.
Defined.

Lemma journal_create_cleans_up_witness :
  let os := os_failing (Some incoming_path) false true true in
  let r := journal_create "/relay" "log.XXXXXX" 4096 os closure_init
             fs_empty in
  names r.2 = names fs_empty
  /\ ((errstr r.1.2 = Some "unable to create journal file"
       /\ r.2 = fs_empty)
      \/ (errstr r.1.2 = Some "unable to lock journal file"
          /\ lock_ok os = false)
      \/ (errstr r.1.2 = Some "unable to allocate memory"
          /\ (strdup_ok os = false \/ fdopen_ok os = false))).
Proof.
  intros os r.
  apply (journal_create_cleans_up "/relay" "log.XXXXXX" 4096 os
           closure_init fs_empty r.1.2 r.2).
  vm_compute. reflexivity.
Defined.

Lemma journal_finish_moves_witness :
  let fs := fs_journal (frame (bytes "A")) in
  let r := journal_finish "/relay" "log.XXXXXX" 4096 (ev_os ev_exit)
             closure_journal fs in
  exists f new,
    journal closure_journal = Some f /\ journal_path r.1.2 = Some new
    /\ new <> incoming_path /\ names fs !! new = None
    /\ names r.2 = <[new := 7%nat]> (delete incoming_path (names fs))
    /\ names r.2 !! incoming_path = None
    /\ journal r.1.2 = Some {| f_fd := f_fd f; f_pos := 0; f_wbuf := [] |}
    /\ inodes r.2 !! fd_ino (f_fd f)
       = Some (write_at (f_pos f - length (f_wbuf f)) (f_wbuf f)
                 (default [] (inodes fs !! fd_ino (f_fd f))))
    /\ String.length new = String.length "/relay/outgoing/log.XXXXXX".
Proof.
  intros fs r.
  apply (journal_finish_moves "/relay" "log.XXXXXX" 4096 (ev_os ev_exit)
           closure_journal fs r.1.2 r.2 incoming_path 7%nat).
  - reflexivity.
  - vm_compute. reflexivity.
  - vm_compute. reflexivity.
Defined.

(** The failure after the move: a journal under a shorter name, and a
    path that cannot be duplicated. *)
Lemma journal_finish_failure_witness :
  let os := os_failing (Some outgoing_path) true false true in
  let r := journal_finish "/relay" "log.XXXXXX" 4096 os closure_short
             fs_short in
  r.1.1 = false
  /\ errstr r.1.2 = Some "unable to allocate memory"
  /\ journal_path r.1.2 = None
  /\ names r.2 !! short_path = None
  /\ names r.2 !! outgoing_path = Some 7%nat.
Proof.
  intros os r.
  destruct (journal_finish_failure "/relay" "log.XXXXXX" 4096 os
              closure_short fs_short r.1.2 r.2 _ short_path eq_refl eq_refl
              ltac:(vm_compute; reflexivity))
    as [(He & _)|[(He & _)|(He & Hp & new & _)]].
  - vm_compute in He. discriminate He.
  - vm_compute in He. discriminate He.
  - split; [vm_compute; reflexivity|]. split; [exact He|].
    split; [exact Hp|]. vm_compute. split; reflexivity.
Defined.

Lemma journal_finish_after_create_witness :
  let c1 := journal_create "/relay" "log.XXXXXX" 4096 (ev_os ev_accept)
              closure_init fs_empty in
  let r := journal_finish "/relay" "log.XXXXXX" 4096 (ev_os ev_exit)
             c1.1.2 c1.2 in
  (r.1.1 = false ->
   names r.2 = names c1.2 /\ journal_path r.1.2 = journal_path c1.1.2)
  /\ (r.1.1 = true ->
      String.length <$> journal_path r.1.2
      = String.length <$> journal_path c1.1.2).
Proof.
  intros c1 r.
  apply (journal_finish_after_create "/relay" "log.XXXXXX" 4096
           (ev_os ev_accept) closure_init fs_empty c1.1.2 c1.2
           (ev_os ev_exit) c1.1.2 c1.2).
  - vm_compute. reflexivity.
  - reflexivity.
Defined.

Lemma journal_seek_outcome_witness :
  let fs := fs_journal (frame (bytes "A") ++ htonl 3 ++ bytes "W")%list in
  let target := {| tv_sec := 1; tv_nsec := 0 |} in
  let r := journal_seek 2097152 toy_unpack os_ok target closure_journal fs in
  r.1 = false
  /\ errstr r.2 = Some "unexpected EOF reading journal file"
  /\ f_pos <$> journal r.2 = Some 10%nat.
Proof.
  intros fs target r.
  destruct (journal_seek_outcome 2097152 toy_unpack os_ok target
              closure_journal fs _ eq_refl)
    as (_ & Hfalse & f' & Hj & _ & _ & Hpos).
  fold r in Hfalse, Hj.
  assert (Hr : r.1 = false) by (vm_compute; reflexivity).
  split; [exact Hr|]. split.
  - destruct (Hfalse Hr) as [He|[He|[He|[He|He]]]];
      [exact He | vm_compute in He; discriminate He
       | vm_compute in He; discriminate He
       | vm_compute in He; discriminate He
       | vm_compute in He; discriminate He].
  - vm_compute. reflexivity.
Defined.

Lemma journal_seek_undecodable_witness :
  let file := (encode_frames [bytes "A"] ++ frame (bytes "X") ++ [])%list in
  let target := {| tv_sec := 5; tv_nsec := 0 |} in
  let r := journal_seek 2097152 toy_unpack os_ok target closure_journal
             (fs_journal file) in
  r.1 = false
  /\ errstr r.2 = Some "invalid journal file, unable to restart"
  /\ f_pos <$> journal r.2 = Some 10%nat
  /\ elapsed_time r.2 = timespec_zero.
Proof.
  intros file target.
  eapply (journal_seek_undecodable 2097152 toy_unpack os_ok target
            closure_journal (fs_journal file) _ [bytes "A"]
            [PB.TYPE_ACCEPT_MSG (accept_msg true)] (bytes "X") []).
  - reflexivity.
  - reflexivity.
  - reflexivity.
  - reflexivity.
  - repeat constructor; unfold fits_uint32; cbn; lia.
  - repeat constructor.
  - reflexivity.
  - vm_compute. discriminate.
  - unfold fits_uint32. vm_compute. reflexivity.
Defined.


Lemma journal_accept_log_id_witness :
  let r := journal_accept "/relay" "log.XXXXXX" 4096 (ev_os ev_accept)
             (accept_msg true) (bytes "A") 1 closure_init fs_empty in
  let fs2 := {| names := {[ "/relay/incoming//relay/incoming/log.aaaaaa"
                            := 7%nat ]};
                inodes := {[ 7%nat := frame (bytes "A") ]};
                timing_mode := ∅ |} in
  let rr := journal_restart "/relay" 4096 2097152 toy_unpack os_ok
              {| PB.log_id := incoming_path;
                 PB.resume_point := {| PB.tv_sec := 0; PB.tv_nsec := 0 |} |}
              (bytes "R") 1 closure_init fs2 in
  journal_path r.1.2 = Some incoming_path
  /\ write_queue r.1.2 = [incoming_path]
  /\ journal_path rr.1.2
     = Some "/relay/incoming//relay/incoming/log.aaaaaa"
  /\ journal_path rr.1.2 <> Some incoming_path.
Proof.
  intros r fs2 rr.
  destruct (journal_accept_log_id "/relay" "log.XXXXXX" 4096 2097152
              toy_unpack (ev_os ev_accept) (accept_msg true) (bytes "A") 1
              closure_init fs_empty r.1.2 r.2
              ltac:(vm_compute; reflexivity))
    as (p & Hp & _ & Hq & _ & Hrestart).
  assert (Hpp : p = incoming_path).
  { assert (Hc : journal_path r.1.2 = Some incoming_path)
      by (vm_compute; reflexivity).
    rewrite Hp in Hc. injection Hc as Hc. exact Hc. }
  subst p.
  split; [exact Hp|]. split; [exact Hq|].
  apply (Hrestart os_ok
           {| PB.log_id := incoming_path;
              PB.resume_point := {| PB.tv_sec := 0; PB.tv_nsec := 0 |} |}
           (bytes "R") 1%Z closure_init fs2 eq_refl).
  vm_compute. reflexivity.
Defined.

Lemma journal_session_keeps_lock_witness :
  let r := run_session sample_journal [ev_accept; ev_iobuf; ev_winsize;
                                       ev_exit] closure_init fs_empty in
  exists f,
    journal r.1.2 = Some f /\ fd_locked (f_fd f) = true
    /\ journal_path r.1.2 = Some outgoing_path.
Proof.
  intros r.
  pose (c1 := handle sample_journal (ev_os ev_accept) (ev_msg ev_accept)
                (ev_raw ev_accept) 1 closure_init fs_empty).
  destruct (journal_session_keeps_lock "/relay" "log.XXXXXX" 4096 2097152
              toy_unpack ev_accept [ev_iobuf; ev_winsize; ev_exit]
              closure_init fs_empty c1.1.2 c1.2 eq_refl
              ltac:(vm_compute; reflexivity)
              ltac:(repeat constructor))
    as (f1 & f & _ & Hf & _ & Hl).
  exists f. split; [|split; [exact Hl|]].
  - rewrite <- Hf. vm_compute. reflexivity.
  - vm_compute. reflexivity.
Defined.

(** A restart in front of two old frames, and an exit message: the
    frame of the exit message has taken the place of the first of them,
    the second is still in the finalized journal. *)
Lemma journal_restart_overwrites_witness :
  let fs := fs_journal (frame (bytes "A") ++ frame (bytes "W")
                        ++ frame (bytes "W"))%list in
  let r := run_session sample_journal restart_session closure_init fs in
  exists q,
    journal_path r.1.2 = Some q
    /\ read_file r.2 q ≫= journal_frames
       = Some [bytes "A"; bytes "E"; bytes "W"].
Proof.
  intros fs r.
  destruct (journal_restart_overwrites "/relay" "log.XXXXXX" 4096 2097152
              toy_unpack os_ok restart_msg (bytes "R") [] ev_exit
              closure_init fs r.1.2 r.2 7%nat [] [] (bytes "A")
              (PB.TYPE_ACCEPT_MSG (accept_msg true))
              (frame (bytes "W") ++ frame (bytes "W"))%list
              ltac:(vm_compute; reflexivity) ltac:(vm_compute; reflexivity)
              eq_refl ltac:(constructor) ltac:(constructor) eq_refl
              ltac:(vm_compute; discriminate)
              ltac:(unfold fits_uint32; vm_compute; reflexivity)
              eq_refl ltac:(constructor) eq_refl
              ltac:(repeat constructor; unfold fits_uint32; vm_compute;
                    reflexivity)
              ltac:(vm_compute; reflexivity))
    as (q & Hq & Hread).
  exists q. split; [exact Hq|]. rewrite Hread. vm_compute. reflexivity.
Defined.

Lemma set_random_drop_unchecked_witness :
  let random_drop := (set_random_drop toy_strtod "150").2 in
  let iobuf := iobuf_msg 0 100000000 "abc" in
  (set_random_drop toy_strtod "150").1 = true
  /\ (store_iobuf_local 5 random_drop os_ok 4 iobuf [] 0 closure_init
        fs_empty).1.1 = false.
Proof.
  intros random_drop iobuf. split; [reflexivity|].
  destruct (set_random_drop_unchecked 5 toy_strtod "150" random_drop os_ok
              4 iobuf [] 0 closure_init fs_empty eq_refl) as [Hover _].
  apply Hover; vm_compute; [reflexivity | discriminate].
Defined.


Lemma iobuf_timing_line_fits_witness :
  let iobuf := iobuf_msg 0 100000000 "abc" in
  (String.length (iobuf_timing_line 4 iobuf) <= 65)%nat
  /\ (store_iobuf_local 5 random_drop_default os_ok 4 iobuf [] 0
        closure_init fs_empty).1.1 = true.
Proof.
  intros iobuf.
  destruct (iobuf_timing_line_fits 5 4 iobuf
              ltac:(vm_compute; reflexivity)
              ltac:(split; vm_compute; [discriminate | reflexivity])
              ltac:(split; vm_compute; [discriminate | reflexivity])
              ltac:(vm_compute; reflexivity)) as [Hlen Hstore].
  split; [exact Hlen|].
  apply Hstore; [vm_compute; lia | vm_compute; lia | reflexivity
                 | reflexivity | reflexivity].
Defined.

Lemma store_suspend_local_long_signal_witness :
  let msg := suspend_msg (zeros 1024) in
  let r := store_suspend_local 5 7 os_ok msg [] 0 closure_init fs_empty in
  r.1.1 = false
  /\ errstr r.1.2 = Some "error writing CommandSuspend"
  /\ iolog_files r.1.2 = iolog_files closure_init
  /\ elapsed_time r.1.2 = timespec_zero.
Proof.
  intros msg r.
  destruct (store_suspend_local_long_signal 5 7 os_ok msg [] 0 closure_init
              fs_empty ltac:(apply Nat.leb_le; vm_compute; reflexivity))
    as (Hr & Hfiles & Helapsed).
  subst r. rewrite Hr. cbn [fst snd].
  split; [reflexivity|]. split; [reflexivity|].
  split; [exact Hfiles | exact Helapsed].
Defined.

Lemma store_accept_local_log_id_witness :
  let r := store_accept_local 384 (ev_os ev_accept) (accept_msg true)
             (bytes "A") 1 closure_init fs_empty in
  let rr := store_restart_local (os_failing None true true true)
              {| PB.log_id := "00/00/01";
                 PB.resume_point := {| PB.tv_sec := 1; PB.tv_nsec := 0 |} |}
              (bytes "R") 1 closure_init r.2 in
  write_queue r.1.2 = ["00/00/01"]
  /\ rr.1.1 = true /\ iolog_dir_fd rr.1.2 = Some "00/00/01".
Proof.
  intros r rr.
  pose proof (store_accept_local_log_id 384 (ev_os ev_accept)
                (accept_msg true) (bytes "A") 1 closure_init fs_empty
                r.1.2 r.2 ltac:(vm_compute; reflexivity)) as H.
  cbn [PB.expect_iobufs accept_msg] in H.
  destruct H as (id & Hq & Hp & _ & Hrestart).
  assert (Hid : id = "00/00/01").
  { assert (Hc : evlog r.1.2 ≫= iolog_path = Some "00/00/01")
      by (vm_compute; reflexivity).
    rewrite Hp in Hc. injection Hc as Hc. exact Hc. }
  subst id. split; [exact Hq|].
  destruct (Hrestart (os_failing None true true true)
              {| PB.log_id := "00/00/01";
                 PB.resume_point := {| PB.tv_sec := 1; PB.tv_nsec := 0 |} |}
              (bytes "R") 1%Z closure_init eq_refl eq_refl eq_refl eq_refl
              eq_refl eq_refl eq_refl ltac:(eexists; reflexivity) eq_refl)
    as [Hok Hfd].
  split; [exact Hok|]. fold rr in Hfd. rewrite Hfd. vm_compute. reflexivity.
Defined.

Lemma fuzz_main_runs_witness :
  let files := [fuzz_file true 3 "abc"; fuzz_file false 2 "de";
                fuzz_file true 4 "fg"; fuzz_file true 0 "";
                fuzz_file true 2 "hijk"] in
  fz_runs (fuzz_main files) = [bytes "abc"; []; bytes "hi"]
  /\ fz_errors (fuzz_main files) = 2%nat.
Proof.
  intros files.
  apply (fuzz_main_runs files). repeat constructor.
Defined.

Lemma journal_session_elapsed_witness :
  let ses := [ev_accept; ev_iobuf; ev_winsize; ev_exit] in
  let r := run_session sample_journal ses closure_init fs_empty in
  elapsed_time r.1.2 = {| tv_sec := 0; tv_nsec := 100000000 |}.
Proof.
  intros ses r.
  apply (journal_session_elapsed "/relay" "log.XXXXXX" 4096 2097152
           toy_unpack ses closure_init fs_empty r.1.2 r.2).
  - vm_compute. reflexivity.
  - repeat constructor.
Defined.

Lemma local_session_elapsed_witness :
  let ses := [ev_accept; ev_iobuf; ev_winsize; ev_exit] in
  let r := run_session sample_local ses closure_init fs_empty in
  elapsed_time r.1.2 = {| tv_sec := 1; tv_nsec := 100000000 |}.
Proof.
  intros ses r.
  apply (local_session_elapsed 384 5 5 7 0 ses closure_init fs_empty r.1.2
           r.2).
  - vm_compute. reflexivity.
  - repeat constructor.
Defined.

Lemma store_winsize_local_timing_line_witness :
  let r := store_winsize_local 5 5 os_ok (winsize_msg 1 5000) [] 0
             closure_init fs_empty in
  contents <$> iolog_files r.1.2 !! 5%nat
  = Some (bytes ("5 1.000005000 24 80" ++ String "010" ""))
  /\ iolog_files r.1.2 !! 4%nat = iolog_files closure_init !! 4%nat.
Proof.
  intros r.
  destruct (store_winsize_local_timing_line 5 5 os_ok (winsize_msg 1 5000)
              [] 0 closure_init fs_empty r.1.2 r.2 iolog_file_closed
              ltac:(vm_compute; reflexivity) eq_refl
              ltac:(split; vm_compute; discriminate))
    as (Hline & Hother & _).
  split; [exact Hline|]. apply Hother. discriminate.
Defined.

Lemma store_suspend_local_timing_line_witness :
  let r := store_suspend_local 5 7 os_ok (suspend_msg "TSTP") [] 0
             closure_init fs_empty in
  contents <$> iolog_files r.1.2 !! 5%nat
  = Some (bytes ("7 1.000000000 TSTP" ++ String "010" "")).
Proof.
  intros r.
  destruct (store_suspend_local_timing_line 5 7 os_ok (suspend_msg "TSTP")
              [] 0 closure_init fs_empty r.1.2 r.2 iolog_file_closed
              ltac:(vm_compute; reflexivity) eq_refl
              ltac:(split; vm_compute; discriminate))
    as (Hline & _).
  exact Hline.
Defined.
